(** * Log parsers for security telemetry: Sysmon, ELK, Defender, Wazuh

    A shallow embedding of the four parser classes ([SysmonLogParser],
    [ElkLogParser], [DefenderLogParser], [WazuhLogParser]) and of the
    visualization bundle they build, with the properties of the
    specification stated over it.

    Conventions of the embedding.
    - A JavaScript value that comes out of [JSON.parse] is a [Value]; numbers
      are integers (the numeric fields the parsers look at: event codes,
      ports, process ids, rule levels).
    - A string is a [string]: a sequence of code units below 256.
    - A method that can throw returns a [Result]; the parsers run in the
      monad [M], which threads the parser's [parsedData] and the clock and
      keeps the state when an exception is thrown, as JavaScript does.
    - [JSON.parse] and the comparison of a string with a number are the
      platform's: they are the fields of the class [Host]. [parse_json] is an
      instance for JSON texts with integer numbers, used for the concrete
      runs. *)

From Stdlib Require Import String Ascii ZArith List Bool Lia.
From Stdlib Require Import DecimalString DecimalPos FunctionalExtensionality.
Import ListNotations.

Local Open Scope string_scope.
Local Open Scope Z_scope.

Set Warnings "-register-all".

(** ** Values and exceptions *)

Inductive Value : Type :=
| VUndefined
| VNull
| VBool (b : bool)
| VNum (n : Z)
| VStr (s : string)
| VArr (elems : list Value)
| VObj (props : list (string * Value)).

Inductive Exn : Type := TypeError | SyntaxError.

Inductive Result (A : Type) : Type :=
| Ok (a : A)
| Throw (e : Exn).

Arguments Ok {A} a.
Arguments Throw {A} e.

Definition rbind {A B} (r : Result A) (f : A -> Result B) : Result B :=
  match r with
  | Ok a => f a
  | Throw e => Throw e
  end.

Declare Scope result_scope.
Delimit Scope result_scope with result.
Notation "x <-- r ;; k" := (rbind r (fun x => k))
  (at level 61, r at next level, right associativity) : result_scope.

Fixpoint rmapM {A B} (f : A -> Result B) (l : list A) : Result (list B) :=
  match l with
  | [] => Ok []
  | a :: l' =>
      (b <-- f a ;; bs <-- rmapM f l' ;; Ok (b :: bs))%result
  end.

(** ** Strings: the methods of [String.prototype] the parsers call *)

Module Str.

(** [s.split(sep)] for a one-character separator; never the empty array. *)
Fixpoint split (sep : ascii) (s : string) : list string :=
  match s with
  | EmptyString => [EmptyString]
  | String c r =>
      if Ascii.eqb c sep then EmptyString :: split sep r
      else match split sep r with
           | h :: t => String c h :: t
           | [] => [String c EmptyString]
           end
  end.

(** [s.includes(needle)] *)
Fixpoint includes (needle s : string) : bool :=
  String.prefix needle s ||
  match s with
  | EmptyString => false
  | String _ r => includes needle r
  end.

(** White space and line terminators (below 256), as [trim] and [parseInt]
    skip them. *)
Definition is_ws (c : ascii) : bool :=
  let n := nat_of_ascii c in
  (Nat.leb 9 n && Nat.leb n 13) || Nat.eqb n 32 || Nat.eqb n 160.

Fixpoint trimStart (s : string) : string :=
  match s with
  | EmptyString => EmptyString
  | String c r => if is_ws c then trimStart r else s
  end.

Fixpoint trimEnd (s : string) : string :=
  match s with
  | EmptyString => EmptyString
  | String c r =>
      match trimEnd r with
      | EmptyString => if is_ws c then EmptyString else String c EmptyString
      | r' => String c r'
      end
  end.

(** [s.trim()] *)
Definition trim (s : string) : string := trimEnd (trimStart s).

Definition digit_of (c : ascii) : option Z :=
  let n := nat_of_ascii c in
  if (Nat.leb 48 n && Nat.leb n 57)%bool then Some (Z.of_nat (n - 48)) else None.

(** The value of the longest prefix of decimal digits, from [acc]. *)
Fixpoint digits (acc : Z) (s : string) : Z :=
  match s with
  | EmptyString => acc
  | String c r =>
      match digit_of c with
      | Some d => digits (10 * acc + d) r
      | None => acc
      end
  end.

(** [parseInt(s, 10)]; [None] is NaN. *)
Definition parseInt (s : string) : option Z :=
  let s1 := trimStart s in
  let '(sign, s2) :=
    match s1 with
    | String "-" r => (-1, r)
    | String "+" r => (1, r)
    | _ => (1, s1)
    end in
  match s2 with
  | EmptyString => None
  | String c _ =>
      match digit_of c with
      | Some _ => Some (sign * digits 0 s2)
      | None => None
      end
  end.

(** [String(n)] for an integer [n]. *)
Definition ofZ (n : Z) : string := NilZero.string_of_int (Z.to_int n).

(** [array.join(sep)] on strings. *)
Definition join (sep : string) (l : list string) : string :=
  String.concat sep l.

End Str.

(** ** Values: conversions and property access *)

Module JS.

(** [!!v] *)
Definition truthy (v : Value) : bool :=
  match v with
  | VUndefined | VNull => false
  | VBool b => b
  | VNum n => negb (n =? 0)
  | VStr s => negb (String.eqb s "")
  | VArr _ | VObj _ => true
  end.

(** [a || b] when [b] has no effect. *)
Definition or (a b : Value) : Value := if truthy a then a else b.

(** An object's own property; a later duplicate key of a JSON text
    overwrites an earlier one. *)
Fixpoint own (k : string) (props : list (string * Value)) : option Value :=
  match props with
  | [] => None
  | (k', v) :: rest =>
      match own k rest with
      | Some w => Some w
      | None => if String.eqb k' k then Some v else None
      end
  end.

Definition lookup (k : string) (props : list (string * Value)) : Value :=
  match own k props with
  | Some v => v
  | None => VUndefined
  end.

Definition has_own (k : string) (props : list (string * Value)) : bool :=
  match own k props with
  | Some _ => true
  | None => false
  end.

(** [v.k] for a key [k] that no prototype defines (every key the parsers
    read is one): a TypeError on [undefined] and [null], the own property of
    an object, [undefined] on any other value. *)
Definition get (v : Value) (k : string) : Result Value :=
  match v with
  | VUndefined | VNull => Throw TypeError
  | VObj props => Ok (lookup k props)
  | _ => Ok VUndefined
  end.

(** [v?.k] *)
Definition optget (v : Value) (k : string) : Value :=
  match v with
  | VObj props => lookup k props
  | _ => VUndefined
  end.

(** [v === n] and [v === s] against a literal. *)
Definition eq_num (v : Value) (n : Z) : bool :=
  match v with VNum m => m =? n | _ => false end.

Definition eq_str (v : Value) (s : string) : bool :=
  match v with VStr t => String.eqb t s | _ => false end.

(** [String(v)], as a template literal applies it. An object that has an
    own [toString] (never callable in a JSON value) cannot be converted. *)
Fixpoint ToString (v : Value) : Result string :=
  match v with
  | VUndefined => Ok "undefined"
  | VNull => Ok "null"
  | VBool true => Ok "true"
  | VBool false => Ok "false"
  | VNum n => Ok (Str.ofZ n)
  | VStr s => Ok s
  | VArr elems =>
      (ss <-- (fix items (l : list Value) : Result (list string) :=
                 match l with
                 | [] => Ok []
                 | e :: l' =>
                     s <-- match e with
                           | VUndefined | VNull => Ok ""
                           | _ => ToString e
                           end ;;
                     ss <-- items l' ;;
                     Ok (s :: ss)
                 end) elems ;;
       Ok (Str.join "," ss))%result
  | VObj props =>
      if has_own "toString" props then Throw TypeError
      else Ok "[object Object]"
  end.

(** [array.join(sep)] *)
Definition join (sep : string) (l : list Value) : Result string :=
  (ss <-- rmapM (fun e => match e with
                          | VUndefined | VNull => Ok ""
                          | _ => ToString e
                          end) l ;;
   Ok (Str.join sep ss))%result.

(** [v.split(sep).pop()]: only a string has [split]. *)
Definition split_pop (sep : ascii) (v : Value) : Result Value :=
  match v with
  | VStr s => Ok (VStr (last (Str.split sep s) ""))
  | _ => Throw TypeError
  end.

(** [v.includes(needle)]: a string looks for a substring, an array for an
    element; no other value has the method. *)
Definition includes (v : Value) (needle : string) : Result bool :=
  match v with
  | VStr s => Ok (Str.includes needle s)
  | VArr elems => Ok (existsb (fun e => eq_str e needle) elems)
  | _ => Throw TypeError
  end.

End JS.


(** A template literal: its text chunks and its substitutions, converted
    from left to right. *)
Inductive Part : Type :=
| Lit (s : string)
| Sub (v : Value).

Fixpoint template (parts : list Part) : Result string :=
  match parts with
  | [] => Ok ""
  | Lit s :: rest => (r <-- template rest ;; Ok (s ++ r))%result
  | Sub v :: rest =>
      (s <-- JS.ToString v ;; r <-- template rest ;; Ok (s ++ r))%result
  end.

(** ** The canonical records

    One record type per category. A field that a parser's object literal
    does not write reads as [undefined], so it is [VUndefined] here. *)

Record ProcessEvent : Type := {
  p_timestamp : Value; p_processId : Value; p_parentProcessId : Value;
  p_image : Value; p_commandLine : Value; p_user : Value;
  p_processName : Value }.

Record NetworkConnectionEvent : Type := {
  n_timestamp : Value; n_sourceIp : Value; n_sourcePort : Value;
  n_destinationIp : Value; n_destinationPort : Value; n_protocol : Value;
  n_processId : Value; n_image : Value; n_user : Value;
  n_processName : Value }.

Record FileActivityEvent : Type := {
  f_timestamp : Value; f_filePath : Value; f_action : Value;
  f_activityType : Value; f_processId : Value; f_image : Value;
  f_user : Value; f_processName : Value }.

Record DnsQueryEvent : Type := {
  d_timestamp : Value; d_queryName : Value; d_queryResults : Value;
  d_processId : Value; d_image : Value; d_user : Value;
  d_processName : Value }.

Record ThreatEvent : Type := {
  t_timestamp : Value; t_threatName : Value; t_rule : Value;
  t_severity : Value; t_filePath : Value; t_description : Value;
  t_type : Value; t_processName : Value }.

Record RegistryChangeEvent : Type := {
  r_timestamp : Value; r_key : Value; r_valueName : Value;
  r_valueData : Value; r_processId : Value; r_image : Value;
  r_user : Value; r_processName : Value }.

(** [this.parsedData] *)
Module PD.
Record t : Type := mk {
  processes : list ProcessEvent;
  networkConnections : list NetworkConnectionEvent;
  fileActivities : list FileActivityEvent;
  dllActivities : list Value;
  registryChanges : list RegistryChangeEvent;
  userActivities : list Value;
  threats : list ThreatEvent;
  dnsQueries : list DnsQueryEvent }.

Definition empty : t := mk [] [] [] [] [] [] [] [].
End PD.

(** [{ ...record, process: name }] *)
Record WithProcess (A : Type) : Type := {
  base : A;
  process : Value }.

Arguments base {A} _.
Arguments process {A} _.

(** An entry of [threatIndicators]: a sentence, or the projection of a
    threat. *)
Inductive Indicator : Type :=
| IndText (s : string)
| IndThreat (threatName description processName severity : Value).

(** The bundle [generateVisualizationData] returns. *)
Module Viz.
Record AptPatterns : Type := {
  threatIndicators : list Indicator;
  attackChain : list string }.

Record FileMap : Type := {
  fileActivities : list (WithProcess FileActivityEvent) }.

Record NetworkMap : Type := {
  connections : list (WithProcess NetworkConnectionEvent);
  dnsQueries : list (WithProcess DnsQueryEvent) }.

Record t : Type := {
  aptPatterns : AptPatterns;
  fileMap : FileMap;
  networkMap : NetworkMap }.

Definition empty : t :=
  {| aptPatterns := {| threatIndicators := []; attackChain := [] |};
     fileMap := {| fileActivities := [] |};
     networkMap := {| connections := []; dnsQueries := [] |} |}.
End Viz.

(** ** The parser monad

    The state of a run: the parser's [parsedData] and the clock, as the
    readings the coming calls of [new Date()] will get. *)

Record State : Type := {
  parsedData : PD.t;
  clock : nat -> string }.

Definition M (A : Type) : Type := State -> Result A * State.

Definition ret {A} (a : A) : M A := fun st => (Ok a, st).

Definition bind {A B} (m : M A) (f : A -> M B) : M B :=
  fun st =>
    match m st with
    | (Ok a, st') => f a st'
    | (Throw e, st') => (Throw e, st')
    end.

Definition lift {A} (r : Result A) : M A := fun st => (r, st).

Declare Scope parser_scope.
Delimit Scope parser_scope with parser.
Notation "x <- m ;; k" := (bind m (fun x => k))
  (at level 61, m at next level, right associativity) : parser_scope.
Notation "m ;; k" := (bind m (fun _ => k))
  (at level 61, right associativity) : parser_scope.

(** [new Date().toISOString()] *)
Definition now : M Value :=
  fun st => (Ok (VStr (clock st 0%nat)),
             {| parsedData := parsedData st;
                clock := fun k => clock st (S k) |}).

(** [v || rest], where [rest] is evaluated only when [v] is falsy. *)
Definition orM (v : Value) (rest : M Value) : M Value :=
  if JS.truthy v then ret v else rest.

(** [v || new Date().toISOString()] *)
Definition orNow (v : Value) : M Value := orM v now.

Definition modify (f : PD.t -> PD.t) : M unit :=
  fun st => (Ok tt, {| parsedData := f (parsedData st); clock := clock st |}).

(** [try { m } catch (e) { console.error(...) }] *)
Definition try_catch (m : M unit) : M unit :=
  fun st => (Ok tt, snd (m st)).

(** [l.forEach(f)] *)
Fixpoint forEach {A} (f : A -> M unit) (l : list A) : M unit :=
  match l with
  | [] => ret tt
  | a :: l' => (f a ;; forEach f l')%parser
  end.

(** The platform: [JSON.parse] ([None] when it throws a SyntaxError) and
    [s >= n] for a string [s] and a number [n]. *)
Class Host : Type := {
  JSON_parse : string -> option Value;
  string_ge : string -> Z -> bool }.

Definition JSON_parse_or_throw `{Host} (content : string) : Result Value :=
  match JSON_parse content with
  | Some v => Ok v
  | None => Throw SyntaxError
  end.

(** ** The IP classifier *)

(** Comparisons of a [parseInt] result, false on NaN. *)
Definition num_eqb (p : option Z) (n : Z) : bool :=
  match p with Some m => m =? n | None => false end.
Definition num_geb (p : option Z) (n : Z) : bool :=
  match p with Some m => n <=? m | None => false end.
Definition num_leb (p : option Z) (n : Z) : bool :=
  match p with Some m => m <=? n | None => false end.

(** [isInternalIP], the same text in the four classes. A truthy value that
    is not a string has no [split]. *)
Definition isInternalIP (ip : Value) : Result bool :=
  if negb (JS.truthy ip) then Ok false
  else if JS.eq_str ip "127.0.0.1" || JS.eq_str ip "::1" then Ok true
  else
    match ip with
    | VStr s =>
        let parts := Str.split "." s in
        if (length parts =? 4)%nat then
          let p1 := Str.parseInt (nth 0 parts "") in
          let p2 := Str.parseInt (nth 1 parts "") in
          if num_eqb p1 10 then Ok true
          else if num_eqb p1 172 && num_geb p2 16 && num_leb p2 31 then Ok true
          else if num_eqb p1 192 && num_eqb p2 168 then Ok true
          else Ok false
        else Ok false
    | _ => Throw TypeError
    end.

(** ** The visualization pass: what the four classes share

    [generateVisualizationData] fills a local [visualization] and counts the
    steps of the attack chain in [step]; [Acc] is that local state. *)
Record Acc : Type := {
  a_threatIndicators : list Indicator;
  a_attackChain : list string;
  a_fileActivities : list (WithProcess FileActivityEvent);
  a_connections : list (WithProcess NetworkConnectionEvent);
  a_step : nat }.

Definition Acc_init : Acc :=
  {| a_threatIndicators := []; a_attackChain := []; a_fileActivities := [];
     a_connections := []; a_step := 1 |}.

(** [threatIndicators.push(ti); attackChain.push(`${step++}. ` + body)],
    where [entry] is the whole template of the chain entry. *)
Definition push_finding (a : Acc) (ti : Indicator) (entry : string) : Acc :=
  {| a_threatIndicators := a_threatIndicators a ++ [ti];
     a_attackChain := a_attackChain a ++ [entry];
     a_fileActivities := a_fileActivities a;
     a_connections := a_connections a;
     a_step := S (a_step a) |}.

Definition push_indicator (a : Acc) (ti : Indicator) : Acc :=
  {| a_threatIndicators := a_threatIndicators a ++ [ti];
     a_attackChain := a_attackChain a;
     a_fileActivities := a_fileActivities a;
     a_connections := a_connections a;
     a_step := a_step a |}.

Definition push_connection (a : Acc) (c : WithProcess NetworkConnectionEvent) : Acc :=
  {| a_threatIndicators := a_threatIndicators a;
     a_attackChain := a_attackChain a;
     a_fileActivities := a_fileActivities a;
     a_connections := a_connections a ++ [c];
     a_step := a_step a |}.

Definition push_file (a : Acc) (f : WithProcess FileActivityEvent) : Acc :=
  {| a_threatIndicators := a_threatIndicators a;
     a_attackChain := a_attackChain a;
     a_fileActivities := a_fileActivities a ++ [f];
     a_connections := a_connections a;
     a_step := a_step a |}.

(** [l.forEach(visit)] on the local state; an exception ends the pass. *)
Fixpoint visitAll {A} (visit : A -> Acc -> Result Acc) (l : list A) (a : Acc)
  : Result Acc :=
  match l with
  | [] => Ok a
  | x :: l' => (a' <-- visit x a ;; visitAll visit l' a')%result
  end.

(** [dnsQueries.map(dns => ({ ...dns, process: dns.processName }))] *)
Definition dns_with_process (l : list DnsQueryEvent) : list (WithProcess DnsQueryEvent) :=
  map (fun dns => {| base := dns; process := d_processName dns |}) l.

Definition bundle (a : Acc) (dns : list DnsQueryEvent) : Viz.t :=
  {| Viz.aptPatterns := {| Viz.threatIndicators := a_threatIndicators a;
                           Viz.attackChain := a_attackChain a |};
     Viz.fileMap := {| Viz.fileActivities := a_fileActivities a |};
     Viz.networkMap := {| Viz.connections := a_connections a;
                          Viz.dnsQueries := dns_with_process dns |} |}.

(** The step number of a chain entry, as a substitution. *)
Definition Step (n : nat) : Part := Sub (VNum (Z.of_nat n)).

(** The command-and-control finding, the same two templates in the Sysmon,
    ELK and Defender classes. *)
Definition c2_indicator (conn : NetworkConnectionEvent) (processName : Value)
  : Result string :=
  template [Lit "Command and Control Connection: Outbound connection to C2 IP: ";
            Sub (n_destinationIp conn); Lit ":"; Sub (n_destinationPort conn);
            Lit " (Process: "; Sub processName; Lit ")"].

Definition c2_entry (step : nat) (conn : NetworkConnectionEvent)
  (processName : Value) : Result string :=
  template [Step step;
            Lit ". Command and Control (C2): Suspicious network connection to ";
            Sub (n_destinationIp conn); Lit ":"; Sub (n_destinationPort conn);
            Lit " from "; Sub processName].

(** State updates of the parsers: [this.parsedData.<category>.push(r)]. *)
Definition push_process (r : ProcessEvent) : M unit :=
  modify (fun d => PD.mk (PD.processes d ++ [r]) (PD.networkConnections d)
    (PD.fileActivities d) (PD.dllActivities d) (PD.registryChanges d)
    (PD.userActivities d) (PD.threats d) (PD.dnsQueries d)).

Definition with_network (r : NetworkConnectionEvent) (d : PD.t) : PD.t :=
  PD.mk (PD.processes d) (PD.networkConnections d ++ [r])
    (PD.fileActivities d) (PD.dllActivities d) (PD.registryChanges d)
    (PD.userActivities d) (PD.threats d) (PD.dnsQueries d).

Definition push_network (r : NetworkConnectionEvent) : M unit :=
  modify (with_network r).

Definition push_fileActivity (r : FileActivityEvent) : M unit :=
  modify (fun d => PD.mk (PD.processes d) (PD.networkConnections d)
    (PD.fileActivities d ++ [r]) (PD.dllActivities d) (PD.registryChanges d)
    (PD.userActivities d) (PD.threats d) (PD.dnsQueries d)).

Definition push_registry (r : RegistryChangeEvent) : M unit :=
  modify (fun d => PD.mk (PD.processes d) (PD.networkConnections d)
    (PD.fileActivities d) (PD.dllActivities d) (PD.registryChanges d ++ [r])
    (PD.userActivities d) (PD.threats d) (PD.dnsQueries d)).

Definition push_threat (r : ThreatEvent) : M unit :=
  modify (fun d => PD.mk (PD.processes d) (PD.networkConnections d)
    (PD.fileActivities d) (PD.dllActivities d) (PD.registryChanges d)
    (PD.userActivities d) (PD.threats d ++ [r]) (PD.dnsQueries d)).

Definition push_dns (r : DnsQueryEvent) : M unit :=
  modify (fun d => PD.mk (PD.processes d) (PD.networkConnections d)
    (PD.fileActivities d) (PD.dllActivities d) (PD.registryChanges d)
    (PD.userActivities d) (PD.threats d) (PD.dnsQueries d ++ [r])).

(** [this.parsedData = { processes: [], ... }] *)
Definition reset : M unit := modify (fun _ => PD.empty).

(** [event.k] inside a parser. *)
Definition field (event : Value) (k : string) : M Value := lift (JS.get event k).

(** ** [SysmonLogParser] *)

Module SysmonLogParser.
Section Parser.
Context `{Host}.
Local Open Scope parser_scope.

(** [event.Image ? event.Image.split('\\').pop() : 'N/A'], the first
    statement of the four record builders. *)
Definition imageName (event : Value) : M Value :=
  image <- field event "Image" ;;
  if JS.truthy image then
    image' <- field event "Image" ;;
    lift (JS.split_pop "\"%char image')
  else ret (VStr "N/A").

Definition processProcessCreation (event : Value) : M unit :=
  processName <- imageName event ;;
  UtcTime <- field event "UtcTime" ;;
  timestamp <- orNow UtcTime ;;
  processId <- field event "ProcessId" ;;
  parentProcessId <- field event "ParentProcessId" ;;
  image <- field event "Image" ;;
  commandLine <- field event "CommandLine" ;;
  user <- field event "User" ;;
  push_process
    {| p_timestamp := timestamp; p_processId := processId;
       p_parentProcessId := parentProcessId; p_image := image;
       p_commandLine := commandLine; p_user := user;
       p_processName := processName |}.

Definition processNetworkConnection (event : Value) : M unit :=
  processName <- imageName event ;;
  UtcTime <- field event "UtcTime" ;;
  timestamp <- orNow UtcTime ;;
  sourceIp <- field event "SourceIp" ;;
  sourcePort <- field event "SourcePort" ;;
  destinationIp <- field event "DestinationIp" ;;
  destinationPort <- field event "DestinationPort" ;;
  protocol <- field event "Protocol" ;;
  processId <- field event "ProcessId" ;;
  image <- field event "Image" ;;
  user <- field event "User" ;;
  push_network
    {| n_timestamp := timestamp; n_sourceIp := sourceIp;
       n_sourcePort := sourcePort; n_destinationIp := destinationIp;
       n_destinationPort := destinationPort; n_protocol := protocol;
       n_processId := processId; n_image := image; n_user := user;
       n_processName := processName |}.

Definition processFileActivity (event : Value) : M unit :=
  EventID <- field event "EventID" ;;
  action <- (if JS.eq_num EventID 11 then ret "File Created"
             else if JS.eq_num EventID 23 then ret "File Deleted"
             else if JS.eq_num EventID 15 then ret "File Stream Created"
             else
               EventID' <- field event "EventID" ;;
               lift (template [Lit "EventID "; Sub EventID'])) ;;
  processName <- imageName event ;;
  UtcTime <- field event "UtcTime" ;;
  timestamp <- orNow UtcTime ;;
  filePath <- field event "TargetFilename" ;;
  processId <- field event "ProcessId" ;;
  image <- field event "Image" ;;
  user <- field event "User" ;;
  push_fileActivity
    {| f_timestamp := timestamp; f_filePath := filePath;
       f_action := VStr action; f_activityType := VStr action;
       f_processId := processId; f_image := image; f_user := user;
       f_processName := processName |}.

Definition processDnsQuery (event : Value) : M unit :=
  processName <- imageName event ;;
  UtcTime <- field event "UtcTime" ;;
  timestamp <- orNow UtcTime ;;
  queryName <- field event "QueryName" ;;
  queryResults <- field event "QueryResults" ;;
  processId <- field event "ProcessId" ;;
  image <- field event "Image" ;;
  user <- field event "User" ;;
  push_dns
    {| d_timestamp := timestamp; d_queryName := queryName;
       d_queryResults := queryResults; d_processId := processId;
       d_image := image; d_user := user; d_processName := processName |}.

Definition processSysmonEvent (event : Value) : M unit :=
  EventID <- field event "EventID" ;;
  if JS.eq_num EventID 1 then processProcessCreation event
  else if JS.eq_num EventID 3 then processNetworkConnection event
  else if JS.eq_num EventID 11 || JS.eq_num EventID 23 || JS.eq_num EventID 15
       then processFileActivity event
  else if JS.eq_num EventID 22 then processDnsQuery event
  else ret tt.

Definition parseSysmonLogs (content : string) : M unit :=
  try_catch
    (events <- lift (JSON_parse_or_throw content) ;;
     match events with
     | VArr es => forEach processSysmonEvent es
     | _ => ret tt
     end).

Definition parseByFormat (content format : string) : M unit :=
  if String.eqb format "sysmon" then parseSysmonLogs content else ret tt.

Local Open Scope result_scope.

Definition visitConnection (conn : NetworkConnectionEvent) (a : Acc)
  : Result Acc :=
  let processName := JS.or (n_processName conn) (VStr "N/A") in
  internal <-- isInternalIP (n_destinationIp conn) ;;
  a' <-- (if negb internal then
            ti <-- c2_indicator conn processName ;;
            entry <-- c2_entry (a_step a) conn processName ;;
            Ok (push_finding a (IndText ti) entry)
          else
            internal' <-- isInternalIP (n_destinationIp conn) ;;
            if internal' && JS.eq_num (n_destinationPort conn) 445 then
              ti <-- template
                       [Lit "Lateral Movement - SMB: Internal SMB connection: ";
                        Sub (n_sourceIp conn); Lit " -> ";
                        Sub (n_destinationIp conn);
                        Lit " (Process: "; Sub processName; Lit ")"] ;;
              entry <-- template
                       [Step (a_step a);
                        Lit ". Lateral Movement: Internal SMB connection from ";
                        Sub (n_sourceIp conn); Lit " to ";
                        Sub (n_destinationIp conn)] ;;
              Ok (push_finding a (IndText ti) entry)
            else Ok a) ;;
  Ok (push_connection a' {| base := conn; process := processName |}).

Definition visitFile (file : FileActivityEvent) (a : Acc) : Result Acc :=
  let processName := JS.or (f_processName file) (VStr "N/A") in
  staged <-- (if JS.eq_str (f_action file) "File Created"
              then JS.includes (f_filePath file) "Temp"
              else Ok false) ;;
  a' <-- (if staged then
            ti <-- template
                     [Lit "Exfiltration Staging: File created in temp for potential exfiltration: ";
                      Sub (f_filePath file); Lit " (Process: ";
                      Sub processName; Lit ") (User: "; Sub (f_user file);
                      Lit ")"] ;;
            entry <-- template
                     [Step (a_step a);
                      Lit ". Exfiltration: Data staged for exfiltration via ";
                      Sub (f_filePath file)] ;;
            Ok (push_finding a (IndText ti) entry)
          else if JS.eq_str (f_action file) "File Deleted" then
            ti <-- template
                     [Lit "Evidence Tampering: File Deleted: ";
                      Sub (f_filePath file); Lit " (Process: ";
                      Sub processName; Lit ") (User: "; Sub (f_user file);
                      Lit ")"] ;;
            entry <-- template
                     [Step (a_step a); Lit ". Evidence Tampering: File ";
                      Sub (f_filePath file); Lit " deleted"] ;;
            Ok (push_finding a (IndText ti) entry)
          else Ok a) ;;
  Ok (push_file a' {| base := file; process := processName |}).

Definition generateVisualizationData (d : PD.t) : Result Viz.t :=
  a1 <-- visitAll visitConnection (PD.networkConnections d) Acc_init ;;
  a2 <-- visitAll visitFile (PD.fileActivities d) a1 ;;
  Ok (bundle a2 (PD.dnsQueries d)).

Local Open Scope parser_scope.

Definition parseLogs (files : list string) (format : string) : M Viz.t :=
  reset ;;
  forEach (fun content => parseByFormat content format) files ;;
  d <- (fun st => (Ok (parsedData st), st)) ;;
  lift (generateVisualizationData d).

End Parser.
End SysmonLogParser.

(** ** [ElkLogParser] *)

Module ElkLogParser.
Section Parser.
Context `{Host}.
Local Open Scope parser_scope.

(** [image.split('\\').pop().split('/').pop()] *)
Definition lastSegment (image : Value) : Result Value :=
  (s <-- JS.split_pop "\"%char image ;; JS.split_pop "/"%char s)%result.

(** [event.Image || event.process?.executable], the image of the network,
    file and DNS records. *)
Definition imageOf (event : Value) : M Value :=
  Image <- field event "Image" ;;
  orM Image (process <- field event "process" ;;
             ret (JS.optget process "executable")).

(** [image ? image.split('\\').pop().split('/').pop() : 'N/A'] *)
Definition nameOf (image : Value) : M Value :=
  if JS.truthy image then lift (lastSegment image) else ret (VStr "N/A").

(** [event.ProcessId || event.process?.pid] *)
Definition pidOf (event : Value) : M Value :=
  ProcessId <- field event "ProcessId" ;;
  orM ProcessId (process <- field event "process" ;;
                 ret (JS.optget process "pid")).

(** [event.User || event.user?.name] *)
Definition userOf (event : Value) : M Value :=
  User <- field event "User" ;;
  orM User (user <- field event "user" ;; ret (JS.optget user "name")).

(** [event.K || event.outer?.inner] *)
Definition either (event : Value) (K outer inner : string) : M Value :=
  v <- field event K ;;
  orM v (o <- field event outer ;; ret (JS.optget o inner)).

Definition processCheck (event timestamp : Value) : M unit :=
  processImage <-
    (Image <- field event "Image" ;;
     orM Image
       (process <- field event "process" ;;
        orM (JS.optget process "executable")
            (field event "InitiatingProcessFileName"))) ;;
  processId <-
    (ProcessId <- field event "ProcessId" ;;
     orM ProcessId
       (process <- field event "process" ;;
        orM (JS.optget process "pid") (field event "InitiatingProcessId"))) ;;
  if JS.truthy processImage && JS.truthy processId then
    processName <- lift (lastSegment processImage) ;;
    parentProcessId <-
      (ParentProcessId <- field event "ParentProcessId" ;;
       orM ParentProcessId
         (process <- field event "process" ;;
          orM (JS.optget (JS.optget process "parent") "pid")
              (field event "InitiatingProcessParentId"))) ;;
    commandLine <-
      (CommandLine <- field event "CommandLine" ;;
       orM CommandLine
         (process <- field event "process" ;;
          orM (JS.optget process "command_line")
              (field event "InitiatingProcessCommandLine"))) ;;
    user <-
      (User <- field event "User" ;;
       orM User
         (user <- field event "user" ;;
          orM (JS.optget user "name") (field event "UserName"))) ;;
    push_process
      {| p_timestamp := timestamp; p_processId := processId;
         p_parentProcessId := parentProcessId; p_image := processImage;
         p_commandLine := commandLine; p_user := user;
         p_processName := processName |}
  else ret tt.

Definition networkCheck (event timestamp : Value) : M unit :=
  destIp <- either event "DestinationIp" "destination" "ip" ;;
  sourceIp <- either event "SourceIp" "source" "ip" ;;
  if JS.truthy destIp then
    processImageForConn <- imageOf event ;;
    processNameForConn <- nameOf processImageForConn ;;
    sourcePort <- either event "SourcePort" "source" "port" ;;
    destinationPort <- either event "DestinationPort" "destination" "port" ;;
    protocol <- either event "Protocol" "network" "protocol" ;;
    processId <- pidOf event ;;
    user <- userOf event ;;
    push_network
      {| n_timestamp := timestamp; n_sourceIp := sourceIp;
         n_sourcePort := sourcePort; n_destinationIp := destIp;
         n_destinationPort := destinationPort; n_protocol := protocol;
         n_processId := processId; n_image := processImageForConn;
         n_user := user; n_processName := processNameForConn |}
  else ret tt.

Definition fileCheck (event timestamp : Value) : M unit :=
  filePath <- either event "TargetFilename" "file" "path" ;;
  if JS.truthy filePath then
    processImageForFile <- imageOf event ;;
    processNameForFile <- nameOf processImageForFile ;;
    EventID <- field event "EventID" ;;
    action <-
      (if JS.eq_num EventID 11 then ret (VStr "File Created")
       else if JS.eq_num EventID 23 then ret (VStr "File Deleted")
       else
         ev <- field event "event" ;;
         if JS.truthy (JS.optget ev "action") then
           ev' <- field event "event" ;;
           lift (JS.get ev' "action")
         else ret (VStr "File Activity")) ;;
    processId <- pidOf event ;;
    user <- userOf event ;;
    push_fileActivity
      {| f_timestamp := timestamp; f_filePath := filePath;
         f_action := action; f_activityType := action;
         f_processId := processId; f_image := processImageForFile;
         f_user := user; f_processName := processNameForFile |}
  else ret tt.

(** [event.dns.answers.map(a => a.data).join(', ')] *)
Definition answersOf (event : Value) : Result Value :=
  (dns <-- JS.get event "dns" ;;
   answers <-- JS.get dns "answers" ;;
   match answers with
   | VArr elems =>
       datas <-- rmapM (fun a => JS.get a "data") elems ;;
       s <-- JS.join ", " datas ;;
       Ok (VStr s)
   | _ => Throw TypeError
   end)%result.

Definition dnsCheck (event timestamp : Value) : M unit :=
  dnsQuery <-
    (QueryName <- field event "QueryName" ;;
     orM QueryName
       (dns <- field event "dns" ;;
        ret (JS.optget (JS.optget dns "question") "name"))) ;;
  if JS.truthy dnsQuery then
    processImageForDns <- imageOf event ;;
    processNameForDns <- nameOf processImageForDns ;;
    queryResults <-
      (QueryResults <- field event "QueryResults" ;;
       orM QueryResults
         (dns <- field event "dns" ;;
          if JS.truthy (JS.optget dns "answers")
          then lift (answersOf event)
          else ret (VStr "N/A"))) ;;
    processId <- pidOf event ;;
    user <- userOf event ;;
    push_dns
      {| d_timestamp := timestamp; d_queryName := dnsQuery;
         d_queryResults := queryResults; d_processId := processId;
         d_image := processImageForDns; d_user := user;
         d_processName := processNameForDns |}
  else ret tt.

(** The four checks of [processGenericEvent], in its order. *)
Definition processGenericEvent (event : Value) : M unit :=
  timestamp <-
    (ts <- field event "@timestamp" ;;
     orM ts (UtcTime <- field event "UtcTime" ;; orNow UtcTime)) ;;
  processCheck event timestamp ;;
  networkCheck event timestamp ;;
  fileCheck event timestamp ;;
  dnsCheck event timestamp.

(** [events.forEach(log => { const event = log._source || log; ... })] *)
Definition processLog (log : Value) : M unit :=
  _source <- field log "_source" ;;
  processGenericEvent (JS.or _source log).

(** [content.trim().split('\n').map(line => JSON.parse(line))] *)
Fixpoint parseLines (lines : list string) : option (list Value) :=
  match lines with
  | [] => Some []
  | line :: rest =>
      match JSON_parse line with
      | Some v =>
          match parseLines rest with
          | Some vs => Some (v :: vs)
          | None => None
          end
      | None => None
      end
  end.

Definition parseELKLogs (content : string) : M unit :=
  match JSON_parse content with
  | Some (VArr events) => forEach processLog events
  | Some v => forEach processLog [v]
  | None =>
      match parseLines (Str.split "010"%char (Str.trim content)) with
      | Some events => forEach processLog events
      | None => ret tt
      end
  end.

Definition parseByFormat (content format : string) : M unit :=
  if String.eqb format "elk" then parseELKLogs content else ret tt.

Local Open Scope result_scope.

Definition visitConnection (conn : NetworkConnectionEvent) (a : Acc)
  : Result Acc :=
  let processName := JS.or (n_processName conn) (VStr "N/A") in
  internal <-- isInternalIP (n_destinationIp conn) ;;
  a' <-- (if negb internal then
            ti <-- c2_indicator conn processName ;;
            entry <-- c2_entry (a_step a) conn processName ;;
            Ok (push_finding a (IndText ti) entry)
          else Ok a) ;;
  Ok (push_connection a' {| base := conn; process := processName |}).

Definition visitFile (file : FileActivityEvent) (a : Acc) : Result Acc :=
  let processName := JS.or (f_processName file) (VStr "N/A") in
  Ok (push_file a {| base := file; process := processName |}).

Definition generateVisualizationData (d : PD.t) : Result Viz.t :=
  a1 <-- visitAll visitConnection (PD.networkConnections d) Acc_init ;;
  a2 <-- visitAll visitFile (PD.fileActivities d) a1 ;;
  Ok (bundle a2 (PD.dnsQueries d)).

Local Open Scope parser_scope.

Definition parseLogs (files : list string) (format : string) : M Viz.t :=
  reset ;;
  forEach (fun content => parseByFormat content format) files ;;
  d <- (fun st => (Ok (parsedData st), st)) ;;
  lift (generateVisualizationData d).

End Parser.
End ElkLogParser.

(** ** [DefenderLogParser] *)

Module DefenderLogParser.
Section Parser.
Context `{Host}.
Local Open Scope parser_scope.

(** [event.FileName || event.FolderPath] *)
Definition pathOf (event : Value) : M Value :=
  FileName <- field event "FileName" ;;
  orM FileName (field event "FolderPath").

(** The body of [events.forEach(event => { ... })] in [parseDefenderLogs]. *)
Definition processDefenderEvent (event : Value) : M unit :=
  TimeGenerated <- field event "TimeGenerated" ;;
  timestamp <- orNow TimeGenerated ;;
  fileName <- field event "InitiatingProcessFileName" ;;
  let processName := JS.or fileName (VStr "N/A") in
  UserName <- field event "UserName" ;;
  let user := JS.or UserName (VStr "N/A") in
  EventType <- field event "EventType" ;;
  if JS.eq_str EventType "ProcessCreated" then
    processId <- field event "InitiatingProcessId" ;;
    parentProcessId <- field event "InitiatingProcessParentId" ;;
    image <- field event "InitiatingProcessFileName" ;;
    commandLine <- field event "InitiatingProcessCommandLine" ;;
    push_process
      {| p_timestamp := timestamp; p_processId := processId;
         p_parentProcessId := parentProcessId; p_image := image;
         p_commandLine := commandLine; p_user := user;
         p_processName := processName |}
  else if JS.eq_str EventType "NetworkConnection" then
    sourceIp <- field event "SourceIp" ;;
    sourcePort <- field event "SourcePort" ;;
    destinationIp <- field event "DestinationIp" ;;
    destinationPort <- field event "DestinationPort" ;;
    protocol <- field event "Protocol" ;;
    processId <- field event "InitiatingProcessId" ;;
    image <- field event "InitiatingProcessFileName" ;;
    push_network
      {| n_timestamp := timestamp; n_sourceIp := sourceIp;
         n_sourcePort := sourcePort; n_destinationIp := destinationIp;
         n_destinationPort := destinationPort; n_protocol := protocol;
         n_processId := processId; n_image := image; n_user := user;
         n_processName := processName |}
  else if JS.eq_str EventType "FileCreated" || JS.eq_str EventType "FileDeleted" then
    filePath <- pathOf event ;;
    EventType' <- field event "EventType" ;;
    let action := if JS.eq_str EventType' "FileCreated"
                  then VStr "File Created" else VStr "File Deleted" in
    activityType <- field event "EventType" ;;
    processId <- field event "InitiatingProcessId" ;;
    image <- field event "InitiatingProcessFileName" ;;
    push_fileActivity
      {| f_timestamp := timestamp; f_filePath := filePath;
         f_action := action; f_activityType := activityType;
         f_processId := processId; f_image := image; f_user := user;
         f_processName := processName |}
  else if JS.eq_str EventType "DnsQuery" then
    queryName <- field event "QueryName" ;;
    queryResults <- field event "QueryResults" ;;
    processId <- field event "InitiatingProcessId" ;;
    image <- field event "InitiatingProcessFileName" ;;
    push_dns
      {| d_timestamp := timestamp; d_queryName := queryName;
         d_queryResults := queryResults; d_processId := processId;
         d_image := image; d_user := user; d_processName := processName |}
  else if JS.eq_str EventType "Detection" then
    threatName <- field event "ThreatName" ;;
    severity <- field event "Severity" ;;
    filePath <- pathOf event ;;
    fileName' <- field event "InitiatingProcessFileName" ;;
    description <- field event "ThreatName" ;;
    push_threat
      {| t_timestamp := timestamp; t_threatName := threatName;
         t_rule := VUndefined; t_severity := severity;
         t_filePath := filePath; t_description := description;
         t_type := VStr "defender_detection";
         t_processName := JS.or fileName' processName |}
  else if JS.eq_str EventType "RegistryValueSet" then
    key <- field event "RegistryKey" ;;
    valueName <- field event "RegistryValueName" ;;
    valueData <- field event "RegistryValueData" ;;
    processId <- field event "InitiatingProcessId" ;;
    image <- field event "InitiatingProcessFileName" ;;
    push_registry
      {| r_timestamp := timestamp; r_key := key; r_valueName := valueName;
         r_valueData := valueData; r_processId := processId;
         r_image := image; r_user := user; r_processName := processName |}
  else ret tt.

Definition parseDefenderLogs (content : string) : M unit :=
  try_catch
    (events <- lift (JSON_parse_or_throw content) ;;
     match events with
     | VArr es => forEach processDefenderEvent es
     | _ => ret tt
     end).

Definition parseByFormat (content format : string) : M unit :=
  if String.eqb format "defender" then parseDefenderLogs content else ret tt.

Local Open Scope result_scope.

Definition visitConnection (conn : NetworkConnectionEvent) (a : Acc)
  : Result Acc :=
  let processName := JS.or (n_processName conn) (VStr "N/A") in
  internal <-- isInternalIP (n_destinationIp conn) ;;
  a' <-- (if negb internal then
            ti <-- c2_indicator conn processName ;;
            entry <-- c2_entry (a_step a) conn processName ;;
            Ok (push_finding a (IndText ti) entry)
          else Ok a) ;;
  Ok (push_connection a' {| base := conn; process := processName |}).

Definition visitFile (file : FileActivityEvent) (a : Acc) : Result Acc :=
  let processName := JS.or (f_processName file) (VStr "N/A") in
  staged <-- (if JS.eq_str (f_action file) "File Created"
              then JS.includes (f_filePath file) "Temp"
              else Ok false) ;;
  a' <-- (if staged then
            ti <-- template
                     [Lit "Exfiltration Staging: File created in temp: ";
                      Sub (f_filePath file); Lit " (Process: ";
                      Sub processName; Lit ")"] ;;
            entry <-- template
                     [Step (a_step a); Lit ". Exfiltration: Data staged in ";
                      Sub (f_filePath file)] ;;
            Ok (push_finding a (IndText ti) entry)
          else Ok a) ;;
  Ok (push_file a' {| base := file; process := processName |}).

(** [threats.map(t => ({ threatName, description, processName, severity }))] *)
Definition projectThreat (t : ThreatEvent) : Indicator :=
  IndThreat (t_threatName t) (t_description t) (t_processName t) (t_severity t).

Definition generateVisualizationData (d : PD.t) : Result Viz.t :=
  a1 <-- visitAll visitConnection (PD.networkConnections d) Acc_init ;;
  a2 <-- visitAll visitFile (PD.fileActivities d) a1 ;;
  let a3 := fold_left push_indicator (map projectThreat (PD.threats d)) a2 in
  Ok (bundle a3 (PD.dnsQueries d)).

Local Open Scope parser_scope.

Definition parseLogs (files : list string) (format : string) : M Viz.t :=
  reset ;;
  forEach (fun content => parseByFormat content format) files ;;
  d <- (fun st => (Ok (parsedData st), st)) ;;
  lift (generateVisualizationData d).

End Parser.
End DefenderLogParser.

(** ** [WazuhLogParser] *)

Module WazuhLogParser.
Section Parser.
Context `{Host}.
Local Open Scope parser_scope.

(** [level >= n]: a number is compared as it is, any other value after its
    conversion to a primitive. *)
Definition ge (level : Value) (n : Z) : Result bool :=
  match level with
  | VUndefined => Ok false
  | VNull => Ok (n <=? 0)
  | VBool b => Ok (n <=? (if b then 1 else 0))
  | VNum m => Ok (n <=? m)
  | VStr s => Ok (string_ge s n)
  | VArr _ | VObj _ =>
      (s <-- JS.ToString level ;; Ok (string_ge s n))%result
  end.

Definition mapWazuhLevel (level : Value) : Result string :=
  (if negb (JS.truthy level) then Ok "low"
   else
     high <-- ge level 12 ;;
     if high then Ok "high"
     else
       medium <-- ge level 7 ;;
       if medium then Ok "medium"
       else
         low <-- ge level 3 ;;
         if low then Ok "low" else Ok "informational")%result.

(** [data.audit?.event] *)
Definition auditEvent (data : Value) : M Value :=
  audit <- field data "audit" ;;
  ret (JS.optget audit "event").

(** The body of [alerts.forEach(alert => { ... })] in [parseWazuhLogs]. *)
Definition processAlert (alert : Value) : M unit :=
  ts <- field alert "timestamp" ;;
  timestamp <- orNow ts ;;
  rule0 <- field alert "rule" ;;
  let rule := JS.or rule0 (VObj []) in
  data0 <- field alert "data" ;;
  let data := JS.or data0 (VObj []) in
  id <- field rule "id" ;;
  description <- field rule "description" ;;
  (if JS.truthy id && JS.truthy description then
     threatName <- field rule "description" ;;
     ruleId <- field rule "id" ;;
     level <- field rule "level" ;;
     severity <- lift (mapWazuhLevel level) ;;
     full_log <- field alert "full_log" ;;
     description' <- orM full_log (field rule "description") ;;
     ev <- auditEvent data ;;
     processName <-
       orM (JS.optget (JS.optget ev "process") "name")
           (command <- field data "command" ;;
            ret (JS.or command (VStr "N/A"))) ;;
     push_threat
       {| t_timestamp := timestamp; t_threatName := threatName;
          t_rule := ruleId; t_severity := VStr severity;
          t_filePath := VUndefined; t_description := description';
          t_type := VStr "wazuh_alert"; t_processName := processName |}
   else ret tt) ;;
  ev1 <- auditEvent data ;;
  ev2 <- auditEvent data ;;
  if JS.truthy (JS.optget ev1 "file") && JS.truthy (JS.optget ev2 "action") then
    audit <- field data "audit" ;;
    event <- field audit "event" ;;
    filePath <- field event "file" ;;
    action <- field event "action" ;;
    action' <- field event "action" ;;
    activityType <- lift (template [Lit "wazuh-fim-"; Sub action']) ;;
    process <- field event "process" ;;
    let processId := JS.optget process "pid" in
    let image := JS.optget process "name" in
    user <- field event "user" ;;
    push_fileActivity
      {| f_timestamp := timestamp; f_filePath := filePath;
         f_action := action; f_activityType := VStr activityType;
         f_processId := processId; f_image := image; f_user := user;
         f_processName := JS.or (JS.optget process "name") (VStr "N/A") |}
  else ret tt.

Definition parseWazuhLogs (content : string) : M unit :=
  try_catch
    (alerts <- lift (JSON_parse_or_throw content) ;;
     match alerts with
     | VArr es => forEach processAlert es
     | _ => ret tt
     end).

Definition parseByFormat (content format : string) : M unit :=
  if String.eqb format "wazuh" then parseWazuhLogs content else ret tt.

Local Open Scope result_scope.

Definition visitThreat (t : ThreatEvent) (a : Acc) : Result Acc :=
  let ti := IndThreat (t_threatName t) (t_description t) (t_processName t)
                      (t_severity t) in
  entry <-- template [Step (a_step a); Lit ". "; Sub (t_threatName t);
                      Lit ": "; Sub (t_description t)] ;;
  Ok (push_finding a ti entry).

Definition visitFile (file : FileActivityEvent) (a : Acc) : Result Acc :=
  let processName := JS.or (f_processName file) (VStr "N/A") in
  Ok (push_file a {| base := file; process := processName |}).

Definition visitConnection (conn : NetworkConnectionEvent) (a : Acc)
  : Result Acc :=
  let processName := JS.or (n_processName conn) (VStr "N/A") in
  Ok (push_connection a {| base := conn; process := processName |}).

Definition generateVisualizationData (d : PD.t) : Result Viz.t :=
  a1 <-- visitAll visitThreat (PD.threats d) Acc_init ;;
  a2 <-- visitAll visitFile (PD.fileActivities d) a1 ;;
  a3 <-- visitAll visitConnection (PD.networkConnections d) a2 ;;
  Ok (bundle a3 (PD.dnsQueries d)).

Local Open Scope parser_scope.

Definition parseLogs (files : list string) (format : string) : M Viz.t :=
  reset ;;
  forEach (fun content => parseByFormat content format) files ;;
  d <- (fun st => (Ok (parsedData st), st)) ;;
  lift (generateVisualizationData d).

End Parser.
End WazuhLogParser.

(** ** A host for the concrete runs

    [parse_json] reads the JSON texts whose numbers are integers and whose
    strings use the one-letter escapes; on any other text it answers [None].
    It stands for [JSON.parse] in the examples only: every general theorem
    below holds for any [Host]. *)

Module Json.

Definition is_ws (c : ascii) : bool :=
  let n := nat_of_ascii c in
  Nat.eqb n 32 || Nat.eqb n 9 || Nat.eqb n 10 || Nat.eqb n 13.

Fixpoint skip (s : string) : string :=
  match s with
  | EmptyString => EmptyString
  | String c r => if is_ws c then skip r else s
  end.

Definition unescape (c : ascii) : option ascii :=
  let n := nat_of_ascii c in
  if Nat.eqb n 34 then Some c            (* quote *)
  else if Nat.eqb n 92 then Some c       (* backslash *)
  else if Nat.eqb n 47 then Some c       (* slash *)
  else if Nat.eqb n 98 then Some "008"%char
  else if Nat.eqb n 102 then Some "012"%char
  else if Nat.eqb n 110 then Some "010"%char
  else if Nat.eqb n 114 then Some "013"%char
  else if Nat.eqb n 116 then Some "009"%char
  else None.

(** The characters of a string up to its closing quote, and the rest. *)
Fixpoint str (s : string) : option (string * string) :=
  match s with
  | EmptyString => None
  | String c r =>
      if Nat.eqb (nat_of_ascii c) 34 then Some (EmptyString, r)
      else if Nat.eqb (nat_of_ascii c) 92 then
        match r with
        | EmptyString => None
        | String e r' =>
            match unescape e, str r' with
            | Some c', Some (t, rest) => Some (String c' t, rest)
            | _, _ => None
            end
        end
      else if Nat.ltb (nat_of_ascii c) 32 then None
      else match str r with
           | Some (t, rest) => Some (String c t, rest)
           | None => None
           end
  end.

Fixpoint span_digits (s : string) : string * string :=
  match s with
  | EmptyString => (EmptyString, EmptyString)
  | String c r =>
      match Str.digit_of c with
      | Some _ => let '(d, rest) := span_digits r in (String c d, rest)
      | None => (EmptyString, s)
      end
  end.

(** An integer: no leading zero, no fraction, no exponent. *)
Definition unsigned (s : string) : option (Z * string) :=
  match span_digits s with
  | (EmptyString, _) => None
  | (String c d as ds, rest) =>
      if Nat.eqb (nat_of_ascii c) 48 && negb (String.eqb d "") then None
      else match rest with
           | String x _ =>
               let n := nat_of_ascii x in
               if Nat.eqb n 46 || Nat.eqb n 101 || Nat.eqb n 69 then None
               else Some (Str.digits 0 ds, rest)
           | EmptyString => Some (Str.digits 0 ds, rest)
           end
  end.

Definition keyword (k : string) (v : Value) (s : string)
  : option (Value * string) :=
  if String.prefix k s
  then Some (v, substring (String.length k) (String.length s - String.length k) s)
  else None.

Fixpoint value (fuel : nat) (s : string) : option (Value * string) :=
  match fuel with
  | O => None
  | S fuel' =>
      match skip s with
      | EmptyString => None
      | String c r as s' =>
          let n := nat_of_ascii c in
          if Nat.eqb n 123 then            (* { *)
            match skip r with
            | String c' r' as r1 =>
                if Nat.eqb (nat_of_ascii c') 125 then Some (VObj [], r')
                else match members fuel' r1 with
                     | Some (ps, rest) => Some (VObj ps, rest)
                     | None => None
                     end
            | EmptyString => None
            end
          else if Nat.eqb n 91 then        (* [ *)
            match skip r with
            | String c' r' as r1 =>
                if Nat.eqb (nat_of_ascii c') 93 then Some (VArr [], r')
                else match elements fuel' r1 with
                     | Some (vs, rest) => Some (VArr vs, rest)
                     | None => None
                     end
            | EmptyString => None
            end
          else if Nat.eqb n 34 then
            match str r with
            | Some (t, rest) => Some (VStr t, rest)
            | None => None
            end
          else if Nat.eqb n 45 then        (* - *)
            match unsigned r with
            | Some (z, rest) => Some (VNum (- z), rest)
            | None => None
            end
          else if Nat.eqb n 116 then keyword "true" (VBool true) s'
          else if Nat.eqb n 102 then keyword "false" (VBool false) s'
          else if Nat.eqb n 110 then keyword "null" VNull s'
          else match unsigned s' with
               | Some (z, rest) => Some (VNum z, rest)
               | None => None
               end
      end
  end

with elements (fuel : nat) (s : string) : option (list Value * string) :=
  match fuel with
  | O => None
  | S fuel' =>
      match value fuel' s with
      | Some (v, rest) =>
          match skip rest with
          | String c r =>
              if Nat.eqb (nat_of_ascii c) 44 then
                match elements fuel' r with
                | Some (vs, rest') => Some (v :: vs, rest')
                | None => None
                end
              else if Nat.eqb (nat_of_ascii c) 93 then Some ([v], r)
              else None
          | EmptyString => None
          end
      | None => None
      end
  end

with members (fuel : nat) (s : string)
  : option (list (string * Value) * string) :=
  match fuel with
  | O => None
  | S fuel' =>
      match skip s with
      | String q r =>
          if Nat.eqb (nat_of_ascii q) 34 then
            match str r with
            | Some (k, r1) =>
                match skip r1 with
                | String colon r2 =>
                    if Nat.eqb (nat_of_ascii colon) 58 then
                      match value fuel' r2 with
                      | Some (v, r3) =>
                          match skip r3 with
                          | String c r4 =>
                              if Nat.eqb (nat_of_ascii c) 44 then
                                match members fuel' r4 with
                                | Some (ps, rest) => Some ((k, v) :: ps, rest)
                                | None => None
                                end
                              else if Nat.eqb (nat_of_ascii c) 125
                                   then Some ([(k, v)], r4)
                              else None
                          | EmptyString => None
                          end
                      | None => None
                      end
                    else None
                | EmptyString => None
                end
            | None => None
            end
          else None
      | EmptyString => None
      end
  end.

Definition parse_json (s : string) : option Value :=
  match value (2 * String.length s + 2) s with
  | Some (v, rest) =>
      match skip rest with
      | EmptyString => Some v
      | _ => None
      end
  | None => None
  end.

(** JSON texts are written here with apostrophes for the quotes. *)
Fixpoint quoted (s : string) : string :=
  match s with
  | EmptyString => EmptyString
  | String c r =>
      String (if Nat.eqb (nat_of_ascii c) 39 then "034"%char else c) (quoted r)
  end.

(** [s >= n] for the decimal integers; any other string is NaN. *)
Definition decimal_ge (s : string) (n : Z) : bool :=
  match Str.trim s with
  | EmptyString => n <=? 0
  | t =>
      match Str.parseInt t with
      | Some m => String.eqb (Str.ofZ m) t && (n <=? m)
      | None => false
      end
  end.

End Json.

Definition demo_host : Host :=
  {| JSON_parse := Json.parse_json; string_ge := Json.decimal_ge |}.


(** ** The four parsers as one interface *)

Record Adapter : Type := {
  tag : string;
  parseLogs : list string -> string -> M Viz.t }.

Definition sysmon `{Host} : Adapter :=
  {| tag := "sysmon"; parseLogs := SysmonLogParser.parseLogs |}.
Definition elk `{Host} : Adapter :=
  {| tag := "elk"; parseLogs := ElkLogParser.parseLogs |}.
Definition defender `{Host} : Adapter :=
  {| tag := "defender"; parseLogs := DefenderLogParser.parseLogs |}.
Definition wazuh `{Host} : Adapter :=
  {| tag := "wazuh"; parseLogs := WazuhLogParser.parseLogs |}.

Definition adapters `{Host} : list Adapter := [sysmon; elk; defender; wazuh].

(** The clock of the concrete runs: the k-th reading is [t<k>]. *)
Definition demo_clock (k : nat) : string := "t" ++ Str.ofZ (Z.of_nat k).

Definition fresh : State := {| parsedData := PD.empty; clock := demo_clock |}.

(** ** Vocabulary of the properties *)

(** The entries of an attack chain: each body behind its step number. *)
Fixpoint number_from (n : nat) (bodies : list string) : list string :=
  match bodies with
  | [] => []
  | body :: rest =>
      (Str.ofZ (Z.of_nat n) ++ ". " ++ body) :: number_from (S n) rest
  end.

(** What one visit of the visualization pass adds: [visit] emits by the
    rule [C] when every visit that returns appends some indicators and some
    chain entries, numbered from the current step, that [C] relates to the
    visited record. *)
Definition emits {A} (visit : A -> Acc -> Result Acc)
  (C : A -> list Indicator -> list string -> Prop) : Prop :=
  forall x a a1,
    visit x a = Ok a1 ->
    exists tis bodies,
      C x tis bodies /\
      a_threatIndicators a1 = (a_threatIndicators a ++ tis)%list /\
      a_attackChain a1 = (a_attackChain a ++ number_from (a_step a) bodies)%list /\
      a_step a1 = (a_step a + length bodies)%nat.

(** A command-and-control indicator, and the body of a chain entry with the
    command-and-control label. *)
Definition is_c2_indicator (ti : Indicator) : bool :=
  match ti with
  | IndText s => String.prefix "Command and Control Connection: " s
  | IndThreat _ _ _ _ => false
  end.

Definition is_c2_body (body : string) : bool :=
  String.prefix "Command and Control (C2): " body.

Definition c2_text (ip port name : string) : string :=
  "Command and Control Connection: Outbound connection to C2 IP: "
  ++ ip ++ ":" ++ port ++ " (Process: " ++ name ++ ")".

Definition c2_body (ip port name : string) : string :=
  "Command and Control (C2): Suspicious network connection to "
  ++ ip ++ ":" ++ port ++ " from " ++ name.

(** The command-and-control rule for one connection: a destination that is
    not internal gives exactly one indicator, which quotes the destination,
    and one chain entry with the label; an internal one gives neither. *)
Definition c2_rule (conn : NetworkConnectionEvent)
  (tis : list Indicator) (bodies : list string) : Prop :=
  match isInternalIP (n_destinationIp conn) with
  | Ok false =>
      exists ip port name,
        JS.ToString (n_destinationIp conn) = Ok ip /\
        JS.ToString (n_destinationPort conn) = Ok port /\
        JS.ToString (JS.or (n_processName conn) (VStr "N/A")) = Ok name /\
        tis = [IndText (c2_text ip port name)] /\
        bodies = [c2_body ip port name]
  | Ok true =>
      Forall (fun ti => is_c2_indicator ti = false) tis /\
      Forall (fun body => is_c2_body body = false) bodies
  | Throw _ => False
  end.

(** No command-and-control finding. *)
Definition no_c2 (tis : list Indicator) (bodies : list string) : Prop :=
  Forall (fun ti => is_c2_indicator ti = false) tis /\
  Forall (fun body => is_c2_body body = false) bodies.

(** The chain is numbered 1, 2, 3, ... *)
Definition numbered_from_one (chain : list string) : Prop :=
  exists bodies, chain = number_from 1 bodies.

(** The projection of a threat into [threatIndicators]. *)
Definition projected (t : ThreatEvent) : Indicator :=
  IndThreat (t_threatName t) (t_description t) (t_processName t) (t_severity t).

(** What the Wazuh pass adds for one alert: its projection, and a chain
    entry of its own made of its name and its description. *)
Definition alert_rule (t : ThreatEvent) (tis : list Indicator)
  (bodies : list string) : Prop :=
  exists name description,
    JS.ToString (t_threatName t) = Ok name /\
    JS.ToString (t_description t) = Ok description /\
    tis = [projected t] /\
    bodies = [name ++ ": " ++ description].

(** The findings of a bundle, seen from the connections of [d]: one slot
    per connection, filled by the command-and-control rule, and then the
    findings of the other rules, none of which is a command-and-control
    one. *)
Definition c2_findings (d : PD.t) (b : Viz.t) : Prop :=
  exists (per : list (list Indicator * list string)) rest_tis rest_bodies,
    Forall2 (fun conn p => c2_rule conn (fst p) (snd p))
            (PD.networkConnections d) per /\
    Viz.threatIndicators (Viz.aptPatterns b)
      = (concat (map fst per) ++ rest_tis)%list /\
    Viz.attackChain (Viz.aptPatterns b)
      = number_from 1 (concat (map snd per) ++ rest_bodies)%list /\
    no_c2 rest_tis rest_bodies.

(** [d] without its threats, and [b] with more indicators at the end. *)
Definition without_threats (d : PD.t) : PD.t :=
  PD.mk (PD.processes d) (PD.networkConnections d) (PD.fileActivities d)
        (PD.dllActivities d) (PD.registryChanges d) (PD.userActivities d)
        [] (PD.dnsQueries d).

Definition add_indicators (b : Viz.t) (tis : list Indicator) : Viz.t :=
  {| Viz.aptPatterns :=
       {| Viz.threatIndicators :=
            Viz.threatIndicators (Viz.aptPatterns b) ++ tis;
          Viz.attackChain := Viz.attackChain (Viz.aptPatterns b) |};
     Viz.fileMap := Viz.fileMap b;
     Viz.networkMap := Viz.networkMap b |}.

(** The chain entry of an alert, without its number. *)
Definition alert_body (t : ThreatEvent) (body : string) : Prop :=
  exists name description,
    JS.ToString (t_threatName t) = Ok name /\
    JS.ToString (t_description t) = Ok description /\
    body = name ++ ": " ++ description.

(** ** Vocabulary of the parsing properties *)

(** [c] occurs in [t]. *)
Definition occurs (c : ascii) (t : string) : Prop :=
  exists pre post, t = pre ++ String c post.

(** [t] is what follows the last [sep] of [s] (all of [s] when it has
    none). *)
Definition segment_after (sep : ascii) (s t : string) : Prop :=
  ~ occurs sep t /\ (s = t \/ exists pre, s = pre ++ String sep t).

Definition is_sep (c : ascii) : Prop := c = "\"%char \/ c = "/"%char.

(** [t] is the final path segment of [s], for both separators. *)
Definition final_segment (s t : string) : Prop :=
  (forall c, is_sep c -> ~ occurs c t) /\
  (s = t \/ exists pre c, is_sep c /\ s = pre ++ String c t).

(** The three ways a record gets its [processName] from its [image]. *)
Definition path_name (image name : Value) : Prop :=
  if JS.truthy image
  then exists s t, image = VStr s /\ name = VStr t /\ final_segment s t
  else name = VStr "N/A".

Definition backslash_name (image name : Value) : Prop :=
  if JS.truthy image
  then exists s t, image = VStr s /\ name = VStr t /\ segment_after "\"%char s t
  else name = VStr "N/A".

Definition verbatim_name (image name : Value) : Prop :=
  name = JS.or image (VStr "N/A").

(** A predicate per category, and the data all of whose records satisfy
    them. *)
Record Shape : Type := {
  ok_process : ProcessEvent -> Prop;
  ok_network : NetworkConnectionEvent -> Prop;
  ok_file : FileActivityEvent -> Prop;
  ok_dns : DnsQueryEvent -> Prop;
  ok_threat : ThreatEvent -> Prop;
  ok_registry : RegistryChangeEvent -> Prop }.

Definition all_records (S : Shape) (d : PD.t) : Prop :=
  Forall (ok_process S) (PD.processes d) /\
  Forall (ok_network S) (PD.networkConnections d) /\
  Forall (ok_file S) (PD.fileActivities d) /\
  Forall (ok_dns S) (PD.dnsQueries d) /\
  Forall (ok_threat S) (PD.threats d) /\
  Forall (ok_registry S) (PD.registryChanges d) /\
  PD.dllActivities d = [] /\ PD.userActivities d = [].

Definition never {A} (_ : A) : Prop := False.

(** What the records of each parser look like. *)
Definition sysmon_shape : Shape :=
  {| ok_process := fun r => backslash_name (p_image r) (p_processName r);
     ok_network := fun r => backslash_name (n_image r) (n_processName r);
     ok_file := fun r => backslash_name (f_image r) (f_processName r);
     ok_dns := fun r => backslash_name (d_image r) (d_processName r);
     ok_threat := never;
     ok_registry := never |}.

Definition elk_shape : Shape :=
  {| ok_process := fun r =>
       JS.truthy (p_image r) = true /\ JS.truthy (p_processId r) = true /\
       path_name (p_image r) (p_processName r);
     ok_network := fun r =>
       JS.truthy (n_destinationIp r) = true /\
       path_name (n_image r) (n_processName r);
     ok_file := fun r =>
       JS.truthy (f_filePath r) = true /\
       path_name (f_image r) (f_processName r);
     ok_dns := fun r =>
       JS.truthy (d_queryName r) = true /\
       path_name (d_image r) (d_processName r);
     ok_threat := never;
     ok_registry := never |}.

Definition defender_shape : Shape :=
  {| ok_process := fun r => verbatim_name (p_image r) (p_processName r);
     ok_network := fun r => verbatim_name (n_image r) (n_processName r);
     ok_file := fun r => verbatim_name (f_image r) (f_processName r);
     ok_dns := fun r => verbatim_name (d_image r) (d_processName r);
     ok_threat := fun r => JS.truthy (t_processName r) = true;
     ok_registry := fun r => verbatim_name (r_image r) (r_processName r) |}.

Definition wazuh_shape : Shape :=
  {| ok_process := never;
     ok_network := never;
     ok_file := fun r =>
       JS.truthy (f_filePath r) = true /\ JS.truthy (f_action r) = true /\
       verbatim_name (f_image r) (f_processName r);
     ok_dns := never;
     ok_threat := fun r =>
       JS.truthy (t_rule r) = true /\ JS.truthy (t_threatName r) = true;
     ok_registry := never |}.

(** A computation keeps [I] and returns values in [R]: from a state whose
    data satisfy [I], the data of the state it ends in satisfy [I], whether
    it returns or throws, and what it returns satisfies [R]. *)
Definition keeps (I : PD.t -> Prop) {A} (m : M A) (R : A -> Prop) : Prop :=
  forall st, I (parsedData st) ->
    I (parsedData (snd (m st))) /\ (forall a, fst (m st) = Ok a -> R a).

(** A computation that leaves the data as they are. *)
Definition reads {A} (m : M A) : Prop :=
  forall st, parsedData (snd (m st)) = parsedData st.

Definition any {A} (_ : A) : Prop := True.

(** ** Vocabulary of the IP classifier *)

(** The addresses the classifier calls internal: the two loopback
    literals, and the strings of four dot-separated parts whose first two
    parts read, as [parseInt] reads them, 10, or 172 and a number from 16
    to 31, or 192 and 168. *)
Definition internal_address (s : string) : Prop :=
  s = "127.0.0.1" \/ s = "::1" \/
  exists a b c d,
    Str.split "." s = [a; b; c; d] /\
    (Str.parseInt a = Some 10 \/
     (Str.parseInt a = Some 172 /\
      exists n, Str.parseInt b = Some n /\ 16 <= n <= 31) \/
     (Str.parseInt a = Some 192 /\ Str.parseInt b = Some 168)).



(** ** What each claim says of the records *)

(** The [processName] of the records of each parser. *)
Definition sysmon_names : Shape := sysmon_shape.

Definition elk_names : Shape :=
  {| ok_process := fun r => path_name (p_image r) (p_processName r);
     ok_network := fun r => path_name (n_image r) (n_processName r);
     ok_file := fun r => path_name (f_image r) (f_processName r);
     ok_dns := fun r => path_name (d_image r) (d_processName r);
     ok_threat := never;
     ok_registry := never |}.

Definition defender_names : Shape :=
  {| ok_process := fun r => verbatim_name (p_image r) (p_processName r);
     ok_network := fun r => verbatim_name (n_image r) (n_processName r);
     ok_file := fun r => verbatim_name (f_image r) (f_processName r);
     ok_dns := fun r => verbatim_name (d_image r) (d_processName r);
     ok_threat := any;
     ok_registry := fun r => verbatim_name (r_image r) (r_processName r) |}.

Definition wazuh_names : Shape :=
  {| ok_process := never;
     ok_network := never;
     ok_file := fun r => verbatim_name (f_image r) (f_processName r);
     ok_dns := never;
     ok_threat := any;
     ok_registry := never |}.

(** The discriminants of the records of the ELK and Wazuh parsers. *)
Definition elk_discriminants : Shape :=
  {| ok_process := fun r =>
       JS.truthy (p_image r) = true /\ JS.truthy (p_processId r) = true;
     ok_network := fun r => JS.truthy (n_destinationIp r) = true;
     ok_file := fun r => JS.truthy (f_filePath r) = true;
     ok_dns := fun r => JS.truthy (d_queryName r) = true;
     ok_threat := never;
     ok_registry := never |}.

Definition wazuh_discriminants : Shape :=
  {| ok_process := never;
     ok_network := never;
     ok_file := fun r =>
       JS.truthy (f_filePath r) = true /\ JS.truthy (f_action r) = true;
     ok_dns := never;
     ok_threat := fun r =>
       JS.truthy (t_rule r) = true /\ JS.truthy (t_threatName r) = true;
     ok_registry := never |}.

(** The data a run of an adapter ends with. *)
Definition data_after (a : Adapter) (files : list string) (format : string)
  (st : State) : PD.t :=
  parsedData (snd (parseLogs a files format st)).

(** [m] returns, and all it does to the data is to append the network
    record [r]. *)
Definition appends_network (m : M unit) (st : State)
  (r : NetworkConnectionEvent) : Prop :=
  fst (m st) = Ok tt /\
  parsedData (snd (m st)) = with_network r (parsedData st).

(** ** Vocabulary of the pass-through lists *)

(** [{ ...conn, process: conn.processName || 'N/A' }] and the same for a
    file activity. *)
Definition connection_out (conn : NetworkConnectionEvent)
  : WithProcess NetworkConnectionEvent :=
  {| base := conn; process := JS.or (n_processName conn) (VStr "N/A") |}.

Definition file_out (file : FileActivityEvent) : WithProcess FileActivityEvent :=
  {| base := file; process := JS.or (f_processName file) (VStr "N/A") |}.

(** The three lists of [b] are the records of [d], in their order, each
    with its [process]. *)
Definition passes_through (d : PD.t) (b : Viz.t) : Prop :=
  Viz.connections (Viz.networkMap b) = map connection_out (PD.networkConnections d) /\
  Viz.fileActivities (Viz.fileMap b) = map file_out (PD.fileActivities d) /\
  Viz.dnsQueries (Viz.networkMap b) = dns_with_process (PD.dnsQueries d).

(** What a visit does to the two pass-through lists. *)
Definition copies {A} (visit : A -> Acc -> Result Acc)
  (conns : A -> list (WithProcess NetworkConnectionEvent))
  (files : A -> list (WithProcess FileActivityEvent)) : Prop :=
  forall x a a1,
    visit x a = Ok a1 ->
    a_connections a1 = (a_connections a ++ conns x)%list /\
    a_fileActivities a1 = (a_fileActivities a ++ files x)%list.

(** ** Vocabulary of the file loop *)

(** A content no parser can read: [JSON.parse] throws on it and, for the
    ELK adapter, on one of its lines as well. *)
Definition unreadable `{Host} (a : Adapter) (content : string) : Prop :=
  JSON_parse content = None /\
  (tag a = "elk" ->
   ElkLogParser.parseLines (Str.split "010"%char (Str.trim content)) = None).

(** The lines the ELK adapter falls back to. *)
Definition lines_of (content : string) : list string :=
  Str.split "010"%char (Str.trim content).

(** ** Vocabulary of the detection rules *)

(** [needle] occurs in [s] as a substring. *)
Definition contains (needle s : string) : Prop :=
  exists pre post, s = pre ++ needle ++ post.

(** A value that is truthy and not a string: a number other than 0, [true],
    an array, an object. *)
Definition truthy_non_string (v : Value) : Prop :=
  JS.truthy v = true /\ forall s, v <> VStr s.

(** ** Vocabulary of the growth of the data *)

(** [l'] is [l] with more elements at its end. *)
Definition prefix_of {A} (l l' : list A) : Prop :=
  exists more, l' = (l ++ more)%list.

(** [d'] has every record of [d], in the same category and at the same
    place, and possibly more records after them. *)
Definition extends (d d' : PD.t) : Prop :=
  prefix_of (PD.processes d) (PD.processes d') /\
  prefix_of (PD.networkConnections d) (PD.networkConnections d') /\
  prefix_of (PD.fileActivities d) (PD.fileActivities d') /\
  prefix_of (PD.dllActivities d) (PD.dllActivities d') /\
  prefix_of (PD.registryChanges d) (PD.registryChanges d') /\
  prefix_of (PD.userActivities d) (PD.userActivities d') /\
  prefix_of (PD.threats d) (PD.threats d') /\
  prefix_of (PD.dnsQueries d) (PD.dnsQueries d').

(** A computation that only appends to the data, whether it returns or
    throws. *)
Definition grows {A} (m : M A) : Prop :=
  forall st, extends (parsedData st) (parsedData (snd (m st))).

(** ** Vocabulary of what the bundle is made of *)

(** [d] and [d'] have the same connections, file activities and DNS
    queries. *)
Definition same_reported (d d' : PD.t) : Prop :=
  PD.networkConnections d = PD.networkConnections d' /\
  PD.fileActivities d = PD.fileActivities d' /\
  PD.dnsQueries d = PD.dnsQueries d'.

(** ** Vocabulary of the labels of the records *)

(** The file activities of the Sysmon parser: one of three actions, which
    is also the activity type. *)
Definition sysmon_file_label (r : FileActivityEvent) : Prop :=
  (f_action r = VStr "File Created" \/ f_action r = VStr "File Deleted" \/
   f_action r = VStr "File Stream Created") /\
  f_activityType r = f_action r.

(** Those of the ELK parser: some action, which is also the activity
    type. *)
Definition elk_file_label (r : FileActivityEvent) : Prop :=
  JS.truthy (f_action r) = true /\ f_activityType r = f_action r.

(** Those of the Defender parser: the event type as the activity type, and
    its wording in two words as the action. *)
Definition defender_file_label (r : FileActivityEvent) : Prop :=
  (f_action r = VStr "File Created" /\ f_activityType r = VStr "FileCreated") \/
  (f_action r = VStr "File Deleted" /\ f_activityType r = VStr "FileDeleted").

(** Those of the Wazuh parser: the action of the audit event, and the same
    after [wazuh-fim-] as the activity type. *)
Definition wazuh_file_label (r : FileActivityEvent) : Prop :=
  exists action,
    JS.ToString (f_action r) = Ok action /\
    f_activityType r = VStr ("wazuh-fim-" ++ action).

(** The threats of the Defender parser. *)
Definition defender_threat_label (t : ThreatEvent) : Prop :=
  t_type t = VStr "defender_detection" /\
  t_description t = t_threatName t /\
  t_rule t = VUndefined.

(** The four severities. *)
Definition severity_label (v : Value) : Prop :=
  v = VStr "low" \/ v = VStr "medium" \/ v = VStr "high" \/
  v = VStr "informational".

(** The threats of the Wazuh parser. *)
Definition wazuh_threat_label (t : ThreatEvent) : Prop :=
  t_type t = VStr "wazuh_alert" /\
  severity_label (t_severity t) /\
  JS.truthy (t_description t) = true /\
  JS.truthy (t_processName t) = true /\
  t_filePath t = VUndefined.

(** A record that names its user and its process, if only as N/A. *)
Definition named (user processName : Value) : Prop :=
  JS.truthy user = true /\ JS.truthy processName = true.

Definition sysmon_labels : Shape :=
  {| ok_process := any; ok_network := any; ok_file := sysmon_file_label;
     ok_dns := any; ok_threat := never; ok_registry := never |}.

Definition elk_labels : Shape :=
  {| ok_process := any; ok_network := any; ok_file := elk_file_label;
     ok_dns := any; ok_threat := never; ok_registry := never |}.

Definition defender_labels : Shape :=
  {| ok_process := fun r => named (p_user r) (p_processName r);
     ok_network := fun r => named (n_user r) (n_processName r);
     ok_file := fun r =>
       defender_file_label r /\ named (f_user r) (f_processName r);
     ok_dns := fun r => named (d_user r) (d_processName r);
     ok_threat := defender_threat_label;
     ok_registry := fun r => named (r_user r) (r_processName r) |}.

Definition wazuh_labels : Shape :=
  {| ok_process := never; ok_network := never; ok_file := wazuh_file_label;
     ok_dns := never; ok_threat := wazuh_threat_label;
     ok_registry := never |}.

(** ** Vocabulary of the order of the findings *)




(** ** Vocabulary of what one event adds *)

(** [d] with the records of [more] after its own, list by list. *)
Definition with_more (d more : PD.t) : PD.t :=
  PD.mk (PD.processes d ++ PD.processes more)
        (PD.networkConnections d ++ PD.networkConnections more)
        (PD.fileActivities d ++ PD.fileActivities more)
        (PD.dllActivities d ++ PD.dllActivities more)
        (PD.registryChanges d ++ PD.registryChanges more)
        (PD.userActivities d ++ PD.userActivities more)
        (PD.threats d ++ PD.threats more)
        (PD.dnsQueries d ++ PD.dnsQueries more).

(** The number of records. *)
Definition size (d : PD.t) : nat :=
  length (PD.processes d) + length (PD.networkConnections d)
  + length (PD.fileActivities d) + length (PD.dllActivities d)
  + length (PD.registryChanges d) + length (PD.userActivities d)
  + length (PD.threats d) + length (PD.dnsQueries d).

(** What a computation adds to the data, whether it returns or throws,
    satisfies [Q]. *)
Definition adds {A} (m : M A) (Q : PD.t -> Prop) : Prop :=
  forall st, exists more,
    parsedData (snd (m st)) = with_more (parsedData st) more /\ Q more.

Definition at_most (n : nat) (more : PD.t) : Prop := (size more <= n)%nat.

(** Records that all carry the timestamp [ts]. *)
Definition stamped (ts : Value) : Shape :=
  {| ok_process := fun r => p_timestamp r = ts;
     ok_network := fun r => n_timestamp r = ts;
     ok_file := fun r => f_timestamp r = ts;
     ok_dns := fun r => d_timestamp r = ts;
     ok_threat := fun r => t_timestamp r = ts;
     ok_registry := fun r => r_timestamp r = ts |}.

(** How many records of each category. *)
Record Budget : Type := {
  b_process : nat;
  b_network : nat;
  b_file : nat;
  b_dns : nat;
  b_threat : nat;
  b_registry : nat }.

Definition plus (b c : Budget) : Budget :=
  {| b_process := Nat.add (b_process b) (b_process c);
     b_network := Nat.add (b_network b) (b_network c);
     b_file := Nat.add (b_file b) (b_file c);
     b_dns := Nat.add (b_dns b) (b_dns c);
     b_threat := Nat.add (b_threat b) (b_threat c);
     b_registry := Nat.add (b_registry b) (b_registry c) |}.

Definition within (ts : Value) (b : Budget) (more : PD.t) : Prop :=
  all_records (stamped ts) more /\
  Nat.le (length (PD.processes more)) (b_process b) /\
  Nat.le (length (PD.networkConnections more)) (b_network b) /\
  Nat.le (length (PD.fileActivities more)) (b_file b) /\
  Nat.le (length (PD.dnsQueries more)) (b_dns b) /\
  Nat.le (length (PD.threats more)) (b_threat b) /\
  Nat.le (length (PD.registryChanges more)) (b_registry b).

(** The records of one event: within the budget, with one timestamp. *)
Definition one_event (b : Budget) (more : PD.t) : Prop :=
  exists ts, within ts b more.

(** An ELK log entry: a process, a connection, a file activity and a DNS
    query at most. A Wazuh alert: a threat and a file activity at most. *)
Definition elk_budget : Budget :=
  {| b_process := 1; b_network := 1; b_file := 1; b_dns := 1;
     b_threat := 0; b_registry := 0 |}.

Definition wazuh_budget : Budget :=
  {| b_process := 0; b_network := 0; b_file := 1; b_dns := 0;
     b_threat := 1; b_registry := 0 |}.

(** The budgets of the four checks of an ELK entry and of the threat of a
    Wazuh alert. *)
Definition only_process : Budget :=
  {| b_process := 1; b_network := 0; b_file := 0; b_dns := 0;
     b_threat := 0; b_registry := 0 |}.
Definition only_network : Budget :=
  {| b_process := 0; b_network := 1; b_file := 0; b_dns := 0;
     b_threat := 0; b_registry := 0 |}.
Definition only_file : Budget :=
  {| b_process := 0; b_network := 0; b_file := 1; b_dns := 0;
     b_threat := 0; b_registry := 0 |}.
Definition only_dns : Budget :=
  {| b_process := 0; b_network := 0; b_file := 0; b_dns := 1;
     b_threat := 0; b_registry := 0 |}.
Definition only_threat : Budget :=
  {| b_process := 0; b_network := 0; b_file := 0; b_dns := 0;
     b_threat := 1; b_registry := 0 |}.

(** ** Vocabulary of the events that are not filed *)

(** The event codes the Sysmon parser files, and the event types the
    Defender parser files. *)
Definition sysmon_codes : list Value :=
  [VNum 1; VNum 3; VNum 11; VNum 23; VNum 15; VNum 22].

Definition defender_types : list Value :=
  [VStr "ProcessCreated"; VStr "NetworkConnection"; VStr "FileCreated";
   VStr "FileDeleted"; VStr "DnsQuery"; VStr "Detection";
   VStr "RegistryValueSet"].

(** ** Vocabulary of the runs that do not read the clock *)

Definition at_time (d : PD.t) (c : nat -> string) : State :=
  {| parsedData := d; clock := c |}.

(** A computation that neither reads nor advances the clock: its outcome
    and the data it leaves are the same at any time. *)
Definition timeless {A} (m : M A) : Prop :=
  forall d c1 c2,
    fst (m (at_time d c1)) = fst (m (at_time d c2)) /\
    parsedData (snd (m (at_time d c1))) = parsedData (snd (m (at_time d c2))) /\
    clock (snd (m (at_time d c1))) = c1.

(** The event has a truthy field [k]. *)
Definition has (event : Value) (k : string) : Prop :=
  JS.truthy (JS.optget event k) = true.

(** The elements of the array a file holds, if it holds one. *)
Definition array_of `{Host} (content : string) : list Value :=
  match JSON_parse content with
  | Some (VArr events) => events
  | _ => []
  end.

(** The log entries the ELK parser finds in a file. *)
Definition entries_of `{Host} (content : string) : list Value :=
  match JSON_parse content with
  | Some (VArr events) => events
  | Some v => [v]
  | None =>
      match ElkLogParser.parseLines (lines_of content) with
      | Some events => events
      | None => []
      end
  end.

(** [log._source || log] *)
Definition source_of (log : Value) : Value :=
  JS.or (JS.optget log "_source") log.

(** The events of a file all carry the time field their parser reads. *)
Definition sysmon_timed `{Host} (content : string) : Prop :=
  Forall (fun event => has event "UtcTime") (array_of content).

Definition elk_timed `{Host} (content : string) : Prop :=
  Forall (fun log => has (source_of log) "@timestamp" \/
                     has (source_of log) "UtcTime")
         (entries_of content).

Definition defender_timed `{Host} (content : string) : Prop :=
  Forall (fun event => has event "TimeGenerated") (array_of content).

Definition wazuh_timed `{Host} (content : string) : Prop :=
  Forall (fun alert => has alert "timestamp") (array_of content).

(** * Properties *)

(** ** Concrete checks of the string and JSON helpers *)

Example split_example :
  Str.split "." "10.0.0.1" = ["10"; "0"; "0"; "1"].
Proof. reflexivity. Qed.

Example parseInt_example :
  Str.parseInt " 172abc" = Some 172 /\ Str.parseInt "x1" = None /\
  Str.parseInt "-12" = Some (-12) /\ Str.ofZ 445 = "445" /\ Str.ofZ (-3) = "-3"
  /\ Str.ofZ 0 = "0".
Proof. repeat split; reflexivity. Qed.

Example parse_json_example :
  Json.parse_json (Json.quoted "[{'EventID': 3, 'a': [true, null, -12, 'x\\y']}, {}]")
  = Some (VArr [VObj [("EventID", VNum 3);
                      ("a", VArr [VBool true; VNull; VNum (-12); VStr "x\y"])];
                VObj []])
  /\ Json.parse_json "[1,]" = None
  /\ Json.parse_json "01" = None
  /\ Json.parse_json "" = None.
Proof. repeat split; vm_compute; reflexivity. Qed.

(** ** Concrete runs of the four parsers *)

(** A Sysmon file deletion is reported as evidence tampering, after the
    command-and-control entry of the connection before it. *)
Example sysmon_file_deleted :
  exists b,
    fst (parseLogs (@sysmon demo_host)
           [Json.quoted "[{'EventID':3,'DestinationIp':'8.8.8.8','DestinationPort':53,'UtcTime':'u'},{'EventID':23,'TargetFilename':'C:\\Users\\a\\evidence.log','User':'a','UtcTime':'u'}]"]
           "sysmon" fresh) = Ok b /\
    Viz.threatIndicators (Viz.aptPatterns b)
    = [IndText "Command and Control Connection: Outbound connection to C2 IP: 8.8.8.8:53 (Process: N/A)";
       IndText "Evidence Tampering: File Deleted: C:\Users\a\evidence.log (Process: N/A) (User: a)"] /\
    Viz.attackChain (Viz.aptPatterns b)
    = ["1. Command and Control (C2): Suspicious network connection to 8.8.8.8:53 from N/A";
       "2. Evidence Tampering: File C:\Users\a\evidence.log deleted"].
Proof. eexists. repeat split; vm_compute; reflexivity. Qed.

(** A Defender detection is an indicator and no chain entry. *)
Example defender_detection :
  exists b,
    fst (parseLogs (@defender demo_host)
           [Json.quoted "[{'EventType':'Detection','ThreatName':'Trojan:Win32/X','Severity':'High','FileName':'x.exe'}]"]
           "defender" fresh) = Ok b /\
    Viz.threatIndicators (Viz.aptPatterns b)
    = [IndThreat (VStr "Trojan:Win32/X") (VStr "Trojan:Win32/X") (VStr "N/A")
         (VStr "High")] /\
    Viz.attackChain (Viz.aptPatterns b) = [].
Proof. eexists. repeat split; vm_compute; reflexivity. Qed.

(** A Wazuh alert is an indicator and a chain entry. *)
Example wazuh_alert :
  exists b,
    fst (parseLogs (@wazuh demo_host)
           [Json.quoted "[{'rule':{'id':'5712','description':'sshd brute force','level':10},'full_log':'10 failed logins'}]"]
           "wazuh" fresh) = Ok b /\
    Viz.threatIndicators (Viz.aptPatterns b)
    = [IndThreat (VStr "sshd brute force") (VStr "10 failed logins") (VStr "N/A")
         (VStr "medium")] /\
    Viz.attackChain (Viz.aptPatterns b)
    = ["1. sshd brute force: 10 failed logins"].
Proof. eexists. repeat split; vm_compute; reflexivity. Qed.

(** The ELK parser reads line-delimited JSON when the whole content is not
    one JSON text, and takes the event from [_source]. *)
Example elk_line_delimited :
  let line1 := Json.quoted "{'_source':{'destination':{'ip':'10.1.2.3'},'process':{'executable':'/usr/bin/curl'}}}" in
  let line2 := Json.quoted "{'QueryName':'example.org','Image':'C:\\Windows\\System32\\svchost.exe'}" in
  let d := data_after (@elk demo_host)
             [line1 ++ String "010"%char line2] "elk" fresh in
  map (fun r => (n_destinationIp r, n_processName r)) (PD.networkConnections d)
  = [(VStr "10.1.2.3", VStr "curl")] /\
  map (fun r => (d_queryName r, d_processName r)) (PD.dnsQueries d)
  = [(VStr "example.org", VStr "svchost.exe")].
Proof. split; vm_compute; reflexivity. Qed.

(** ** Reasoning about the parser monad *)

Lemma bind_Ok {A B} (m : M A) (f : A -> M B) st a st' :
  m st = (Ok a, st') -> bind m f st = f a st'.
Proof. intros E. unfold bind. rewrite E. reflexivity. Qed.

Lemma forEach_skip {A} (f : A -> M unit) (l : list A) :
  (forall a st, f a st = (Ok tt, st)) ->
  forall st, forEach f l st = (Ok tt, st).
Proof.
  intros Hf. induction l as [|a l IH]; intros st; simpl.
  - reflexivity.
  - rewrite (bind_Ok _ _ _ _ _ (Hf a st)). apply IH.
Qed.

Lemma reset_run st :
  reset st = (Ok tt, {| parsedData := PD.empty; clock := clock st |}).
Proof. reflexivity. Qed.

(** A run of [parseLogs] starts from the emptied [parsedData]: it sees the
    state it is called in through the clock only. *)
Lemma parseLogs_from_reset `{Host} (a : Adapter) :
  In a adapters ->
  forall files format st,
    parseLogs a files format st =
    parseLogs a files format {| parsedData := PD.empty; clock := clock st |}.
Proof.
  intros Hin files format st.
  simpl in Hin.
  destruct Hin as [<-|[<-|[<-|[<-|[]]]]]; reflexivity.
Qed.

(** ** Reasoning about the visualization pass *)

Lemma number_from_app n l1 l2 :
  number_from n (l1 ++ l2)%list =
  (number_from n l1 ++ number_from (n + length l1) l2)%list.
Proof.
  revert n. induction l1 as [|b l1 IH]; intros n; simpl.
  - now rewrite Nat.add_0_r.
  - rewrite IH. now rewrite Nat.add_succ_r.
Qed.

(** A pass over a list adds, record by record, what each visit adds. *)
Lemma visitAll_emits {A} (visit : A -> Acc -> Result Acc)
  (C : A -> list Indicator -> list string -> Prop) :
  emits visit C ->
  forall l a a',
    visitAll visit l a = Ok a' ->
    exists per : list (list Indicator * list string),
      Forall2 (fun x p => C x (fst p) (snd p)) l per /\
      a_threatIndicators a' = (a_threatIndicators a ++ concat (map fst per))%list /\
      a_attackChain a' =
        (a_attackChain a ++ number_from (a_step a) (concat (map snd per)))%list /\
      a_step a' = (a_step a + length (concat (map snd per)))%nat.
Proof.
  intros He. induction l as [|x l IH]; intros a a' E; simpl in E.
  - injection E as <-. exists []. simpl.
    rewrite !app_nil_r, Nat.add_0_r. auto.
  - destruct (visit x a) as [a1|e] eqn:E1; simpl in E; [|discriminate].
    destruct (He x a a1 E1) as (tis & bodies & Hc & T1 & C1 & S1).
    destruct (IH a1 a' E) as (per & HF & T2 & C2 & S2).
    exists ((tis, bodies) :: per). simpl. split; [|split; [|split]].
    + constructor; assumption.
    + rewrite T2, T1. now rewrite app_assoc.
    + rewrite C2, C1, S1, number_from_app. now rewrite app_assoc.
    + rewrite S2, S1. rewrite length_app. lia.
Qed.

(** Visits that add no finding. *)
Lemma emits_nothing {A} (visit : A -> Acc -> Result Acc)
  (C : A -> list Indicator -> list string -> Prop) :
  (forall x, C x [] []) ->
  (forall x a a1, visit x a = Ok a1 ->
     a_threatIndicators a1 = a_threatIndicators a /\
     a_attackChain a1 = a_attackChain a /\ a_step a1 = a_step a) ->
  emits visit C.
Proof.
  intros HC Hv x a a1 E. destruct (Hv x a a1 E) as (T & Ch & S1).
  exists [], []. simpl. rewrite !app_nil_r, Nat.add_0_r. auto.
Qed.

Lemma append_empty_r (s : string) : s ++ "" = s.
Proof. induction s; simpl; congruence. Qed.

Lemma append_assoc (s t u : string) : (s ++ t) ++ u = s ++ t ++ u.
Proof. induction s; simpl; congruence. Qed.

(** Inversion of the templates of the findings. *)
Lemma template_Step n s rest e :
  template (Step n :: Lit s :: rest) = Ok e ->
  exists r, template rest = Ok r /\ e = Str.ofZ (Z.of_nat n) ++ s ++ r.
Proof.
  simpl. destruct (template rest) as [r|]; simpl; [|discriminate].
  intros E. injection E as <-. eauto.
Qed.

Lemma c2_indicator_inv conn name ti :
  c2_indicator conn name = Ok ti ->
  exists ip port nm,
    JS.ToString (n_destinationIp conn) = Ok ip /\
    JS.ToString (n_destinationPort conn) = Ok port /\
    JS.ToString name = Ok nm /\ ti = c2_text ip port nm.
Proof.
  unfold c2_indicator. simpl.
  destruct (JS.ToString (n_destinationIp conn)) as [ip|]; simpl; [|discriminate].
  destruct (JS.ToString (n_destinationPort conn)) as [port|]; simpl; [|discriminate].
  destruct (JS.ToString name) as [nm|]; simpl; [|discriminate].
  intros E. injection E as <-. exists ip, port, nm.
  repeat (split; [reflexivity|]).
  unfold c2_text. simpl. reflexivity.
Qed.

Lemma c2_entry_inv step conn name e :
  c2_entry step conn name = Ok e ->
  exists ip port nm,
    JS.ToString (n_destinationIp conn) = Ok ip /\
    JS.ToString (n_destinationPort conn) = Ok port /\
    JS.ToString name = Ok nm /\
    e = Str.ofZ (Z.of_nat step) ++ ". " ++ c2_body ip port nm.
Proof.
  unfold c2_entry. intros E.
  apply template_Step in E. destruct E as (r & E & ->).
  simpl in E.
  destruct (JS.ToString (n_destinationIp conn)) as [ip|]; simpl in E; [|discriminate].
  destruct (JS.ToString (n_destinationPort conn)) as [port|]; simpl in E; [|discriminate].
  destruct (JS.ToString name) as [nm|]; simpl in E; [|discriminate].
  injection E as <-. exists ip, port, nm.
  repeat (split; [reflexivity|]).
  unfold c2_body. simpl. now rewrite append_empty_r.
Qed.

Lemma rbind_Ok {A B} (r : Result A) (f : A -> Result B) b :
  rbind r f = Ok b -> exists a, r = Ok a /\ f a = Ok b.
Proof. destruct r as [a|e]; simpl; [eauto | discriminate]. Qed.

Ltac rinv E :=
  let x := fresh "x" in
  let Ex := fresh "Ex" in
  apply rbind_Ok in E; destruct E as (x & Ex & E); cbv beta in E.

Lemma template_Lit s rest e :
  template (Lit s :: rest) = Ok e ->
  exists r, template rest = Ok r /\ e = s ++ r.
Proof.
  simpl. destruct (template rest) as [r|]; simpl; [|discriminate].
  intros E. injection E as <-. eauto.
Qed.

(** One finding pushed: an indicator, and a chain entry at the current
    step. *)
Lemma emitted_finding (C : list Indicator -> list string -> Prop) a ti body :
  C [ti] [body] ->
  exists tis bodies,
    C tis bodies /\
    a_threatIndicators
      (push_finding a ti (Str.ofZ (Z.of_nat (a_step a)) ++ ". " ++ body))
    = (a_threatIndicators a ++ tis)%list /\
    a_attackChain
      (push_finding a ti (Str.ofZ (Z.of_nat (a_step a)) ++ ". " ++ body))
    = (a_attackChain a ++ number_from (a_step a) bodies)%list /\
    a_step (push_finding a ti (Str.ofZ (Z.of_nat (a_step a)) ++ ". " ++ body))
    = (a_step a + length bodies)%nat.
Proof.
  intros HC. exists [ti], [body]. simpl. repeat split; auto. lia.
Qed.

Lemma emitted_nothing (C : list Indicator -> list string -> Prop) a :
  C [] [] ->
  exists tis bodies,
    C tis bodies /\
    a_threatIndicators a = (a_threatIndicators a ++ tis)%list /\
    a_attackChain a = (a_attackChain a ++ number_from (a_step a) bodies)%list /\
    a_step a = (a_step a + length bodies)%nat.
Proof.
  intros HC. exists [], []. simpl. rewrite !app_nil_r, Nat.add_0_r. auto.
Qed.

(** The command-and-control branch, shared by three classes. *)
Lemma c2_branch conn a a' :
  isInternalIP (n_destinationIp conn) = Ok false ->
  (ti <-- c2_indicator conn (JS.or (n_processName conn) (VStr "N/A")) ;;
   entry <-- c2_entry (a_step a) conn (JS.or (n_processName conn) (VStr "N/A")) ;;
   Ok (push_finding a (IndText ti) entry))%result = Ok a' ->
  exists tis bodies,
    c2_rule conn tis bodies /\
    a_threatIndicators a' = (a_threatIndicators a ++ tis)%list /\
    a_attackChain a' = (a_attackChain a ++ number_from (a_step a) bodies)%list /\
    a_step a' = (a_step a + length bodies)%nat.
Proof.
  intros Ei E. rinv E. rinv E. injection E as <-.
  apply c2_indicator_inv in Ex. destruct Ex as (ip & port & nm & I1 & I2 & I3 & ->).
  apply c2_entry_inv in Ex0. destruct Ex0 as (ip' & port' & nm' & J1 & J2 & J3 & ->).
  assert (ip' = ip) by congruence. assert (port' = port) by congruence.
  assert (nm' = nm) by congruence. subst.
  apply (emitted_finding (c2_rule conn)).
  unfold c2_rule. rewrite Ei. exists ip, port, nm. auto.
Qed.

Lemma not_c2_nil : no_c2 [] [].
Proof. split; constructor. Qed.

Lemma c2_rule_internal conn tis bodies :
  isInternalIP (n_destinationIp conn) = Ok true ->
  no_c2 tis bodies -> c2_rule conn tis bodies.
Proof. intros Ei Hn. unfold c2_rule. now rewrite Ei. Qed.

Lemma push_connection_same a c :
  a_threatIndicators (push_connection a c) = a_threatIndicators a /\
  a_attackChain (push_connection a c) = a_attackChain a /\
  a_step (push_connection a c) = a_step a.
Proof. auto. Qed.

Lemma push_file_same a f :
  a_threatIndicators (push_file a f) = a_threatIndicators a /\
  a_attackChain (push_file a f) = a_attackChain a /\
  a_step (push_file a f) = a_step a.
Proof. auto. Qed.

Lemma sysmon_visitConnection_emits :
  emits SysmonLogParser.visitConnection c2_rule.
Proof.
  intros conn a a1 E. unfold SysmonLogParser.visitConnection in E.
  rinv E. rinv E. injection E as <-.
  destruct (push_connection_same x0 {| base := conn; process := JS.or (n_processName conn) (VStr "N/A") |})
    as (-> & -> & ->).
  destruct x; cbn [negb] in Ex0.
  - rinv Ex0. rewrite Ex in Ex1. injection Ex1 as <-. cbn [andb] in Ex0.
    destruct (JS.eq_num (n_destinationPort conn) 445).
    + rinv Ex0. rinv Ex0. injection Ex0 as <-.
      apply template_Lit in Ex1. destruct Ex1 as (r1 & _ & ->).
      apply template_Step in Ex2. destruct Ex2 as (r2 & _ & ->).
      apply (emitted_finding (c2_rule conn) a _
               ("Lateral Movement: Internal SMB connection from " ++ r2)).
      apply c2_rule_internal; [exact Ex|].
      split; repeat constructor.
    + injection Ex0 as <-. apply emitted_nothing.
      apply c2_rule_internal; [exact Ex | apply not_c2_nil].
  - now apply c2_branch.
Qed.

Lemma no_c2_app t1 b1 t2 b2 :
  no_c2 t1 b1 -> no_c2 t2 b2 -> no_c2 (t1 ++ t2) (b1 ++ b2).
Proof.
  intros [A1 B1] [A2 B2]. split; apply Forall_app; auto.
Qed.

Lemma no_c2_concat {A} (l : list A) (per : list (list Indicator * list string)) :
  Forall2 (fun _ p => no_c2 (fst p) (snd p)) l per ->
  no_c2 (concat (map fst per)) (concat (map snd per)).
Proof.
  induction 1; simpl.
  - apply not_c2_nil.
  - now apply no_c2_app.
Qed.

Lemma sysmon_visitFile_emits :
  emits SysmonLogParser.visitFile (fun _ => no_c2).
Proof.
  intros file a a1 E. unfold SysmonLogParser.visitFile in E.
  rinv E. rinv E. injection E as <-.
  destruct (push_file_same x0 {| base := file; process := JS.or (f_processName file) (VStr "N/A") |})
    as (-> & -> & ->).
  destruct x.
  - rinv Ex0. rinv Ex0. injection Ex0 as <-.
    apply template_Lit in Ex1. destruct Ex1 as (r1 & _ & ->).
    apply template_Step in Ex2. destruct Ex2 as (r2 & _ & ->).
    apply (emitted_finding no_c2 a _
             ("Exfiltration: Data staged for exfiltration via " ++ r2)).
    split; repeat constructor.
  - destruct (JS.eq_str (f_action file) "File Deleted").
    + rinv Ex0. rinv Ex0. injection Ex0 as <-.
      apply template_Lit in Ex1. destruct Ex1 as (r1 & _ & ->).
      apply template_Step in Ex2. destruct Ex2 as (r2 & _ & ->).
      apply (emitted_finding no_c2 a _ ("Evidence Tampering: File " ++ r2)).
      split; repeat constructor.
    + injection Ex0 as <-. apply emitted_nothing, not_c2_nil.
Qed.

Lemma elk_visitConnection_emits :
  emits ElkLogParser.visitConnection c2_rule.
Proof.
  intros conn a a1 E. unfold ElkLogParser.visitConnection in E.
  rinv E. rinv E. injection E as <-.
  destruct (push_connection_same x0 {| base := conn; process := JS.or (n_processName conn) (VStr "N/A") |})
    as (-> & -> & ->).
  destruct x; cbn [negb] in Ex0.
  - injection Ex0 as <-. apply emitted_nothing.
    apply c2_rule_internal; [exact Ex | apply not_c2_nil].
  - now apply c2_branch.
Qed.

Lemma elk_visitFile_emits :
  emits ElkLogParser.visitFile (fun _ => no_c2).
Proof.
  apply emits_nothing; [intros; apply not_c2_nil|].
  intros file a a1 E. injection E as <-. auto.
Qed.

Lemma defender_visitConnection_emits :
  emits DefenderLogParser.visitConnection c2_rule.
Proof.
  intros conn a a1 E. unfold DefenderLogParser.visitConnection in E.
  rinv E. rinv E. injection E as <-.
  destruct (push_connection_same x0 {| base := conn; process := JS.or (n_processName conn) (VStr "N/A") |})
    as (-> & -> & ->).
  destruct x; cbn [negb] in Ex0.
  - injection Ex0 as <-. apply emitted_nothing.
    apply c2_rule_internal; [exact Ex | apply not_c2_nil].
  - now apply c2_branch.
Qed.

Lemma defender_visitFile_emits :
  emits DefenderLogParser.visitFile (fun _ => no_c2).
Proof.
  intros file a a1 E. unfold DefenderLogParser.visitFile in E.
  rinv E. rinv E. injection E as <-.
  destruct (push_file_same x0 {| base := file; process := JS.or (f_processName file) (VStr "N/A") |})
    as (-> & -> & ->).
  destruct x.
  - rinv Ex0. rinv Ex0. injection Ex0 as <-.
    apply template_Lit in Ex1. destruct Ex1 as (r1 & _ & ->).
    apply template_Step in Ex2. destruct Ex2 as (r2 & _ & ->).
    apply (emitted_finding no_c2 a _ ("Exfiltration: Data staged in " ++ r2)).
    split; repeat constructor.
  - injection Ex0 as <-. apply emitted_nothing, not_c2_nil.
Qed.

Lemma wazuh_visitThreat_emits :
  emits WazuhLogParser.visitThreat alert_rule.
Proof.
  intros t a a1 E. unfold WazuhLogParser.visitThreat in E.
  rinv E. injection E as <-.
  apply template_Step in Ex. destruct Ex as (r & E & ->).
  simpl in E.
  destruct (JS.ToString (t_threatName t)) as [name|] eqn:E1; simpl in E; [|discriminate].
  destruct (JS.ToString (t_description t)) as [description|] eqn:E2; simpl in E; [|discriminate].
  injection E as <-. rewrite append_empty_r.
  apply (emitted_finding (alert_rule t) a _ (name ++ ": " ++ description)).
  - exists name, description. auto.
Qed.

Lemma wazuh_visitFile_emits {C : FileActivityEvent -> _} :
  (forall x, C x [] []) -> emits WazuhLogParser.visitFile C.
Proof.
  intros HC. apply emits_nothing; [exact HC|].
  intros file a a1 E. injection E as <-. auto.
Qed.

Lemma wazuh_visitConnection_emits {C : NetworkConnectionEvent -> _} :
  (forall x, C x [] []) -> emits WazuhLogParser.visitConnection C.
Proof.
  intros HC. apply emits_nothing; [exact HC|].
  intros conn a a1 E. injection E as <-. auto.
Qed.

(** Two passes in a row, the second without a command-and-control finding. *)
Lemma two_passes {A B} (v1 : A -> Acc -> Result Acc) (v2 : B -> Acc -> Result Acc)
  C1 l1 l2 a2 :
  emits v1 C1 -> emits v2 (fun _ => no_c2) ->
  (a1 <-- visitAll v1 l1 Acc_init ;; visitAll v2 l2 a1)%result = Ok a2 ->
  exists (per : list (list Indicator * list string)) rest_tis rest_bodies,
    Forall2 (fun x p => C1 x (fst p) (snd p)) l1 per /\
    a_threatIndicators a2 = (concat (map fst per) ++ rest_tis)%list /\
    a_attackChain a2 =
      number_from 1 (concat (map snd per) ++ rest_bodies)%list /\
    no_c2 rest_tis rest_bodies.
Proof.
  intros H1 H2 E. rinv E.
  destruct (visitAll_emits v1 C1 H1 _ _ _ Ex) as (per & HF & T1 & Ch1 & S1).
  destruct (visitAll_emits v2 _ H2 _ _ _ E) as (per2 & HF2 & T2 & Ch2 & S2).
  exists per, (concat (map fst per2)), (concat (map snd per2)).
  split; [exact HF|]. split; [|split].
  - rewrite T2, T1. reflexivity.
  - rewrite Ch2, Ch1, S1, number_from_app. reflexivity.
  - eapply no_c2_concat; eassumption.
Qed.

Lemma sysmon_c2_findings `{Host} d b :
  SysmonLogParser.generateVisualizationData d = Ok b -> c2_findings d b.
Proof.
  unfold SysmonLogParser.generateVisualizationData. intros E.
  destruct (visitAll SysmonLogParser.visitConnection (PD.networkConnections d) Acc_init)
    as [a1|] eqn:E1; [|discriminate].
  simpl in E.
  destruct (visitAll SysmonLogParser.visitFile (PD.fileActivities d) a1)
    as [a2|] eqn:E2; [|discriminate].
  simpl in E. injection E as <-.
  apply (two_passes _ _ c2_rule (PD.networkConnections d) (PD.fileActivities d) a2
           sysmon_visitConnection_emits sysmon_visitFile_emits).
  rewrite E1. exact E2.
Qed.

Lemma elk_c2_findings `{Host} d b :
  ElkLogParser.generateVisualizationData d = Ok b -> c2_findings d b.
Proof.
  unfold ElkLogParser.generateVisualizationData. intros E.
  destruct (visitAll ElkLogParser.visitConnection (PD.networkConnections d) Acc_init)
    as [a1|] eqn:E1; [|discriminate].
  simpl in E.
  destruct (visitAll ElkLogParser.visitFile (PD.fileActivities d) a1)
    as [a2|] eqn:E2; [|discriminate].
  simpl in E. injection E as <-.
  apply (two_passes _ _ c2_rule (PD.networkConnections d) (PD.fileActivities d) a2
           elk_visitConnection_emits elk_visitFile_emits).
  rewrite E1. exact E2.
Qed.

Lemma fold_push_indicator tis a :
  fold_left push_indicator tis a =
  {| a_threatIndicators := a_threatIndicators a ++ tis;
     a_attackChain := a_attackChain a;
     a_fileActivities := a_fileActivities a;
     a_connections := a_connections a;
     a_step := a_step a |}.
Proof.
  revert a. induction tis as [|ti tis IH]; intros a; simpl.
  - rewrite app_nil_r. now destruct a.
  - rewrite IH. simpl. now rewrite <- app_assoc.
Qed.

Lemma no_c2_threats (ts : list ThreatEvent) :
  Forall (fun ti => is_c2_indicator ti = false) (map projected ts).
Proof. induction ts; simpl; constructor; auto. Qed.

Lemma defender_c2_findings `{Host} d b :
  DefenderLogParser.generateVisualizationData d = Ok b -> c2_findings d b.
Proof.
  unfold DefenderLogParser.generateVisualizationData. intros E.
  destruct (visitAll DefenderLogParser.visitConnection (PD.networkConnections d) Acc_init)
    as [a1|] eqn:E1; [|discriminate].
  simpl in E.
  destruct (visitAll DefenderLogParser.visitFile (PD.fileActivities d) a1)
    as [a2|] eqn:E2; [|discriminate].
  simpl in E. injection E as <-.
  destruct (two_passes _ _ c2_rule (PD.networkConnections d) (PD.fileActivities d) a2
              defender_visitConnection_emits defender_visitFile_emits)
    as (per & rt & rb & HF & T & Ch & [N1 N2]).
  { rewrite E1. exact E2. }
  exists per, (rt ++ map projected (PD.threats d))%list, rb.
  rewrite fold_push_indicator. simpl.
  split; [exact HF|]. split; [|split].
  - rewrite T. now rewrite app_assoc.
  - exact Ch.
  - split; [|exact N2]. apply Forall_app. split; [exact N1|apply no_c2_threats].
Qed.

(** The Defender pass with threats is the pass without them, then the
    projected threats at the end of the indicators. *)
Lemma defender_threats_appended `{Host} d :
  DefenderLogParser.generateVisualizationData d =
  (b0 <-- DefenderLogParser.generateVisualizationData (without_threats d) ;;
   Ok (add_indicators b0 (map projected (PD.threats d))))%result.
Proof.
  unfold DefenderLogParser.generateVisualizationData. simpl.
  destruct (visitAll DefenderLogParser.visitConnection (PD.networkConnections d) Acc_init)
    as [a1|]; [|reflexivity].
  simpl.
  destruct (visitAll DefenderLogParser.visitFile (PD.fileActivities d) a1)
    as [a2|]; [|reflexivity].
  simpl. rewrite fold_push_indicator. unfold add_indicators, bundle. simpl.
  reflexivity.
Qed.

Lemma alert_slots (ts : list ThreatEvent) per :
  Forall2 (fun t p => alert_rule t (fst p) (snd p)) ts per ->
  concat (map fst per) = map projected ts /\
  Forall2 alert_body ts (concat (map snd per)).
Proof.
  induction 1 as [|t p ts per (name & desc & E1 & E2 & Et & Eb) _ [IH1 IH2]]; simpl.
  - split; [reflexivity | constructor].
  - rewrite Et, Eb, IH1. simpl. split; [reflexivity|].
    constructor; [|exact IH2]. exists name, desc. auto.
Qed.

Lemma wazuh_findings `{Host} d b :
  WazuhLogParser.generateVisualizationData d = Ok b ->
  Viz.threatIndicators (Viz.aptPatterns b) = map projected (PD.threats d) /\
  exists bodies,
    Forall2 alert_body (PD.threats d) bodies /\
    Viz.attackChain (Viz.aptPatterns b) = number_from 1 bodies.
Proof.
  unfold WazuhLogParser.generateVisualizationData. intros E.
  rinv E. rinv E. rinv E. injection E as <-.
  destruct (visitAll_emits _ _ wazuh_visitThreat_emits _ _ _ Ex)
    as (per & HF & T1 & Ch1 & S1).
  destruct (visitAll_emits _ (fun _ t b => t = [] /\ b = [])
              (wazuh_visitFile_emits (fun _ => conj eq_refl eq_refl)) _ _ _ Ex0)
    as (per2 & HF2 & T2 & Ch2 & S2).
  destruct (visitAll_emits _ (fun _ t b => t = [] /\ b = [])
              (wazuh_visitConnection_emits (fun _ => conj eq_refl eq_refl)) _ _ _ Ex1)
    as (per3 & HF3 & T3 & Ch3 & S3).
  assert (N2 : concat (map fst per2) = [] /\ concat (map snd per2) = []).
  { clear -HF2. induction HF2 as [|? ? ? ? [F1 F2] _ [IH1 IH2]]; simpl;
    [auto | rewrite F1, F2, IH1, IH2; auto]. }
  assert (N3 : concat (map fst per3) = [] /\ concat (map snd per3) = []).
  { clear -HF3. induction HF3 as [|? ? ? ? [F1 F2] _ [IH1 IH2]]; simpl;
    [auto | rewrite F1, F2, IH1, IH2; auto]. }
  destruct N2 as [N2a N2b]. destruct N3 as [N3a N3b].
  rewrite N3a, N3b in *. rewrite N2a, N2b in *. simpl in *.
  rewrite !app_nil_r in *.
  destruct (alert_slots _ _ HF) as [P1 P2].
  simpl. rewrite T3, T2, T1, Ch3, Ch2, Ch1. simpl.
  split; [exact P1|]. eexists. split; [exact P2 | reflexivity].
Qed.

(** ** Reasoning about the parsers *)

Lemma keeps_ret (I : PD.t -> Prop) {A} (a : A) (R : A -> Prop) :
  R a -> keeps I (ret a) R.
Proof.
  intros HR st HI. split; [exact HI|]. simpl. intros a' E. now injection E as <-.
Qed.

Lemma keeps_bind (I : PD.t -> Prop) {A B} (m : M A) (f : A -> M B) R1 R2 :
  keeps I m R1 -> (forall a, R1 a -> keeps I (f a) R2) ->
  keeps I (bind m f) R2.
Proof.
  intros Hm Hf st HI. destruct (Hm st HI) as [HI1 HR1].
  unfold bind. destruct (m st) as [[a|e] st1]; simpl in *.
  - apply Hf; auto.
  - split; [exact HI1 | discriminate].
Qed.

Lemma keeps_reads (I : PD.t -> Prop) {A} (m : M A) (R : A -> Prop) :
  reads m -> (forall st a, fst (m st) = Ok a -> R a) -> keeps I m R.
Proof.
  intros Hp HR st HI. rewrite Hp. split; [exact HI | apply HR].
Qed.

Lemma keeps_modify (I : PD.t -> Prop) (f : PD.t -> PD.t) :
  (forall d, I d -> I (f d)) -> keeps I (modify f) any.
Proof.
  intros Hf st HI. split; [apply Hf, HI | intros; exact Logic.I].
Qed.

Lemma keeps_try (I : PD.t -> Prop) (m : M unit) R :
  keeps I m R -> keeps I (try_catch m) any.
Proof.
  intros Hm st HI. destruct (Hm st HI) as [HI1 _].
  split; [exact HI1 | intros; exact Logic.I].
Qed.

Lemma keeps_forEach (I : PD.t -> Prop) {A} (f : A -> M unit) (l : list A) :
  (forall a, keeps I (f a) any) -> keeps I (forEach f l) any.
Proof.
  intros Hf. induction l as [|a l IH]; simpl.
  - now apply keeps_ret.
  - eapply keeps_bind; [apply Hf | intros; apply IH].
Qed.

Lemma reads_ret {A} (a : A) : reads (ret a).
Proof. intros st. reflexivity. Qed.

Lemma reads_lift {A} (r : Result A) : reads (lift r).
Proof. intros st. reflexivity. Qed.

Lemma reads_field e k : reads (field e k).
Proof. intros st. reflexivity. Qed.

Lemma reads_now : reads now.
Proof. intros st. reflexivity. Qed.

Lemma reads_bind {A B} (m : M A) (f : A -> M B) :
  reads m -> (forall a, reads (f a)) -> reads (bind m f).
Proof.
  intros Hm Hf st. unfold bind. specialize (Hm st).
  destruct (m st) as [[a|e] st1]; simpl in *.
  - now rewrite Hf.
  - exact Hm.
Qed.

Lemma reads_orM v rest : reads rest -> reads (orM v rest).
Proof. intros Hr. unfold orM. destruct (JS.truthy v); [apply reads_ret | exact Hr]. Qed.

Ltac reads_tac :=
  repeat first
    [ apply reads_ret | apply reads_lift | apply reads_field | apply reads_now
    | apply reads_orM
    | apply reads_bind; [|intros]
    | match goal with
      | |- reads (if ?b then _ else _) => destruct b
      | |- reads (orNow _) => unfold orNow
      end ].

(** The result of a read, as a fact about the value read. *)
Lemma field_result e k st v : fst (field e k st) = Ok v -> JS.get e k = Ok v.
Proof. auto. Qed.

Lemma keeps_field (I : PD.t -> Prop) e k :
  keeps I (field e k) (fun v => JS.get e k = Ok v).
Proof. apply keeps_reads; [apply reads_field | apply field_result]. Qed.

Lemma keeps_any (I : PD.t -> Prop) {A} (m : M A) :
  reads m -> keeps I m any.
Proof. intros Hm. apply keeps_reads; [exact Hm | intros; exact Logic.I]. Qed.

Lemma get_optget v k x : JS.get v k = Ok x -> x = JS.optget v k.
Proof. destruct v; simpl; intros E; try discriminate; now injection E. Qed.

(** Pushing a record that fits the shape. *)
Section Pushes.
Variable S : Shape.

Lemma all_records_empty : all_records S PD.empty.
Proof. repeat split; constructor. Qed.

Lemma keeps_push_process r :
  ok_process S r -> keeps (all_records S) (push_process r) any.
Proof.
  intros Hr. apply keeps_modify. intros d (H1 & H2 & H3 & H4 & H5 & H6 & H7 & H8).
  repeat split; simpl; auto. apply Forall_app; auto.
Qed.

Lemma keeps_push_network r :
  ok_network S r -> keeps (all_records S) (push_network r) any.
Proof.
  intros Hr. apply keeps_modify. intros d (H1 & H2 & H3 & H4 & H5 & H6 & H7 & H8).
  repeat split; simpl; auto. apply Forall_app; auto.
Qed.

Lemma keeps_push_fileActivity r :
  ok_file S r -> keeps (all_records S) (push_fileActivity r) any.
Proof.
  intros Hr. apply keeps_modify. intros d (H1 & H2 & H3 & H4 & H5 & H6 & H7 & H8).
  repeat split; simpl; auto. apply Forall_app; auto.
Qed.

Lemma keeps_push_dns r :
  ok_dns S r -> keeps (all_records S) (push_dns r) any.
Proof.
  intros Hr. apply keeps_modify. intros d (H1 & H2 & H3 & H4 & H5 & H6 & H7 & H8).
  repeat split; simpl; auto. apply Forall_app; auto.
Qed.

Lemma keeps_push_threat r :
  ok_threat S r -> keeps (all_records S) (push_threat r) any.
Proof.
  intros Hr. apply keeps_modify. intros d (H1 & H2 & H3 & H4 & H5 & H6 & H7 & H8).
  repeat split; simpl; auto. apply Forall_app; auto.
Qed.

Lemma keeps_push_registry r :
  ok_registry S r -> keeps (all_records S) (push_registry r) any.
Proof.
  intros Hr. apply keeps_modify. intros d (H1 & H2 & H3 & H4 & H5 & H6 & H7 & H8).
  repeat split; simpl; auto. apply Forall_app; auto.
Qed.
End Pushes.

(** ** Path segments *)

Lemma split_not_nil sep s : Str.split sep s <> [].
Proof.
  destruct s as [|c r]; simpl; [discriminate|].
  destruct (Ascii.eqb c sep); [discriminate|].
  destruct (Str.split sep r); discriminate.
Qed.

Lemma occurs_empty c : ~ occurs c "".
Proof. intros (pre & post & E). destruct pre; discriminate. Qed.

Lemma occurs_cons c x t : occurs c (String x t) -> c = x \/ occurs c t.
Proof.
  intros (pre & post & E). destruct pre as [|y pre]; simpl in E.
  - injection E as -> ->. now left.
  - injection E as -> ->. right. now exists pre, post.
Qed.

Lemma occurs_suffix c pre x t : occurs c t -> occurs c (pre ++ String x t).
Proof.
  intros (p & q & ->). exists (pre ++ String x p), q.
  now rewrite append_assoc.
Qed.

Lemma split_cons sep s h tl :
  Str.split sep s = h :: tl ->
  ~ occurs sep h /\
  match tl with
  | [] => s = h
  | _ => exists r, s = h ++ String sep r /\ Str.split sep r = tl
  end.
Proof.
  revert h tl. induction s as [|c r IH]; intros h tl E; simpl in E.
  - injection E as <- <-. split; [apply occurs_empty | reflexivity].
  - destruct (Ascii.eqb c sep) eqn:Ec.
    + apply Ascii.eqb_eq in Ec. subst c. injection E as <- <-.
      split; [apply occurs_empty|].
      destruct (Str.split sep r) eqn:Er; [now apply split_not_nil in Er|].
      exists r. split; [reflexivity | exact Er].
    + apply Ascii.eqb_neq in Ec.
      destruct (Str.split sep r) as [|h' tl'] eqn:Er; [now apply split_not_nil in Er|].
      injection E as <- <-. destruct (IH h' tl' eq_refl) as [Hn Ht].
      split.
      * intros Ho. apply occurs_cons in Ho. destruct Ho as [->|Ho]; [now apply Ec | now apply Hn].
      * destruct tl'; [now rewrite Ht|].
        destruct Ht as (r0 & -> & Hs). exists r0. split; [reflexivity | exact Hs].
Qed.

Lemma split_last sep s : segment_after sep s (last (Str.split sep s) "").
Proof.
  remember (Str.split sep s) as l eqn:El. symmetry in El.
  revert s El. induction l as [|h tl IH]; intros s El.
  - now apply split_not_nil in El.
  - destruct (split_cons _ _ _ _ El) as [Hn Ht]. destruct tl as [|x tl].
    + simpl. subst s. split; [exact Hn | now left].
    + destruct Ht as (r & -> & Er).
      change (last (h :: x :: tl) "") with (last (x :: tl) "").
      destruct (IH r Er) as [Hno [Hr|(pre & Hr)]].
      * split; [exact Hno|]. right. exists h. now rewrite Hr at 1.
      * split; [exact Hno|]. right. exists (h ++ String sep pre).
        rewrite Hr at 1. now rewrite append_assoc.
Qed.

Lemma final_segment_of_two s t1 t2 :
  segment_after "\"%char s t1 -> segment_after "/"%char t1 t2 ->
  final_segment s t2.
Proof.
  intros [N1 S1] [N2 S2]. split.
  - intros c [->| ->]; [|exact N2].
    intros Ho. apply N1. destruct S2 as [->|(pre & ->)]; [exact Ho|].
    now apply occurs_suffix.
  - destruct S1 as [->|(pre1 & ->)]; destruct S2 as [->|(pre & ->)].
    + now left.
    + right. exists pre, "/"%char. split; [now right | reflexivity].
    + right. exists pre1, "\"%char. split; [now left | reflexivity].
    + right. exists (pre1 ++ String "\"%char pre), "/"%char.
      split; [now right | now rewrite append_assoc].
Qed.

Lemma lastSegment_spec image name :
  JS.truthy image = true ->
  ElkLogParser.lastSegment image = Ok name -> path_name image name.
Proof.
  intros T E. unfold path_name. rewrite T.
  destruct image; try discriminate. simpl in E. injection E as <-.
  eexists _, _. split; [reflexivity|]. split; [reflexivity|].
  eapply final_segment_of_two; apply split_last.
Qed.

(** ** The records of the Sysmon parser *)

Section SysmonRecords.
Context `{Host}.
Let I := all_records sysmon_shape.

Lemma sysmon_imageName event :
  keeps I (SysmonLogParser.imageName event)
    (fun name => exists image,
       JS.get event "Image" = Ok image /\ backslash_name image name).
Proof.
  apply keeps_reads; [unfold SysmonLogParser.imageName; reads_tac|].
  intros st name. unfold SysmonLogParser.imageName, bind, field, lift, ret.
  destruct (JS.get event "Image") as [image|] eqn:E; simpl; [|discriminate].
  unfold backslash_name.
  destruct (JS.truthy image) eqn:T; simpl.
  - destruct image; simpl; try discriminate. intros E1. injection E1 as <-.
    exists (VStr s). rewrite T. split; [reflexivity|].
    eexists _, _. split; [reflexivity|]. split; [reflexivity|]. apply split_last.
  - intros E1. injection E1 as <-. exists image. now rewrite T.
Qed.

Ltac kfield := eapply keeps_bind; [apply keeps_field | intros ? ?].
Ltac kread := eapply keeps_bind; [apply keeps_any; reads_tac | intros ? _].
Ltac kname :=
  eapply keeps_bind; [apply sysmon_imageName | intros ? (? & ? & ?)].
Ltac same_image :=
  cbv beta in *;
  match goal with
  | H1 : JS.get ?e "Image" = Ok ?a, H2 : JS.get ?e "Image" = Ok ?b |- _ =>
      tryif constr_eq a b then fail
      else (assert (a = b) by congruence; subst)
  end.

Lemma sysmon_processProcessCreation event :
  keeps I (SysmonLogParser.processProcessCreation event) any.
Proof.
  unfold SysmonLogParser.processProcessCreation.
  kname. kfield. kread. do 5 kfield.
  apply keeps_push_process. simpl. now same_image.
Qed.

Lemma sysmon_processNetworkConnection event :
  keeps I (SysmonLogParser.processNetworkConnection event) any.
Proof.
  unfold SysmonLogParser.processNetworkConnection.
  kname. kfield. kread. do 8 kfield.
  apply keeps_push_network. simpl. now same_image.
Qed.

Lemma sysmon_processFileActivity event :
  keeps I (SysmonLogParser.processFileActivity event) any.
Proof.
  unfold SysmonLogParser.processFileActivity.
  kfield. kread. kname. kfield. kread. do 4 kfield.
  apply keeps_push_fileActivity. simpl. now same_image.
Qed.

Lemma sysmon_processDnsQuery event :
  keeps I (SysmonLogParser.processDnsQuery event) any.
Proof.
  unfold SysmonLogParser.processDnsQuery.
  kname. kfield. kread. do 5 kfield.
  apply keeps_push_dns. simpl. now same_image.
Qed.

Lemma sysmon_processSysmonEvent event :
  keeps I (SysmonLogParser.processSysmonEvent event) any.
Proof.
  unfold SysmonLogParser.processSysmonEvent. kfield.
  repeat match goal with |- keeps _ (if ?b then _ else _) _ => destruct b end.
  - apply sysmon_processProcessCreation.
  - apply sysmon_processNetworkConnection.
  - apply sysmon_processFileActivity.
  - apply sysmon_processDnsQuery.
  - now apply keeps_ret.
Qed.

Lemma sysmon_parseByFormat content format :
  keeps I (SysmonLogParser.parseByFormat content format) any.
Proof.
  unfold SysmonLogParser.parseByFormat, SysmonLogParser.parseSysmonLogs.
  destruct (String.eqb format "sysmon"); [|now apply keeps_ret].
  apply (keeps_try _ _ any).
  eapply keeps_bind; [apply keeps_any; reads_tac | intros events _].
  destruct events; try (now apply keeps_ret).
  apply keeps_forEach. apply sysmon_processSysmonEvent.
Qed.
End SysmonRecords.

(** After a run, whatever it returns, the data have the parser's shape. *)
Lemma run_keeps_shape (S : Shape) (parseByFormat : string -> string -> M unit)
  (gen : PD.t -> Result Viz.t) files format st :
  (forall content, keeps (all_records S) (parseByFormat content format) any) ->
  all_records S
    (parsedData (snd ((reset ;;
                       forEach (fun content => parseByFormat content format) files ;;
                       d <- (fun st => (Ok (parsedData st), st)) ;;
                       lift (gen d))%parser st))).
Proof.
  intros Hp.
  assert (K : keeps (all_records S)
                (forEach (fun content => parseByFormat content format) files ;;
                 d <- (fun st => (Ok (parsedData st), st)) ;;
                 lift (gen d))%parser any).
  { eapply keeps_bind; [apply keeps_forEach; intros; apply Hp | intros _ _].
    eapply keeps_bind; [apply keeps_any; intros s; reflexivity | intros d _].
    apply keeps_any, reads_lift. }
  rewrite (bind_Ok _ _ _ _ _ (reset_run st)).
  apply K. simpl. apply all_records_empty.
Qed.

Lemma sysmon_records `{Host} files format st :
  all_records sysmon_shape
    (parsedData (snd (SysmonLogParser.parseLogs files format st))).
Proof. apply run_keeps_shape. intros. apply sysmon_parseByFormat. Qed.

(** ** The records of the ELK parser *)

Section ElkRecords.
Context `{Host}.
Let I := all_records elk_shape.

Ltac unfold_reads :=
  unfold ElkLogParser.either, ElkLogParser.imageOf, ElkLogParser.pidOf,
    ElkLogParser.userOf, orNow.
Ltac kread :=
  eapply keeps_bind; [apply keeps_any; unfold_reads; reads_tac | intros ? _].

Lemma elk_nameOf image :
  keeps I (ElkLogParser.nameOf image) (path_name image).
Proof.
  apply keeps_reads; [unfold ElkLogParser.nameOf; reads_tac|].
  intros st name. unfold ElkLogParser.nameOf.
  destruct (JS.truthy image) eqn:T.
  - apply lastSegment_spec, T.
  - simpl. intros E. injection E as <-. unfold path_name. now rewrite T.
Qed.

Ltac kname :=
  eapply keeps_bind; [apply elk_nameOf | intros ? ?].

Lemma elk_processCheck event timestamp :
  keeps I (ElkLogParser.processCheck event timestamp) any.
Proof.
  unfold ElkLogParser.processCheck. kread. kread.
  match goal with |- keeps _ (if ?b then _ else _) _ => destruct b eqn:T end;
    [|now apply keeps_ret].
  apply andb_true_iff in T. destruct T as [T1 T2].
  eapply keeps_bind;
    [apply (keeps_reads _ _ (path_name a));
     [reads_tac | intros st name; apply lastSegment_spec, T1]
    | intros name Hn].
  kread. kread. kread.
  apply keeps_push_process. simpl. auto.
Qed.

Lemma elk_networkCheck event timestamp :
  keeps I (ElkLogParser.networkCheck event timestamp) any.
Proof.
  unfold ElkLogParser.networkCheck. kread. kread.
  match goal with |- keeps _ (if ?b then _ else _) _ => destruct b eqn:T end;
    [|now apply keeps_ret].
  kread. kname. do 5 kread.
  apply keeps_push_network. simpl. auto.
Qed.

Lemma elk_fileCheck event timestamp :
  keeps I (ElkLogParser.fileCheck event timestamp) any.
Proof.
  unfold ElkLogParser.fileCheck. kread.
  match goal with |- keeps _ (if ?b then _ else _) _ => destruct b eqn:T end;
    [|now apply keeps_ret].
  kread. kname. do 4 kread.
  apply keeps_push_fileActivity. simpl. auto.
Qed.

Lemma elk_dnsCheck event timestamp :
  keeps I (ElkLogParser.dnsCheck event timestamp) any.
Proof.
  unfold ElkLogParser.dnsCheck. kread.
  match goal with |- keeps _ (if ?b then _ else _) _ => destruct b eqn:T end;
    [|now apply keeps_ret].
  kread. kname. do 3 kread.
  apply keeps_push_dns. simpl. auto.
Qed.

Lemma elk_processLog log :
  keeps I (ElkLogParser.processLog log) any.
Proof.
  unfold ElkLogParser.processLog, ElkLogParser.processGenericEvent.
  kread. kread.
  eapply keeps_bind; [apply elk_processCheck | intros _ _].
  eapply keeps_bind; [apply elk_networkCheck | intros _ _].
  eapply keeps_bind; [apply elk_fileCheck | intros _ _].
  apply elk_dnsCheck.
Qed.

Lemma elk_parseByFormat content format :
  keeps I (ElkLogParser.parseByFormat content format) any.
Proof.
  unfold ElkLogParser.parseByFormat, ElkLogParser.parseELKLogs.
  destruct (String.eqb format "elk"); [|now apply keeps_ret].
  destruct (JSON_parse content) as [v|].
  - destruct v; apply keeps_forEach, elk_processLog.
  - destruct (ElkLogParser.parseLines _); [|now apply keeps_ret].
    apply keeps_forEach, elk_processLog.
Qed.
End ElkRecords.

Lemma elk_records `{Host} files format st :
  all_records elk_shape
    (parsedData (snd (ElkLogParser.parseLogs files format st))).
Proof. apply run_keeps_shape. intros. apply elk_parseByFormat. Qed.

(** ** The records of the Defender parser *)

Section DefenderRecords.
Context `{Host}.
Let I := all_records defender_shape.

Ltac kfield := eapply keeps_bind; [apply keeps_field | intros ? ?].
Ltac kread :=
  eapply keeps_bind;
    [apply keeps_any; unfold DefenderLogParser.pathOf, orNow; reads_tac
    | intros ? _].
Ltac same_file :=
  cbv beta in *;
  match goal with
  | H1 : JS.get ?e "InitiatingProcessFileName" = Ok ?a,
    H2 : JS.get ?e "InitiatingProcessFileName" = Ok ?b |- _ =>
      tryif constr_eq a b then fail
      else (assert (a = b) by congruence; subst)
  end.

Lemma or_truthy a b : JS.truthy b = true -> JS.truthy (JS.or a b) = true.
Proof. intros Hb. unfold JS.or. now destruct (JS.truthy a) eqn:Ta. Qed.

Lemma defender_processDefenderEvent event :
  keeps I (DefenderLogParser.processDefenderEvent event) any.
Proof.
  unfold DefenderLogParser.processDefenderEvent.
  kfield. kread. kfield. kfield. kfield.
  repeat match goal with |- keeps _ (if ?b then _ else _) _ => destruct b end.
  - do 2 kfield. kfield. kfield.
    apply keeps_push_process. simpl. same_file. reflexivity.
  - do 6 kfield. kfield.
    apply keeps_push_network. simpl. same_file. reflexivity.
  - kread. do 3 kfield. kfield.
    apply keeps_push_fileActivity. simpl. same_file. reflexivity.
  - do 3 kfield. kfield.
    apply keeps_push_dns. simpl. same_file. reflexivity.
  - do 2 kfield. kread. do 2 kfield.
    apply keeps_push_threat. simpl. apply or_truthy, or_truthy. reflexivity.
  - do 4 kfield. kfield.
    apply keeps_push_registry. simpl. same_file. reflexivity.
  - now apply keeps_ret.
Qed.

Lemma defender_parseByFormat content format :
  keeps I (DefenderLogParser.parseByFormat content format) any.
Proof.
  unfold DefenderLogParser.parseByFormat, DefenderLogParser.parseDefenderLogs.
  destruct (String.eqb format "defender"); [|now apply keeps_ret].
  apply (keeps_try _ _ any).
  eapply keeps_bind; [apply keeps_any; reads_tac | intros events _].
  destruct events; try (now apply keeps_ret).
  apply keeps_forEach. apply defender_processDefenderEvent.
Qed.
End DefenderRecords.

Lemma defender_records `{Host} files format st :
  all_records defender_shape
    (parsedData (snd (DefenderLogParser.parseLogs files format st))).
Proof. apply run_keeps_shape. intros. apply defender_parseByFormat. Qed.

(** ** The records of the Wazuh parser *)

Section WazuhRecords.
Context `{Host}.
Let I := all_records wazuh_shape.

Ltac kfield := eapply keeps_bind; [apply keeps_field | intros ? ?].
Ltac kread :=
  eapply keeps_bind;
    [apply keeps_any; unfold WazuhLogParser.auditEvent, orNow; reads_tac
    | intros ? _].

Lemma wazuh_auditEvent data :
  keeps I (WazuhLogParser.auditEvent data)
    (fun ev => exists audit, JS.get data "audit" = Ok audit /\
                             ev = JS.optget audit "event").
Proof.
  apply keeps_reads; [unfold WazuhLogParser.auditEvent; reads_tac|].
  intros st ev. unfold WazuhLogParser.auditEvent, bind, field, lift, ret.
  destruct (JS.get data "audit") as [audit|]; simpl; [|discriminate].
  intros E. injection E as <-. eauto.
Qed.

Lemma wazuh_threat alert timestamp rule data id description :
  JS.get rule "id" = Ok id ->
  JS.get rule "description" = Ok description ->
  keeps I
    (if JS.truthy id && JS.truthy description then
       threatName <- field rule "description" ;;
       ruleId <- field rule "id" ;;
       level <- field rule "level" ;;
       severity <- lift (WazuhLogParser.mapWazuhLevel level) ;;
       full_log <- field alert "full_log" ;;
       description' <- orM full_log (field rule "description") ;;
       ev <- WazuhLogParser.auditEvent data ;;
       processName <-
         orM (JS.optget (JS.optget ev "process") "name")
             (command <- field data "command" ;;
              ret (JS.or command (VStr "N/A"))) ;;
       push_threat
         {| t_timestamp := timestamp; t_threatName := threatName;
            t_rule := ruleId; t_severity := VStr severity;
            t_filePath := VUndefined; t_description := description';
            t_type := VStr "wazuh_alert"; t_processName := processName |}
     else ret tt)%parser any.
Proof.
  intros Gi Gd.
  match goal with |- keeps _ (if ?b then _ else _) _ => destruct b eqn:T end;
    [|now apply keeps_ret].
  apply andb_true_iff in T. destruct T as [T1 T2].
  kfield. kfield. kfield. kread. kfield. kread. kread. kread.
  apply keeps_push_threat. simpl. cbv beta in *.
  split; congruence.
Qed.

Lemma wazuh_processAlert alert :
  keeps I (WazuhLogParser.processAlert alert) any.
Proof.
  unfold WazuhLogParser.processAlert.
  kfield. kread. kfield. kfield. kfield. kfield.
  eapply keeps_bind; [apply wazuh_threat; assumption | intros _ _].
  eapply keeps_bind; [apply wazuh_auditEvent | intros ev1 (au1 & A1 & ->)].
  eapply keeps_bind; [apply wazuh_auditEvent | intros ev2 (au2 & A2 & ->)].
  match goal with |- keeps _ (if ?b then _ else _) _ => destruct b eqn:T end;
    [|now apply keeps_ret].
  apply andb_true_iff in T. destruct T as [T1 T2].
  kfield. kfield. kfield. kfield. kfield. kread. kfield. kfield.
  apply keeps_push_fileActivity. simpl. cbv beta in *.
  assert (au2 = au1) by congruence. subst au2.
  match goal with
  | Ha : JS.get _ "audit" = Ok ?x, Hb : JS.get _ "audit" = Ok au1 |- _ =>
      tryif constr_eq x au1 then fail
      else (assert (x = au1) by congruence; subst x)
  end.
  repeat match goal with
         | Hg : JS.get _ _ = Ok _ |- _ => apply get_optget in Hg
         end.
  subst. repeat split; auto.
Qed.

Lemma wazuh_parseByFormat content format :
  keeps I (WazuhLogParser.parseByFormat content format) any.
Proof.
  unfold WazuhLogParser.parseByFormat, WazuhLogParser.parseWazuhLogs.
  destruct (String.eqb format "wazuh"); [|now apply keeps_ret].
  apply (keeps_try _ _ any).
  eapply keeps_bind; [apply keeps_any; reads_tac | intros events _].
  destruct events; try (now apply keeps_ret).
  apply keeps_forEach. apply wazuh_processAlert.
Qed.
End WazuhRecords.

Lemma wazuh_records `{Host} files format st :
  all_records wazuh_shape
    (parsedData (snd (WazuhLogParser.parseLogs files format st))).
Proof. apply run_keeps_shape. intros. apply wazuh_parseByFormat. Qed.

(** * Properties of the specification *)

(** ** C9: a format that is not the adapter's own *)

Lemma skipped_format (parseByFormat : string -> string -> M unit)
  (gen : PD.t -> Result Viz.t) files format st :
  (forall content st', parseByFormat content format st' = (Ok tt, st')) ->
  gen PD.empty = Ok Viz.empty ->
  (reset ;;
   forEach (fun content => parseByFormat content format) files ;;
   d <- (fun st => (Ok (parsedData st), st)) ;;
   lift (gen d))%parser st
  = (Ok Viz.empty, {| parsedData := PD.empty; clock := clock st |}).
Proof.
  intros Hskip Hgen.
  rewrite (bind_Ok _ _ _ _ _ (reset_run st)).
  rewrite (bind_Ok _ _ _ _ _ (forEach_skip _ files (fun c => Hskip c) _)).
  unfold bind, lift. simpl. now rewrite Hgen.
Qed.

(** C9. For every adapter, when the declared format is not the adapter's
    own tag, [parseLogs] parses nothing (the data stay empty and the clock
    is not read), no exception escapes, and the bundle it returns has
    every list empty. *)
Theorem unsupported_format_gives_empty_bundle `{Host} (a : Adapter)
  (files : list string) (format : string) (st : State) :
  In a adapters -> format <> tag a ->
  parseLogs a files format st
  = (Ok Viz.empty, {| parsedData := PD.empty; clock := clock st |}).
Proof.
  intros Hin Hne. simpl in Hin.
  destruct Hin as [<-|[<-|[<-|[<-|[]]]]]; simpl in Hne;
    apply String.eqb_neq in Hne;
    apply skipped_format; try reflexivity; intros content st'.
  - unfold SysmonLogParser.parseByFormat. now rewrite Hne.
  - unfold ElkLogParser.parseByFormat. now rewrite Hne.
  - unfold DefenderLogParser.parseByFormat. now rewrite Hne.
  - unfold WazuhLogParser.parseByFormat. now rewrite Hne.
Qed.

Lemma unsupported_format_witness :
  In (@sysmon demo_host) (@adapters demo_host) /\ "elk" <> tag (@sysmon demo_host) /\
  parseLogs (@sysmon demo_host)
    [Json.quoted "[{'EventID':3,'DestinationIp':'203.0.113.5'}]"] "elk" fresh
  = (Ok Viz.empty, {| parsedData := PD.empty; clock := clock fresh |}).
Proof.
  split; [simpl; auto|]. split; [discriminate|].
  apply (@unsupported_format_gives_empty_bundle demo_host);
    [simpl; auto | discriminate].
Defined.

(** ** C8: running twice *)

Lemma c2_findings_numbered d b : c2_findings d b ->
  numbered_from_one (Viz.attackChain (Viz.aptPatterns b)).
Proof. intros (per & rt & rb & _ & _ & E & _). eexists. exact E. Qed.

Lemma returned_bundle (parseByFormat : string -> string -> M unit)
  (gen : PD.t -> Result Viz.t) files format st b :
  let run := (reset ;;
              forEach (fun content => parseByFormat content format) files ;;
              d <- (fun st => (Ok (parsedData st), st)) ;;
              lift (gen d))%parser in
  fst (run st) = Ok b -> gen (parsedData (snd (run st))) = Ok b.
Proof.
  cbv zeta. rewrite (bind_Ok _ _ _ _ _ (reset_run st)).
  unfold bind at 1 3.
  destruct (forEach _ files _) as [[[]|e] st1]; simpl; [|discriminate].
  unfold bind, lift. simpl. auto.
Qed.

(** C8, amended. For every adapter, the outcome of [parseLogs] does not
    depend on the data a previous run left behind: two runs on the same
    files and format whose clocks give the same readings have the same
    outcome; and in every bundle returned the attack chain is numbered
    from 1. *)
Theorem rerun_with_same_clock_is_identical `{Host} (a : Adapter)
  (files : list string) (format : string) (st1 st2 : State) :
  In a adapters ->
  (forall k, clock st1 k = clock st2 k) ->
  parseLogs a files format st1 = parseLogs a files format st2 /\
  (forall b, fst (parseLogs a files format st1) = Ok b ->
             numbered_from_one (Viz.attackChain (Viz.aptPatterns b))).
Proof.
  intros Hin Hclock. split.
  - rewrite (parseLogs_from_reset a Hin files format st1).
    rewrite (parseLogs_from_reset a Hin files format st2).
    f_equal. f_equal. now apply functional_extensionality.
  - intros b E. simpl in Hin.
    destruct Hin as [<-|[<-|[<-|[<-|[]]]]];
      apply returned_bundle in E.
    + eapply c2_findings_numbered, sysmon_c2_findings, E.
    + eapply c2_findings_numbered, elk_c2_findings, E.
    + eapply c2_findings_numbered, defender_c2_findings, E.
    + destruct (wazuh_findings _ b E) as (_ & bodies & _ & Eb).
      now exists bodies.
Qed.

Lemma rerun_with_same_clock_witness :
  let content := Json.quoted "[{'EventID':3,'DestinationIp':'203.0.113.5'}]" in
  let st2 := {| parsedData := parsedData (snd (parseLogs (@sysmon demo_host) [content] "sysmon" fresh));
                clock := demo_clock |} in
  parseLogs (@sysmon demo_host) [content] "sysmon" fresh
  = parseLogs (@sysmon demo_host) [content] "sysmon" st2.
Proof.
  apply (@rerun_with_same_clock_is_identical demo_host);
    [simpl; auto | reflexivity].
Defined.

(** The second of two runs in a row reads the clock later than the first:
    a record without a timestamp of its own gets another one. *)
Lemma rerun_counterexample :
  let content := Json.quoted "[{'EventID':3,'DestinationIp':'10.0.0.1'}]" in
  let first := parseLogs (@sysmon demo_host) [content] "sysmon" fresh in
  let second := parseLogs (@sysmon demo_host) [content] "sysmon" (snd first) in
  (exists b1 b2,
     fst first = Ok b1 /\ fst second = Ok b2 /\
     map (fun c => n_timestamp (base c)) (Viz.connections (Viz.networkMap b1))
       = [VStr "t0"] /\
     map (fun c => n_timestamp (base c)) (Viz.connections (Viz.networkMap b2))
       = [VStr "t1"]) /\
  fst first <> fst second.
Proof.
  split.
  - eexists _, _. repeat split; vm_compute; reflexivity.
  - vm_compute. discriminate.
Qed.

(** ** C2: the severity of a Wazuh rule level *)

(** C2. [mapWazuhLevel] on a numeric level: "high" from 12, "medium" from
    7, "low" from 3 and "informational" below 3, except that level 0 gets
    "low", the answer for an absent level. *)
Theorem mapWazuhLevel_on_levels `{Host} :
  WazuhLogParser.mapWazuhLevel VUndefined = Ok "low" /\
  WazuhLogParser.mapWazuhLevel (VNum 0) = Ok "low" /\
  forall n : Z,
    WazuhLogParser.mapWazuhLevel (VNum n)
    = Ok (if n =? 0 then "low"
          else if 12 <=? n then "high"
          else if 7 <=? n then "medium"
          else if 3 <=? n then "low"
          else "informational").
Proof.
  split; [reflexivity|]. split; [reflexivity|].
  intros n. unfold WazuhLogParser.mapWazuhLevel. simpl.
  destruct (n =? 0); simpl; [reflexivity|].
  destruct (12 <=? n); simpl; [reflexivity|].
  destruct (7 <=? n); simpl; [reflexivity|].
  destruct (3 <=? n); reflexivity.
Qed.

(** ** C10: the bundle of every run *)

(** C10. A Sysmon file-creation event without [TargetFilename] makes
    [parseLogs] throw a TypeError instead of returning a bundle:
    [generateVisualizationData] calls [includes] on an undefined path. So
    does an ELK file whose content is [null]. *)
Theorem parseLogs_can_throw :
  fst (parseLogs (@sysmon demo_host) [Json.quoted "[{'EventID':11}]"] "sysmon" fresh)
  = Throw TypeError /\
  fst (parseLogs (@elk demo_host) ["null"] "elk" fresh) = Throw TypeError.
Proof. split; vm_compute; reflexivity. Qed.

(** ** C3: a file that holds one JSON object *)




(** ** C5: the IP classifier *)

Lemma isInternalIP_string s :
  exists b, isInternalIP (VStr s) = Ok b /\ (b = true <-> internal_address s).
Proof.
  unfold isInternalIP. simpl.
  destruct (String.eqb s "") eqn:E0; simpl.
  { apply String.eqb_eq in E0. subst s. exists false. split; [reflexivity|].
    split; [discriminate|].
    intros [D|[D|(a & b & c & d & D & _)]]; discriminate. }
  destruct (String.eqb s "127.0.0.1") eqn:E1; simpl.
  { apply String.eqb_eq in E1. exists true. split; [reflexivity|].
    split; [intros _; now left | reflexivity]. }
  destruct (String.eqb s "::1") eqn:E2; simpl.
  { apply String.eqb_eq in E2. exists true. split; [reflexivity|].
    split; [intros _; right; now left | reflexivity]. }
  apply String.eqb_neq in E1, E2.
  destruct (Str.split "." s) as [|a [|b [|c [|d [|e l]]]]] eqn:Es; simpl;
    try (exists false; split; [reflexivity|]; split; [discriminate|];
         intros [D|[D|(a' & b' & c' & d' & D & _)]];
         [now apply E1 in D | now apply E2 in D | rewrite Es in D; discriminate]).
  unfold internal_address. rewrite Es.
  destruct (num_eqb (Str.parseInt a) 10) eqn:P10.
  { exists true. split; [reflexivity|]. split; [|reflexivity]. intros _.
    right. right. exists a, b, c, d. split; [reflexivity|]. left.
    destruct (Str.parseInt a); simpl in P10; [|discriminate].
    apply Z.eqb_eq in P10. now subst. }
  destruct (num_eqb (Str.parseInt a) 172 && num_geb (Str.parseInt b) 16
            && num_leb (Str.parseInt b) 31) eqn:P172.
  { exists true. split; [reflexivity|]. split; [|reflexivity]. intros _.
    right. right. exists a, b, c, d. split; [reflexivity|]. right. left.
    apply andb_true_iff in P172. destruct P172 as [P P3].
    apply andb_true_iff in P. destruct P as [P1 P2].
    destruct (Str.parseInt a); simpl in P1; [|discriminate].
    destruct (Str.parseInt b) as [n|]; simpl in P2, P3; [|discriminate].
    apply Z.eqb_eq in P1. apply Z.leb_le in P2, P3. subst.
    split; [reflexivity|]. exists n. split; [reflexivity | lia]. }
  destruct (num_eqb (Str.parseInt a) 192 && num_eqb (Str.parseInt b) 168) eqn:P192.
  { exists true. split; [reflexivity|]. split; [|reflexivity]. intros _.
    right. right. exists a, b, c, d. split; [reflexivity|]. right. right.
    apply andb_true_iff in P192. destruct P192 as [P1 P2].
    destruct (Str.parseInt a); simpl in P1; [|discriminate].
    destruct (Str.parseInt b); simpl in P2; [|discriminate].
    apply Z.eqb_eq in P1, P2. now subst. }
  exists false. split; [reflexivity|]. split; [discriminate|].
  intros [D|[D|D]]; [now apply E1 in D | now apply E2 in D |].
  destruct D as (a' & b' & c' & d' & Eq & D). injection Eq as <- <- <- <-.
  destruct D as [D|[(D1 & n & D2 & D3)|(D1 & D2)]].
  - rewrite D in P10. discriminate.
  - rewrite D1, D2 in P172. simpl in P172.
    assert (L1 : (16 <=? n) = true) by (apply Z.leb_le; lia).
    assert (L2 : (n <=? 31) = true) by (apply Z.leb_le; lia).
    rewrite L1, L2 in P172. discriminate.
  - rewrite D1, D2 in P192. discriminate.
Qed.

(** *** Numbers in decimal *)













(** ** C1 and C6: the records of a run *)

Lemma all_records_impl (S S' : Shape) d :
  (forall r, ok_process S r -> ok_process S' r) ->
  (forall r, ok_network S r -> ok_network S' r) ->
  (forall r, ok_file S r -> ok_file S' r) ->
  (forall r, ok_dns S r -> ok_dns S' r) ->
  (forall r, ok_threat S r -> ok_threat S' r) ->
  (forall r, ok_registry S r -> ok_registry S' r) ->
  all_records S d -> all_records S' d.
Proof.
  intros I1 I2 I3 I4 I5 I6 (H1 & H2 & H3 & H4 & H5 & H6 & H7 & H8).
  repeat split; try assumption; eapply Forall_impl; eauto.
Qed.

Ltac weaken_shape :=
  eapply all_records_impl; [..|eassumption]; simpl; unfold any, never;
  intros; tauto.

(** C1, amended. After any run, the [processName] of every record of the
    ELK adapter is the final segment of its [image] for both separators,
    or N/A when the image is empty or missing; that of every record of the
    Sysmon adapter is what follows the last backslash of its [image], or
    N/A; that of every record of the Defender and Wazuh adapters is their
    [image] as it is, or N/A. The ELK adapter gives [cmd.exe] and [bash]
    for the two paths of the specification. *)
Theorem processName_of_every_record `{Host}
  (files : list string) (format : string) (st : State) :
  all_records elk_names (data_after elk files format st) /\
  all_records sysmon_names (data_after sysmon files format st) /\
  all_records defender_names (data_after defender files format st) /\
  all_records wazuh_names (data_after wazuh files format st) /\
  ElkLogParser.lastSegment (VStr "C:\Windows\System32\cmd.exe")
    = Ok (VStr "cmd.exe") /\
  ElkLogParser.lastSegment (VStr "/usr/bin/bash") = Ok (VStr "bash").
Proof.
  pose proof (elk_records files format st) as He.
  pose proof (sysmon_records files format st) as Hs.
  pose proof (defender_records files format st) as Hd.
  pose proof (wazuh_records files format st) as Hw.
  unfold data_after. simpl.
  split; [weaken_shape|]. split; [exact Hs|].
  split; [weaken_shape|]. split; [weaken_shape|].
  split; reflexivity.
Qed.

(** A Sysmon process whose image is a Unix path keeps the whole path as
    its [processName], and a Defender process keeps the whole
    [InitiatingProcessFileName]. *)
Lemma processName_counterexample :
  map (fun r => (p_image r, p_processName r))
    (PD.processes
       (data_after (@sysmon demo_host)
          [Json.quoted "[{'EventID':1,'Image':'/usr/bin/bash'}]"] "sysmon" fresh))
  = [(VStr "/usr/bin/bash", VStr "/usr/bin/bash")] /\
  map (fun r => (p_image r, p_processName r))
    (PD.processes
       (data_after (@defender demo_host)
          [Json.quoted "[{'EventType':'ProcessCreated','InitiatingProcessFileName':'C:\\Windows\\System32\\cmd.exe'}]"]
          "defender" fresh))
  = [(VStr "C:\Windows\System32\cmd.exe", VStr "C:\Windows\System32\cmd.exe")].
Proof. split; vm_compute; reflexivity. Qed.

Lemma orNow_runs v st :
  exists t st',
    orNow v st = (Ok t, st') /\ parsedData st' = parsedData st.
Proof.
  unfold orNow, orM. destruct (JS.truthy v).
  - eexists _, _. split; reflexivity.
  - eexists _, _. split; reflexivity.
Qed.

Lemma field_object props k st :
  field (VObj props) k st = (Ok (JS.lookup k props), st).
Proof. reflexivity. Qed.

(** The Sysmon parser files an event under its event code alone: an event
    with code 3 becomes a network record, whatever it says, or does not
    say, of a destination. *)
Lemma sysmon_network_by_code props st :
  JS.lookup "EventID" props = VNum 3 ->
  (JS.truthy (JS.lookup "Image" props) = false \/
   exists s, JS.lookup "Image" props = VStr s) ->
  exists r,
    appends_network (SysmonLogParser.processSysmonEvent (VObj props)) st r /\
    n_destinationIp r = JS.lookup "DestinationIp" props /\
    n_destinationPort r = JS.lookup "DestinationPort" props /\
    exists name, n_processName r = VStr name.
Proof.
  intros HE HI. unfold appends_network, SysmonLogParser.processSysmonEvent.
  rewrite (bind_Ok _ _ _ _ _ (field_object props "EventID" st)). rewrite HE.
  cbn [JS.eq_num Z.eqb Pos.eqb].
  unfold SysmonLogParser.processNetworkConnection.
  assert (Hn : exists name,
             SysmonLogParser.imageName (VObj props) st = (Ok (VStr name), st)).
  { unfold SysmonLogParser.imageName.
    rewrite (bind_Ok _ _ _ _ _ (field_object props "Image" st)).
    destruct HI as [HI|(s & HI)].
    - rewrite HI. eexists. reflexivity.
    - destruct (JS.truthy (JS.lookup "Image" props)).
      + rewrite (bind_Ok _ _ _ _ _ (field_object props "Image" st)).
        rewrite HI. eexists. reflexivity.
      + eexists. reflexivity. }
  destruct Hn as (name & Hn).
  rewrite (bind_Ok _ _ _ _ _ Hn).
  rewrite (bind_Ok _ _ _ _ _ (field_object props "UtcTime" st)).
  destruct (orNow_runs (JS.lookup "UtcTime" props) st) as (t & st' & Ht & Hd).
  rewrite (bind_Ok _ _ _ _ _ Ht).
  repeat rewrite (bind_Ok _ _ _ _ _ (field_object props _ st')).
  eexists. simpl. rewrite Hd.
  split; [split; reflexivity|]. simpl. eauto.
Qed.

(** The Defender parser files an event under its [EventType] alone. *)
Lemma defender_network_by_type props st :
  JS.lookup "EventType" props = VStr "NetworkConnection" ->
  exists r,
    appends_network (DefenderLogParser.processDefenderEvent (VObj props)) st r /\
    n_destinationIp r = JS.lookup "DestinationIp" props.
Proof.
  intros HE. unfold appends_network, DefenderLogParser.processDefenderEvent.
  rewrite (bind_Ok _ _ _ _ _ (field_object props "TimeGenerated" st)).
  destruct (orNow_runs (JS.lookup "TimeGenerated" props) st) as (t & st' & Ht & Hd).
  rewrite (bind_Ok _ _ _ _ _ Ht).
  repeat rewrite (bind_Ok _ _ _ _ _ (field_object props _ st')).
  rewrite HE. cbn [JS.eq_str String.eqb Ascii.eqb Bool.eqb orb].
  repeat rewrite (bind_Ok _ _ _ _ _ (field_object props _ st')).
  eexists. simpl. rewrite Hd.
  split; [split; reflexivity|]. reflexivity.
Qed.

(** C6, amended. After any run of the ELK adapter every record has the
    discriminant of its category (a process its image and its id, a
    connection its destination IP, a file activity its path, a DNS query
    its name), and after any run of the Wazuh adapter every threat has its
    rule id and description and every file activity its file and action.
    The Sysmon and Defender adapters file an event under its event code or
    event type alone: a network event becomes a network record whose
    destination IP is whatever the event holds under [DestinationIp]. *)
Theorem records_of_elk_and_wazuh_have_discriminants `{Host}
  (files : list string) (format : string) (st : State) :
  all_records elk_discriminants (data_after elk files format st) /\
  all_records wazuh_discriminants (data_after wazuh files format st) /\
  (forall props st',
     JS.lookup "EventID" props = VNum 3 ->
     (JS.truthy (JS.lookup "Image" props) = false \/
      exists s, JS.lookup "Image" props = VStr s) ->
     exists r,
       appends_network (SysmonLogParser.processSysmonEvent (VObj props)) st' r /\
       n_destinationIp r = JS.lookup "DestinationIp" props) /\
  (forall props st',
     JS.lookup "EventType" props = VStr "NetworkConnection" ->
     exists r,
       appends_network (DefenderLogParser.processDefenderEvent (VObj props)) st' r /\
       n_destinationIp r = JS.lookup "DestinationIp" props).
Proof.
  pose proof (elk_records files format st) as He.
  pose proof (wazuh_records files format st) as Hw.
  unfold data_after. simpl.
  split; [weaken_shape|]. split; [weaken_shape|].
  split; [|apply defender_network_by_type].
  intros props st' HE HI.
  destruct (sysmon_network_by_code props st' HE HI) as (r & Hr & Hd & _).
  now exists r.
Qed.

Lemma records_witness :
  exists r,
    appends_network
      (SysmonLogParser.processSysmonEvent (VObj [("EventID", VNum 3)]))
      fresh r /\
    n_destinationIp r = VUndefined.
Proof.
  apply (proj1 (proj2 (proj2
           (@records_of_elk_and_wazuh_have_discriminants demo_host [] "" fresh)))
           [("EventID", VNum 3)] fresh).
  - reflexivity.
  - left. reflexivity.
Defined.

(** A Sysmon network event without a destination is a network record all
    the same, and the bundle reports it as command and control. *)
Lemma discriminant_counterexample :
  map n_destinationIp
    (PD.networkConnections
       (data_after (@sysmon demo_host) [Json.quoted "[{'EventID':3}]"]
          "sysmon" fresh))
  = [VUndefined] /\
  exists b,
    fst (parseLogs (@sysmon demo_host) [Json.quoted "[{'EventID':3}]"]
           "sysmon" fresh) = Ok b /\
    length (Viz.connections (Viz.networkMap b)) = 1%nat.
Proof.
  split; [vm_compute; reflexivity|].
  eexists. split; vm_compute; reflexivity.
Qed.

(** ** C7: threats and alerts *)

Lemma no_threats (S : Shape) d :
  (forall r, ok_threat S r -> False) -> all_records S d -> PD.threats d = [].
Proof.
  intros Hn (_ & _ & _ & _ & Ht & _). destruct (PD.threats d) as [|t l]; [reflexivity|].
  inversion Ht; subst. now destruct (Hn t).
Qed.

Lemma visitAll_returns {A} (visit : A -> Acc -> Result Acc) (P : A -> Prop) :
  (forall x a, P x -> exists a', visit x a = Ok a') ->
  forall l a, Forall P l -> exists a', visitAll visit l a = Ok a'.
Proof.
  intros Hv. induction l as [|x l IH]; intros a Hl; simpl.
  - eauto.
  - inversion Hl; subst. destruct (Hv x a) as (a1 & ->); [assumption|].
    simpl. now apply IH.
Qed.

(** The Wazuh pass returns as soon as the names and descriptions of the
    threats can be written in a template. *)
Lemma wazuh_pass_returns d :
  Forall (fun t => exists body, alert_body t body) (PD.threats d) ->
  exists b, WazuhLogParser.generateVisualizationData d = Ok b.
Proof.
  intros Ht. unfold WazuhLogParser.generateVisualizationData.
  assert (exists a1, visitAll WazuhLogParser.visitThreat (PD.threats d) Acc_init
                     = Ok a1) as (a1 & E1).
  { apply visitAll_returns with (P := fun t => exists body, alert_body t body);
      [|exact Ht].
    intros t a (body & name & de & En & Ed & _).
    unfold WazuhLogParser.visitThreat. simpl. rewrite En, Ed. simpl.
    eexists; reflexivity. }
  assert (exists a2, visitAll WazuhLogParser.visitFile (PD.fileActivities d) a1
                     = Ok a2) as (a2 & E2).
  { apply visitAll_returns with (P := fun _ => True);
      [intros; simpl; eexists; reflexivity | now apply Forall_forall]. }
  assert (exists a3, visitAll WazuhLogParser.visitConnection
                       (PD.networkConnections d) a2 = Ok a3) as (a3 & E3).
  { apply visitAll_returns with (P := fun _ => True);
      [intros; simpl; eexists; reflexivity | now apply Forall_forall]. }
  rewrite E1. simpl. rewrite E2. simpl. rewrite E3. simpl.
  eexists; reflexivity.
Qed.

(** C7. The Wazuh pass turns every threat into an indicator, in order,
    and gives each one a chain entry of its own, numbered from 1, on no
    condition (and it returns whenever the names and descriptions can be
    written in a template); the Defender pass appends the threats to the
    indicators and leaves the chain as it is without them; the Sysmon and
    ELK adapters produce no threat. *)
Theorem threats_are_projected `{Host} :
  (forall d b,
     WazuhLogParser.generateVisualizationData d = Ok b ->
     Viz.threatIndicators (Viz.aptPatterns b) = map projected (PD.threats d) /\
     exists bodies,
       Forall2 alert_body (PD.threats d) bodies /\
       Viz.attackChain (Viz.aptPatterns b) = number_from 1 bodies) /\
  (forall d,
     Forall (fun t => exists body, alert_body t body) (PD.threats d) ->
     exists b, WazuhLogParser.generateVisualizationData d = Ok b) /\
  (forall d,
     DefenderLogParser.generateVisualizationData d =
     (b0 <-- DefenderLogParser.generateVisualizationData (without_threats d) ;;
      Ok (add_indicators b0 (map projected (PD.threats d))))%result) /\
  (forall files format st,
     PD.threats (data_after sysmon files format st) = [] /\
     PD.threats (data_after elk files format st) = []).
Proof.
  split; [exact wazuh_findings|]. split; [exact wazuh_pass_returns|].
  split; [exact defender_threats_appended|].
  intros files format st. split.
  - eapply (no_threats sysmon_shape); [auto | apply sysmon_records].
  - eapply (no_threats elk_shape); [auto | apply elk_records].
Qed.

Lemma threats_witness :
  let t := {| t_timestamp := VStr "t0"; t_threatName := VStr "sshd brute force";
              t_rule := VStr "5712"; t_severity := VStr "medium";
              t_filePath := VUndefined; t_description := VStr "10 failed logins";
              t_type := VStr "wazuh_alert"; t_processName := VStr "sshd" |} in
  let d := PD.mk [] [] [] [] [] [] [t] [] in
  exists b,
    WazuhLogParser.generateVisualizationData d = Ok b /\
    Viz.threatIndicators (Viz.aptPatterns b) = [projected t] /\
    exists bodies,
      Forall2 alert_body [t] bodies /\
      Viz.attackChain (Viz.aptPatterns b) = number_from 1 bodies.
Proof.
  intros t d. eexists. split; [reflexivity|].
  apply (proj1 (@threats_are_projected demo_host) d). reflexivity.
Defined.


(** ** C4: command and control *)




(** ** The pass-through lists *)

Lemma visitAll_copies {A} (visit : A -> Acc -> Result Acc) conns files :
  copies visit conns files ->
  forall l a a',
    visitAll visit l a = Ok a' ->
    a_connections a' = (a_connections a ++ flat_map conns l)%list /\
    a_fileActivities a' = (a_fileActivities a ++ flat_map files l)%list.
Proof.
  intros Hc. induction l as [|x l IH]; intros a a' E; simpl in E.
  - injection E as <-. simpl. now rewrite !app_nil_r.
  - rinv E. destruct (Hc _ _ _ Ex) as [C1 F1].
    destruct (IH _ _ E) as [C2 F2].
    simpl. rewrite C2, F2, C1, F1. now rewrite <- !app_assoc.
Qed.

Lemma flat_map_single {A B} (f : A -> B) (l : list A) :
  flat_map (fun x => [f x]) l = map f l.
Proof. induction l; simpl; congruence. Qed.

Lemma flat_map_none {A B} (l : list A) :
  flat_map (fun _ => @nil B) l = [].
Proof. induction l; simpl; auto. Qed.

(** Inverts the branches of a visit down to the accumulator they return. *)
Ltac visit_inv H :=
  repeat first
    [ match type of H with
      | Ok _ = Ok _ => injection H as <-
      | rbind _ _ = Ok _ => rinv H
      | (if ?b then _ else _) = Ok _ => destruct b
      end ].

Ltac copies_visit :=
  intros x a a1 E;
  match type of E with ?f _ _ = _ => unfold f in E end;
  rinv E; rinv E; injection E as <-;
  match goal with
  | Hb : _ = Ok ?a' |- _ =>
      let HC := fresh "HC" in
      let HF := fresh "HF" in
      assert (a_connections a' = a_connections a /\
              a_fileActivities a' = a_fileActivities a) as [HC HF]
        by (visit_inv Hb; split; reflexivity);
      simpl; rewrite HC, HF, app_nil_r; split; reflexivity
  end.

Lemma sysmon_connection_copies :
  copies SysmonLogParser.visitConnection (fun c => [connection_out c]) (fun _ => []).
Proof. copies_visit. Qed.

Lemma elk_connection_copies :
  copies ElkLogParser.visitConnection (fun c => [connection_out c]) (fun _ => []).
Proof. copies_visit. Qed.

Lemma defender_connection_copies :
  copies DefenderLogParser.visitConnection (fun c => [connection_out c]) (fun _ => []).
Proof. copies_visit. Qed.

Lemma wazuh_connection_copies :
  copies WazuhLogParser.visitConnection (fun c => [connection_out c]) (fun _ => []).
Proof.
  intros conn a a1 E. injection E as <-. simpl. rewrite app_nil_r. auto.
Qed.

Lemma sysmon_file_copies :
  copies SysmonLogParser.visitFile (fun _ => []) (fun f => [file_out f]).
Proof. copies_visit. Qed.

Lemma defender_file_copies :
  copies DefenderLogParser.visitFile (fun _ => []) (fun f => [file_out f]).
Proof. copies_visit. Qed.

Lemma elk_file_copies :
  copies ElkLogParser.visitFile (fun _ => []) (fun f => [file_out f]).
Proof.
  intros file a a1 E. injection E as <-. simpl. rewrite app_nil_r. auto.
Qed.

Lemma wazuh_file_copies :
  copies WazuhLogParser.visitFile (fun _ => []) (fun f => [file_out f]).
Proof.
  intros file a a1 E. injection E as <-. simpl. rewrite app_nil_r. auto.
Qed.

Lemma wazuh_threat_copies :
  copies WazuhLogParser.visitThreat (fun _ => []) (fun _ => []).
Proof.
  intros t a a1 E. unfold WazuhLogParser.visitThreat in E.
  rinv E. injection E as <-. simpl. rewrite !app_nil_r. auto.
Qed.

Lemma two_pass_copies {A B} (v1 : A -> Acc -> Result Acc)
  (v2 : B -> Acc -> Result Acc) conns files l1 l2 a0 a2 :
  copies v1 conns (fun _ => []) -> copies v2 (fun _ => []) files ->
  (a1 <-- visitAll v1 l1 a0 ;; visitAll v2 l2 a1)%result = Ok a2 ->
  a_connections a2 = (a_connections a0 ++ flat_map conns l1)%list /\
  a_fileActivities a2 = (a_fileActivities a0 ++ flat_map files l2)%list.
Proof.
  intros H1 H2 E. rinv E.
  destruct (visitAll_copies _ _ _ H1 _ _ _ Ex) as [C1 F1].
  destruct (visitAll_copies _ _ _ H2 _ _ _ E) as [C2 F2].
  rewrite C2, F2, C1, F1, !flat_map_none, !app_nil_r. auto.
Qed.

Lemma sysmon_passes_through d b :
  SysmonLogParser.generateVisualizationData d = Ok b -> passes_through d b.
Proof.
  unfold SysmonLogParser.generateVisualizationData. intros E.
  destruct (visitAll SysmonLogParser.visitConnection _ _) as [a1|] eqn:E1;
    [|discriminate]. simpl in E.
  destruct (visitAll SysmonLogParser.visitFile _ _) as [a2|] eqn:E2;
    [|discriminate]. simpl in E. injection E as <-.
  destruct (two_pass_copies _ _ _ _ (PD.networkConnections d) (PD.fileActivities d)
              Acc_init a2 sysmon_connection_copies sysmon_file_copies) as [C F].
  { rewrite E1. exact E2. }
  unfold passes_through. simpl. rewrite C, F, !flat_map_single. auto.
Qed.

Lemma elk_passes_through d b :
  ElkLogParser.generateVisualizationData d = Ok b -> passes_through d b.
Proof.
  unfold ElkLogParser.generateVisualizationData. intros E.
  destruct (visitAll ElkLogParser.visitConnection _ _) as [a1|] eqn:E1;
    [|discriminate]. simpl in E.
  destruct (visitAll ElkLogParser.visitFile _ _) as [a2|] eqn:E2;
    [|discriminate]. simpl in E. injection E as <-.
  destruct (two_pass_copies _ _ _ _ (PD.networkConnections d) (PD.fileActivities d)
              Acc_init a2 elk_connection_copies elk_file_copies) as [C F].
  { rewrite E1. exact E2. }
  unfold passes_through. simpl. rewrite C, F, !flat_map_single. auto.
Qed.

Lemma defender_passes_through d b :
  DefenderLogParser.generateVisualizationData d = Ok b -> passes_through d b.
Proof.
  unfold DefenderLogParser.generateVisualizationData. intros E.
  destruct (visitAll DefenderLogParser.visitConnection _ _) as [a1|] eqn:E1;
    [|discriminate]. simpl in E.
  destruct (visitAll DefenderLogParser.visitFile _ _) as [a2|] eqn:E2;
    [|discriminate]. simpl in E. injection E as <-.
  destruct (two_pass_copies _ _ _ _ (PD.networkConnections d) (PD.fileActivities d)
              Acc_init a2 defender_connection_copies defender_file_copies) as [C F].
  { rewrite E1. exact E2. }
  unfold passes_through. rewrite fold_push_indicator. simpl.
  rewrite C, F, !flat_map_single. auto.
Qed.

Lemma wazuh_passes_through d b :
  WazuhLogParser.generateVisualizationData d = Ok b -> passes_through d b.
Proof.
  unfold WazuhLogParser.generateVisualizationData. intros E.
  rinv E. rinv E. rinv E. injection E as <-.
  destruct (visitAll_copies _ _ _ wazuh_threat_copies _ _ _ Ex) as [C1 F1].
  destruct (visitAll_copies _ _ _ wazuh_file_copies _ _ _ Ex0) as [C2 F2].
  destruct (visitAll_copies _ _ _ wazuh_connection_copies _ _ _ Ex1) as [C3 F3].
  unfold passes_through. simpl.
  rewrite C3, F3, C2, F2, C1, F1, !flat_map_none, !flat_map_single, !app_nil_r.
  auto.
Qed.

(** X1. In every bundle that a pass returns, the connections, the file
    activities and the DNS queries are the parsed records, in their order,
    each with a [process] field: its [processName], or N/A when that is
    empty, for a connection and a file activity; its [processName] as it
    is for a DNS query. *)
Theorem lists_pass_through :
  (forall d b, SysmonLogParser.generateVisualizationData d = Ok b ->
               passes_through d b) /\
  (forall d b, ElkLogParser.generateVisualizationData d = Ok b ->
               passes_through d b) /\
  (forall d b, DefenderLogParser.generateVisualizationData d = Ok b ->
               passes_through d b) /\
  (forall d b, WazuhLogParser.generateVisualizationData d = Ok b ->
               passes_through d b).
Proof.
  split; [exact sysmon_passes_through|]. split; [exact elk_passes_through|].
  split; [exact defender_passes_through | exact wazuh_passes_through].
Qed.

Lemma lists_pass_through_witness :
  let conn := {| n_timestamp := VStr "t0"; n_sourceIp := VUndefined;
                 n_sourcePort := VUndefined;
                 n_destinationIp := VStr "192.168.1.9";
                 n_destinationPort := VNum 445; n_protocol := VUndefined;
                 n_processId := VUndefined; n_image := VUndefined;
                 n_user := VUndefined; n_processName := VStr "" |} in
  let d := PD.mk [] [conn] [] [] [] [] [] [] in
  exists b,
    SysmonLogParser.generateVisualizationData d = Ok b /\
    passes_through d b /\
    map process (Viz.connections (Viz.networkMap b)) = [VStr "N/A"].
Proof.
  intros conn d. eexists. split; [reflexivity|]. split.
  - apply (proj1 lists_pass_through d). reflexivity.
  - reflexivity.
Defined.

(** ** Evidence tampering *)

(** X2. In the Sysmon pass a file deletion gives, whatever the path, one
    indicator and one chain entry, numbered with the current step. *)
Theorem sysmon_file_deleted_is_tampering
  (file : FileActivityEvent) (a : Acc) (path name user : string) :
  f_action file = VStr "File Deleted" ->
  JS.ToString (f_filePath file) = Ok path ->
  JS.ToString (JS.or (f_processName file) (VStr "N/A")) = Ok name ->
  JS.ToString (f_user file) = Ok user ->
  SysmonLogParser.visitFile file a
  = Ok (push_file
          (push_finding a
             (IndText ("Evidence Tampering: File Deleted: " ++ path
                       ++ " (Process: " ++ name ++ ") (User: " ++ user ++ ")"))
             (Str.ofZ (Z.of_nat (a_step a)) ++ ". Evidence Tampering: File "
              ++ path ++ " deleted"))
          (file_out file)).
Proof.
  intros Ha Hp Hn Hu. unfold SysmonLogParser.visitFile.
  rewrite Ha. simpl. rewrite Hp, Hn, Hu. simpl. reflexivity.
Qed.

Lemma sysmon_file_deleted_witness :
  let file := {| f_timestamp := VStr "t0";
                 f_filePath := VStr "C:\Users\a\evidence.log";
                 f_action := VStr "File Deleted";
                 f_activityType := VStr "File Deleted";
                 f_processId := VNum 7; f_image := VStr "C:\Windows\cmd.exe";
                 f_user := VStr "a"; f_processName := VStr "cmd.exe" |} in
  exists a1,
    SysmonLogParser.visitFile file Acc_init = Ok a1 /\
    a_attackChain a1
    = ["1. Evidence Tampering: File C:\Users\a\evidence.log deleted"].
Proof.
  intros file. eexists. split.
  - apply (sysmon_file_deleted_is_tampering file Acc_init
             "C:\Users\a\evidence.log" "cmd.exe" "a"); reflexivity.
  - reflexivity.
Defined.

(** * Further properties of the parsers *)

(** ** The loop over the files *)

Lemma forEach_app {A} (f : A -> M unit) (l1 l2 : list A) st :
  forEach f (l1 ++ l2) st = (forEach f l1 ;; forEach f l2)%parser st.
Proof.
  revert st. induction l1 as [|a l1 IH]; intros st; simpl.
  - reflexivity.
  - unfold bind. destruct (f a st) as [[[]|e] st1]; [|reflexivity].
    rewrite IH. reflexivity.
Qed.

Lemma forEach_skip_one {A} (f : A -> M unit) (c : A) (l1 l2 : list A) :
  (forall st, f c st = (Ok tt, st)) ->
  forall st, forEach f (l1 ++ c :: l2) st = forEach f (l1 ++ l2) st.
Proof.
  intros Hc st. rewrite !forEach_app. unfold bind.
  destruct (forEach f l1 st) as [[[]|e] st1]; [|reflexivity].
  simpl. unfold bind. now rewrite (Hc st1).
Qed.

Lemma forEach_returns {A} (f : A -> M unit) (l : list A) :
  (forall a st, fst (f a st) = Ok tt) ->
  forall st, fst (forEach f l st) = Ok tt.
Proof.
  intros Hf. induction l as [|a l IH]; intros st; simpl.
  - reflexivity.
  - unfold bind. specialize (Hf a st).
    destruct (f a st) as [[[]|e] st1]; simpl in Hf; [apply IH | discriminate].
Qed.

(** A run whose parsing stage cannot throw returns what the visualization
    pass returns on the parsed data. *)
Lemma run_is_pass (parseByFormat : string -> string -> M unit)
  (gen : PD.t -> Result Viz.t) files format st :
  (forall content st', fst (parseByFormat content format st') = Ok tt) ->
  let run := (reset ;;
              forEach (fun content => parseByFormat content format) files ;;
              d <- (fun st => (Ok (parsedData st), st)) ;;
              lift (gen d))%parser in
  fst (run st) = gen (parsedData (snd (run st))).
Proof.
  intros Hp. cbv zeta. rewrite (bind_Ok _ _ _ _ _ (reset_run st)).
  pose proof (forEach_returns (fun content => parseByFormat content format) files
                (fun c s => Hp c s)
                {| parsedData := PD.empty; clock := clock st |}) as Hr.
  unfold bind at 1 3.
  destruct (forEach _ files _) as [[[]|e] st1]; simpl in Hr; [|discriminate].
  reflexivity.
Qed.

Lemma try_catch_returns (m : M unit) st : fst (try_catch m st) = Ok tt.
Proof. reflexivity. Qed.

(** X3. In the Sysmon, Defender and Wazuh adapters no exception of the
    parsing stage escapes: [parseByFormat] always returns, whatever the
    content and the format, and [parseLogs] returns or throws exactly as
    [generateVisualizationData] does on the data parsed. *)
Theorem parsing_stage_never_throws `{Host}
  (files : list string) (format : string) (st : State) :
  (forall content st',
     fst (SysmonLogParser.parseByFormat content format st') = Ok tt /\
     fst (DefenderLogParser.parseByFormat content format st') = Ok tt /\
     fst (WazuhLogParser.parseByFormat content format st') = Ok tt) /\
  fst (parseLogs sysmon files format st)
  = SysmonLogParser.generateVisualizationData (data_after sysmon files format st) /\
  fst (parseLogs defender files format st)
  = DefenderLogParser.generateVisualizationData (data_after defender files format st) /\
  fst (parseLogs wazuh files format st)
  = WazuhLogParser.generateVisualizationData (data_after wazuh files format st).
Proof.
  assert (Hs : forall content st',
             fst (SysmonLogParser.parseByFormat content format st') = Ok tt).
  { intros. unfold SysmonLogParser.parseByFormat.
    destruct (String.eqb format "sysmon"); reflexivity. }
  assert (Hd : forall content st',
             fst (DefenderLogParser.parseByFormat content format st') = Ok tt).
  { intros. unfold DefenderLogParser.parseByFormat.
    destruct (String.eqb format "defender"); reflexivity. }
  assert (Hw : forall content st',
             fst (WazuhLogParser.parseByFormat content format st') = Ok tt).
  { intros. unfold WazuhLogParser.parseByFormat.
    destruct (String.eqb format "wazuh"); reflexivity. }
  split; [intros; auto|].
  unfold data_after. simpl.
  split; [|split]; apply run_is_pass; assumption.
Qed.

(** ** Files that cannot be read *)

Lemma run_skip_one (parseByFormat : string -> string -> M unit)
  (gen : PD.t -> Result Viz.t) (before after : list string) content format st :
  (forall st', parseByFormat content format st' = (Ok tt, st')) ->
  let run files := (reset ;;
                    forEach (fun content => parseByFormat content format) files ;;
                    d <- (fun st => (Ok (parsedData st), st)) ;;
                    lift (gen d))%parser in
  run (before ++ content :: after)%list st = run (before ++ after)%list st.
Proof.
  intros Hc. cbv zeta beta. rewrite !(bind_Ok _ _ _ _ _ (reset_run st)).
  unfold bind at 1 3.
  now rewrite (forEach_skip_one _ content before after Hc).
Qed.

(** X4. A file whose content [JSON.parse] cannot read (for the ELK
    adapter: neither as a whole nor line by line) is skipped: the run has
    the outcome it has without that file, whatever comes before and after
    it in the batch. *)
Theorem unreadable_file_is_skipped `{Host} (a : Adapter)
  (before after : list string) (content format : string) (st : State) :
  In a adapters -> unreadable a content ->
  parseLogs a (before ++ content :: after)%list format st
  = parseLogs a (before ++ after)%list format st.
Proof.
  intros Hin [Hp Hl]. simpl in Hin.
  destruct Hin as [<-|[<-|[<-|[<-|[]]]]]; simpl in *;
    apply run_skip_one; intros st'.
  - unfold SysmonLogParser.parseByFormat, SysmonLogParser.parseSysmonLogs,
      try_catch, bind, lift, JSON_parse_or_throw.
    rewrite Hp. destruct (String.eqb format "sysmon"); reflexivity.
  - unfold ElkLogParser.parseByFormat, ElkLogParser.parseELKLogs.
    rewrite Hp, (Hl eq_refl). destruct (String.eqb format "elk"); reflexivity.
  - unfold DefenderLogParser.parseByFormat, DefenderLogParser.parseDefenderLogs,
      try_catch, bind, lift, JSON_parse_or_throw.
    rewrite Hp. destruct (String.eqb format "defender"); reflexivity.
  - unfold WazuhLogParser.parseByFormat, WazuhLogParser.parseWazuhLogs,
      try_catch, bind, lift, JSON_parse_or_throw.
    rewrite Hp. destruct (String.eqb format "wazuh"); reflexivity.
Qed.

Lemma unreadable_file_witness :
  let good := Json.quoted "[{'EventID':3,'DestinationIp':'10.0.0.1','UtcTime':'u'}]" in
  let bad := "{ not json" in
  @unreadable demo_host (@sysmon demo_host) bad /\
  parseLogs (@sysmon demo_host) ([good] ++ bad :: [good])%list "sysmon" fresh
  = parseLogs (@sysmon demo_host) ([good] ++ [good])%list "sysmon" fresh.
Proof.
  intros good bad.
  assert (Hu : @unreadable demo_host (@sysmon demo_host) bad).
  { split; [vm_compute; reflexivity | intros D; discriminate D]. }
  split; [exact Hu|].
  apply (@unreadable_file_is_skipped demo_host); [simpl; auto | exact Hu].
Defined.

(** ** Line-delimited JSON in the ELK adapter *)

Lemma parseLines_Some `{Host} lines vs :
  ElkLogParser.parseLines lines = Some vs <->
  Forall2 (fun line v => JSON_parse line = Some v) lines vs.
Proof.
  revert vs. induction lines as [|line lines IH]; intros vs; simpl.
  - split.
    + intros E. injection E as <-. constructor.
    + intros F. inversion F. reflexivity.
  - destruct (JSON_parse line) as [v|] eqn:Ev.
    + destruct (ElkLogParser.parseLines lines) as [vs'|] eqn:El.
      * split.
        -- intros E. injection E as <-. constructor; [exact Ev | now apply IH].
        -- intros F. inversion F as [|? v' ? vs'' E1 F']; subst.
           rewrite Ev in E1. injection E1 as <-.
           apply IH in F'. now injection F' as <-.
      * split; [discriminate|].
        intros F. inversion F as [|? v' ? vs'' E1 F']; subst.
        apply IH in F'. discriminate.
    + split; [discriminate|].
      intros F. inversion F as [|? v' ? vs'' E1 F']; subst.
      rewrite Ev in E1. discriminate.
Qed.

Lemma parseLines_None `{Host} lines :
  (exists line, In line lines /\ JSON_parse line = None) ->
  ElkLogParser.parseLines lines = None.
Proof.
  intros (line & Hin & Hn). induction lines as [|l lines IH]; simpl in *.
  - contradiction.
  - destruct Hin as [->|Hin].
    + now rewrite Hn.
    + destruct (JSON_parse l); [|reflexivity]. now rewrite (IH Hin).
Qed.

(** X5. When the whole content of a file is not one JSON text, the ELK
    adapter reads it line by line: if every line of the trimmed content is
    a JSON text, the log entries are the values of the lines, in order; if
    one line is not, the whole file is skipped, its good lines included. *)
Theorem elk_reads_line_delimited_json `{Host} (content : string) :
  JSON_parse content = None ->
  (forall vs,
     Forall2 (fun line v => JSON_parse line = Some v) (lines_of content) vs ->
     ElkLogParser.parseELKLogs content = forEach ElkLogParser.processLog vs) /\
  ((exists line, In line (lines_of content) /\ JSON_parse line = None) ->
   forall st, ElkLogParser.parseELKLogs content st = (Ok tt, st)).
Proof.
  intros Hp. unfold lines_of. split.
  - intros vs HF. apply parseLines_Some in HF.
    unfold ElkLogParser.parseELKLogs. now rewrite Hp, HF.
  - intros Hbad st. apply parseLines_None in Hbad.
    unfold ElkLogParser.parseELKLogs. now rewrite Hp, Hbad.
Qed.

Lemma elk_line_delimited_witness :
  let line1 := Json.quoted "{'DestinationIp':'10.1.2.3'}" in
  let line2 := Json.quoted "{'QueryName':'example.org'}" in
  let content := line1 ++ String "010"%char line2 ++ String "010"%char "" in
  let broken := line1 ++ String "010"%char (String "010"%char line2) in
  @ElkLogParser.parseELKLogs demo_host content
  = forEach ElkLogParser.processLog
      [VObj [("DestinationIp", VStr "10.1.2.3")];
       VObj [("QueryName", VStr "example.org")]] /\
  @ElkLogParser.parseELKLogs demo_host broken fresh = (Ok tt, fresh).
Proof.
  intros line1 line2 content broken. split.
  - refine (proj1 (@elk_reads_line_delimited_json demo_host content _) _ _).
    + vm_compute; reflexivity.
    + assert (E : lines_of content = [line1; line2])
        by (vm_compute; reflexivity).
      rewrite E.
      constructor; [vm_compute; reflexivity|].
      constructor; [vm_compute; reflexivity|].
      constructor.
  - refine (proj2 (@elk_reads_line_delimited_json demo_host broken _) _ fresh).
    + vm_compute; reflexivity.
    + exists "". split; [vm_compute; auto | vm_compute; reflexivity].
Defined.

(** ** The IP classifier on values that are not strings *)

Lemma isInternalIP_throws v :
  isInternalIP v = Throw TypeError <-> truthy_non_string v.
Proof.
  unfold truthy_non_string. split.
  - intros E. destruct v; simpl in E; try discriminate E;
      try (split; [reflexivity | intros s D; discriminate D]).
    + destruct b; [|discriminate E].
      split; [reflexivity | intros s D; discriminate D].
    + unfold isInternalIP in E. simpl in E.
      destruct (n =? 0) eqn:En; [discriminate E|].
      split; [simpl; now rewrite En | intros s D; discriminate D].
    + destruct (isInternalIP_string s) as (b & Eb & _). rewrite Eb in E.
      discriminate E.
  - intros [T N]. destruct v; simpl in T; try discriminate T;
      try reflexivity.
    + now subst b.
    + unfold isInternalIP. simpl.
      destruct (n =? 0); [discriminate T | reflexivity].
    + now destruct (N s).
Qed.

Lemma pass_needs_classified_connections d b conn :
  c2_findings d b -> In conn (PD.networkConnections d) ->
  ~ truthy_non_string (n_destinationIp conn).
Proof.
  intros (per & rt & rb & HF & _) Hin Hbad.
  apply isInternalIP_throws in Hbad.
  assert (Hall : forall x, In x (PD.networkConnections d) ->
                           isInternalIP (n_destinationIp x) <> Throw TypeError).
  { clear Hin Hbad. induction HF as [|x p l per' Hx _ IH].
    - intros x [].
    - intros y [<-|Hy]; [|now apply IH].
      unfold c2_rule in Hx. intros E. now rewrite E in Hx. }
  now apply (Hall conn Hin).
Qed.

(** X6. [isInternalIP] answers false on every falsy value, throws a
    TypeError exactly on the truthy values that are not strings, and so a
    single parsed connection whose destination IP is such a value (a
    number, say) makes the Sysmon, ELK and Defender passes return no
    bundle at all. *)
Theorem non_string_destination_fails_the_pass :
  (forall v, JS.truthy v = false -> isInternalIP v = Ok false) /\
  (forall v, isInternalIP v = Throw TypeError <-> truthy_non_string v) /\
  (forall d conn,
     In conn (PD.networkConnections d) ->
     truthy_non_string (n_destinationIp conn) ->
     forall b,
       SysmonLogParser.generateVisualizationData d <> Ok b /\
       ElkLogParser.generateVisualizationData d <> Ok b /\
       DefenderLogParser.generateVisualizationData d <> Ok b).
Proof.
  split; [|split].
  - intros v T. unfold isInternalIP. now rewrite T.
  - exact isInternalIP_throws.
  - intros d conn Hin Hbad b. repeat split; intros E.
    + apply (@sysmon_c2_findings demo_host) in E.
      exact (pass_needs_classified_connections d b conn E Hin Hbad).
    + apply (@elk_c2_findings demo_host) in E.
      exact (pass_needs_classified_connections d b conn E Hin Hbad).
    + apply (@defender_c2_findings demo_host) in E.
      exact (pass_needs_classified_connections d b conn E Hin Hbad).
Qed.

Lemma non_string_destination_witness :
  let d := data_after (@sysmon demo_host)
             [Json.quoted "[{'EventID':3,'DestinationIp':167772161,'UtcTime':'u'}]"]
             "sysmon" fresh in
  map n_destinationIp (PD.networkConnections d) = [VNum 167772161] /\
  forall b, SysmonLogParser.generateVisualizationData d <> Ok b.
Proof.
  intros d. split; [vm_compute; reflexivity|].
  intros b.
  apply (proj2 (proj2 non_string_destination_fails_the_pass) d
           {| n_timestamp := VStr "u"; n_sourceIp := VUndefined;
              n_sourcePort := VUndefined; n_destinationIp := VNum 167772161;
              n_destinationPort := VUndefined; n_protocol := VUndefined;
              n_processId := VUndefined; n_image := VUndefined;
              n_user := VUndefined; n_processName := VStr "N/A" |}).
  - vm_compute. left. reflexivity.
  - split; [reflexivity | intros s D; discriminate D].
Defined.

(** ** Substrings *)

Lemma prefix_spec p s :
  String.prefix p s = true <-> exists post, s = p ++ post.
Proof.
  revert s. induction p as [|a p IH]; intros s.
  - split; [intros _; now exists s | intros _; now destruct s].
  - destruct s as [|b s]; simpl.
    + split; [discriminate | intros (post & D); discriminate D].
    + destruct (ascii_dec a b) as [->|Hne].
      * rewrite IH. split.
        -- intros (post & ->). now exists post.
        -- intros (post & D). injection D as ->. now exists post.
      * split; [discriminate|].
        intros (post & D). injection D as D _. now destruct Hne.
Qed.

Lemma includes_spec needle s :
  Str.includes needle s = true <-> contains needle s.
Proof.
  unfold contains. induction s as [|c s IH]; cbn [Str.includes].
  - rewrite orb_false_r, prefix_spec. split.
    + intros (post & E). now exists "", post.
    + intros (pre & post & E). destruct pre as [|x pre]; [now exists post|].
      discriminate E.
  - rewrite orb_true_iff, prefix_spec, IH. split.
    + intros [(post & E)|(pre & post & E)].
      * now exists "", post.
      * exists (String c pre), post. simpl. now rewrite E.
    + intros (pre & post & E). destruct pre as [|x pre].
      * left. now exists post.
      * right. simpl in E. injection E as _ E. now exists pre, post.
Qed.

(** ** The rules of the file and connection visits *)

Lemma eq_num_spec v n : JS.eq_num v n = true <-> v = VNum n.
Proof.
  destruct v; simpl; try (split; [discriminate | intros D; discriminate D]).
  rewrite Z.eqb_eq. split; [now intros -> | intros D; now injection D].
Qed.

(** X7. In the Sysmon and Defender passes, a file activity with action
    'File Created' and a string path is a staging finding exactly when the
    path contains 'Temp' somewhere (in this case): then each pass adds one
    indicator and one chain entry, numbered with the current step, with its
    own wording; otherwise the record is only copied to the file map. *)
Theorem file_created_in_temp_is_staging
  (file : FileActivityEvent) (a : Acc) (path name user : string) :
  f_action file = VStr "File Created" ->
  f_filePath file = VStr path ->
  JS.ToString (JS.or (f_processName file) (VStr "N/A")) = Ok name ->
  JS.ToString (f_user file) = Ok user ->
  (contains "Temp" path ->
   SysmonLogParser.visitFile file a
   = Ok (push_file
           (push_finding a
              (IndText ("Exfiltration Staging: File created in temp for potential exfiltration: "
                        ++ path ++ " (Process: " ++ name ++ ") (User: "
                        ++ user ++ ")"))
              (Str.ofZ (Z.of_nat (a_step a))
               ++ ". Exfiltration: Data staged for exfiltration via " ++ path))
           (file_out file)) /\
   DefenderLogParser.visitFile file a
   = Ok (push_file
           (push_finding a
              (IndText ("Exfiltration Staging: File created in temp: "
                        ++ path ++ " (Process: " ++ name ++ ")"))
              (Str.ofZ (Z.of_nat (a_step a))
               ++ ". Exfiltration: Data staged in " ++ path))
           (file_out file))) /\
  (~ contains "Temp" path ->
   SysmonLogParser.visitFile file a = Ok (push_file a (file_out file)) /\
   DefenderLogParser.visitFile file a = Ok (push_file a (file_out file))).
Proof.
  intros Ha Hp Hn Hu.
  unfold SysmonLogParser.visitFile, DefenderLogParser.visitFile.
  rewrite Ha, Hp. cbn [JS.eq_str String.eqb Ascii.eqb Bool.eqb JS.includes].
  change (String.eqb "File Created" "File Created") with true. cbv iota.
  split; intros Hc.
  - apply includes_spec in Hc. rewrite Hc. cbn [rbind].
    cbn [template JS.ToString]. rewrite Hn, Hu. cbn [rbind].
    unfold Step. cbn [template rbind]. rewrite ?append_empty_r.
    split; reflexivity.
  - assert (E : Str.includes "Temp" path = false).
    { destruct (Str.includes "Temp" path) eqn:E; [|reflexivity].
      now apply includes_spec in E. }
    rewrite E. cbn [rbind]. split; reflexivity.
Qed.

Lemma file_created_in_temp_witness :
  let file path :=
    {| f_timestamp := VStr "t0"; f_filePath := VStr path;
       f_action := VStr "File Created"; f_activityType := VStr "File Created";
       f_processId := VNum 7; f_image := VStr "C:\Windows\cmd.exe";
       f_user := VStr "a"; f_processName := VStr "cmd.exe" |} in
  (exists a1,
     DefenderLogParser.visitFile (file "C:\Docs\Template.docx") Acc_init = Ok a1 /\
     a_attackChain a1
     = ["1. Exfiltration: Data staged in C:\Docs\Template.docx"]) /\
  (exists a1,
     SysmonLogParser.visitFile (file "C:\Windows\temp\x.bin") Acc_init = Ok a1 /\
     a_attackChain a1 = []).
Proof.
  intros file. split; eexists; split.
  - apply (proj1 (file_created_in_temp_is_staging
                    (file "C:\Docs\Template.docx") Acc_init
                    "C:\Docs\Template.docx" "cmd.exe" "a"
                    eq_refl eq_refl eq_refl eq_refl)).
    now exists "C:\Docs\", "late.docx".
  - reflexivity.
  - apply (proj2 (file_created_in_temp_is_staging
                    (file "C:\Windows\temp\x.bin") Acc_init
                    "C:\Windows\temp\x.bin" "cmd.exe" "a"
                    eq_refl eq_refl eq_refl eq_refl)).
    intros Hc. apply includes_spec in Hc. discriminate Hc.
  - reflexivity.
Defined.

(** X8. A connection to an internal destination is never a
    command-and-control finding. In the Sysmon pass it is a lateral-movement
    finding exactly when its destination port is the number 445 (the
    string '445' does not count): one indicator and one chain entry,
    numbered with the current step. In the ELK and Defender passes it is
    only copied to the network map, whatever the port. *)
Theorem internal_smb_is_lateral_movement
  (conn : NetworkConnectionEvent) (a : Acc) (src dst name : string) :
  isInternalIP (n_destinationIp conn) = Ok true ->
  JS.ToString (n_sourceIp conn) = Ok src ->
  JS.ToString (n_destinationIp conn) = Ok dst ->
  JS.ToString (JS.or (n_processName conn) (VStr "N/A")) = Ok name ->
  (n_destinationPort conn = VNum 445 ->
   SysmonLogParser.visitConnection conn a
   = Ok (push_connection
           (push_finding a
              (IndText ("Lateral Movement - SMB: Internal SMB connection: "
                        ++ src ++ " -> " ++ dst ++ " (Process: " ++ name ++ ")"))
              (Str.ofZ (Z.of_nat (a_step a))
               ++ ". Lateral Movement: Internal SMB connection from "
               ++ src ++ " to " ++ dst))
           (connection_out conn))) /\
  (n_destinationPort conn <> VNum 445 ->
   SysmonLogParser.visitConnection conn a
   = Ok (push_connection a (connection_out conn))) /\
  ElkLogParser.visitConnection conn a
  = Ok (push_connection a (connection_out conn)) /\
  DefenderLogParser.visitConnection conn a
  = Ok (push_connection a (connection_out conn)).
Proof.
  intros Hi Hs Hd Hn.
  unfold SysmonLogParser.visitConnection, ElkLogParser.visitConnection,
    DefenderLogParser.visitConnection.
  rewrite Hi. cbn [rbind negb andb].
  repeat split.
  - intros Hp. rewrite Hp. cbn [JS.eq_num]. change (445 =? 445) with true.
    cbv iota. cbn [template]. rewrite Hs, Hd, Hn. cbn [rbind].
    unfold Step. cbn [template rbind]. rewrite ?append_empty_r. reflexivity.
  - intros Hp.
    assert (E : JS.eq_num (n_destinationPort conn) 445 = false).
    { destruct (JS.eq_num (n_destinationPort conn) 445) eqn:E; [|reflexivity].
      now apply eq_num_spec in E. }
    rewrite E. reflexivity.
Qed.

Lemma internal_smb_witness :
  let conn port :=
    {| n_timestamp := VStr "t0"; n_sourceIp := VStr "10.0.0.5";
       n_sourcePort := VNum 50000; n_destinationIp := VStr "10.0.0.9";
       n_destinationPort := port; n_protocol := VStr "tcp";
       n_processId := VNum 4; n_image := VStr "C:\Windows\System32\ntoskrnl.exe";
       n_user := VStr "SYSTEM"; n_processName := VStr "ntoskrnl.exe" |} in
  (exists a1,
     SysmonLogParser.visitConnection (conn (VNum 445)) Acc_init = Ok a1 /\
     a_attackChain a1
     = ["1. Lateral Movement: Internal SMB connection from 10.0.0.5 to 10.0.0.9"]) /\
  (exists a1,
     SysmonLogParser.visitConnection (conn (VStr "445")) Acc_init = Ok a1 /\
     a_attackChain a1 = []).
Proof.
  intros conn.
  assert (Hi : isInternalIP (VStr "10.0.0.9") = Ok true)
    by (vm_compute; reflexivity).
  split; eexists; split.
  - apply (proj1 (internal_smb_is_lateral_movement (conn (VNum 445)) Acc_init
                    "10.0.0.5" "10.0.0.9" "ntoskrnl.exe"
                    Hi eq_refl eq_refl eq_refl)).
    reflexivity.
  - reflexivity.
  - apply (proj1 (proj2 (internal_smb_is_lateral_movement
                           (conn (VStr "445")) Acc_init
                           "10.0.0.5" "10.0.0.9" "ntoskrnl.exe"
                           Hi eq_refl eq_refl eq_refl))).
    discriminate.
  - reflexivity.
Defined.

(** ** The data only grow *)

Lemma prefix_of_refl {A} (l : list A) : prefix_of l l.
Proof. exists []. now rewrite app_nil_r. Qed.

Lemma prefix_of_trans {A} (l1 l2 l3 : list A) :
  prefix_of l1 l2 -> prefix_of l2 l3 -> prefix_of l1 l3.
Proof.
  intros [m1 ->] [m2 ->]. exists (m1 ++ m2)%list. now rewrite app_assoc.
Qed.

Lemma prefix_of_snoc {A} (l : list A) (x : A) : prefix_of l (l ++ [x]).
Proof. now exists [x]. Qed.

Lemma extends_refl d : extends d d.
Proof. repeat split; apply prefix_of_refl. Qed.

Lemma extends_trans d1 d2 d3 : extends d1 d2 -> extends d2 d3 -> extends d1 d3.
Proof.
  intros (A1 & A2 & A3 & A4 & A5 & A6 & A7 & A8)
         (B1 & B2 & B3 & B4 & B5 & B6 & B7 & B8).
  repeat split; eapply prefix_of_trans; eassumption.
Qed.

Lemma grows_reads {A} (m : M A) : reads m -> grows m.
Proof. intros Hm st. rewrite Hm. apply extends_refl. Qed.

Lemma grows_bind {A B} (m : M A) (f : A -> M B) :
  grows m -> (forall a, grows (f a)) -> grows (bind m f).
Proof.
  intros Hm Hf st. unfold bind. specialize (Hm st).
  destruct (m st) as [[a|e] st1]; simpl in *.
  - eapply extends_trans; [exact Hm | apply Hf].
  - exact Hm.
Qed.

Lemma grows_try (m : M unit) : grows m -> grows (try_catch m).
Proof. intros Hm st. apply Hm. Qed.

Lemma grows_forEach {A} (f : A -> M unit) (l : list A) :
  (forall a, grows (f a)) -> grows (forEach f l).
Proof.
  intros Hf. induction l as [|a l IH]; simpl.
  - apply grows_reads, reads_ret.
  - apply grows_bind; [apply Hf | intros; apply IH].
Qed.

Lemma grows_push_process r : grows (push_process r).
Proof.
  intros st. simpl.
  repeat split; simpl; try apply prefix_of_refl; apply prefix_of_snoc.
Qed.

Lemma grows_push_network r : grows (push_network r).
Proof.
  intros st. simpl.
  repeat split; simpl; try apply prefix_of_refl; apply prefix_of_snoc.
Qed.

Lemma grows_push_fileActivity r : grows (push_fileActivity r).
Proof.
  intros st. simpl.
  repeat split; simpl; try apply prefix_of_refl; apply prefix_of_snoc.
Qed.

Lemma grows_push_dns r : grows (push_dns r).
Proof.
  intros st. simpl.
  repeat split; simpl; try apply prefix_of_refl; apply prefix_of_snoc.
Qed.

Lemma grows_push_threat r : grows (push_threat r).
Proof.
  intros st. simpl.
  repeat split; simpl; try apply prefix_of_refl; apply prefix_of_snoc.
Qed.

Lemma grows_push_registry r : grows (push_registry r).
Proof.
  intros st. simpl.
  repeat split; simpl; try apply prefix_of_refl; apply prefix_of_snoc.
Qed.

Ltac grows_pure :=
  apply grows_reads;
  unfold SysmonLogParser.imageName, ElkLogParser.imageOf, ElkLogParser.nameOf,
    ElkLogParser.pidOf, ElkLogParser.userOf, ElkLogParser.either,
    DefenderLogParser.pathOf, WazuhLogParser.auditEvent;
  solve [reads_tac].

Ltac grows_tac :=
  repeat first
    [ grows_pure
    | match goal with
      | |- grows (push_process _) => apply grows_push_process
      | |- grows (push_network _) => apply grows_push_network
      | |- grows (push_fileActivity _) => apply grows_push_fileActivity
      | |- grows (push_dns _) => apply grows_push_dns
      | |- grows (push_threat _) => apply grows_push_threat
      | |- grows (push_registry _) => apply grows_push_registry
      | |- grows (try_catch _) => apply grows_try
      | |- grows (forEach _ _) => apply grows_forEach; intros
      | |- grows (bind _ _) => apply grows_bind; [|intros]
      | |- grows (if ?b then _ else _) => destruct b
      | |- grows (match ?v with _ => _ end) => destruct v
      end ].

Lemma sysmon_grows `{Host} content format :
  grows (SysmonLogParser.parseByFormat content format).
Proof.
  unfold SysmonLogParser.parseByFormat, SysmonLogParser.parseSysmonLogs.
  destruct (String.eqb format "sysmon"); [|grows_pure].
  apply grows_try. apply grows_bind; [grows_pure | intros events].
  destruct events; try grows_pure.
  apply grows_forEach. intros event.
  unfold SysmonLogParser.processSysmonEvent,
    SysmonLogParser.processProcessCreation,
    SysmonLogParser.processNetworkConnection,
    SysmonLogParser.processFileActivity, SysmonLogParser.processDnsQuery.
  grows_tac.
Qed.

Lemma elk_processLog_grows `{Host} log : grows (ElkLogParser.processLog log).
Proof.
  unfold ElkLogParser.processLog, ElkLogParser.processGenericEvent,
    ElkLogParser.processCheck, ElkLogParser.networkCheck,
    ElkLogParser.fileCheck, ElkLogParser.dnsCheck.
  grows_tac.
Qed.

Lemma elk_grows `{Host} content format :
  grows (ElkLogParser.parseByFormat content format).
Proof.
  unfold ElkLogParser.parseByFormat, ElkLogParser.parseELKLogs.
  destruct (String.eqb format "elk"); [|grows_pure].
  destruct (JSON_parse content) as [v|].
  - destruct v; apply grows_forEach; intros; apply elk_processLog_grows.
  - destruct (ElkLogParser.parseLines _); [|grows_pure].
    apply grows_forEach; intros; apply elk_processLog_grows.
Qed.

Lemma defender_grows `{Host} content format :
  grows (DefenderLogParser.parseByFormat content format).
Proof.
  unfold DefenderLogParser.parseByFormat, DefenderLogParser.parseDefenderLogs.
  destruct (String.eqb format "defender"); [|grows_pure].
  apply grows_try. apply grows_bind; [grows_pure | intros events].
  destruct events; try grows_pure.
  apply grows_forEach. intros event.
  unfold DefenderLogParser.processDefenderEvent.
  grows_tac.
Qed.

Lemma wazuh_grows `{Host} content format :
  grows (WazuhLogParser.parseByFormat content format).
Proof.
  unfold WazuhLogParser.parseByFormat, WazuhLogParser.parseWazuhLogs.
  destruct (String.eqb format "wazuh"); [|grows_pure].
  apply grows_try. apply grows_bind; [grows_pure | intros events].
  destruct events; try grows_pure.
  apply grows_forEach. intros event.
  unfold WazuhLogParser.processAlert.
  grows_tac.
Qed.

Lemma run_data (parseByFormat : string -> string -> M unit)
  (gen : PD.t -> Result Viz.t) files format st :
  parsedData (snd ((reset ;;
                    forEach (fun content => parseByFormat content format) files ;;
                    d <- (fun st => (Ok (parsedData st), st)) ;;
                    lift (gen d))%parser st))
  = parsedData
      (snd (forEach (fun content => parseByFormat content format) files
              {| parsedData := PD.empty; clock := clock st |})).
Proof.
  rewrite (bind_Ok _ _ _ _ _ (reset_run st)). unfold bind.
  destruct (forEach _ files _) as [[[]|e] st1]; reflexivity.
Qed.

Lemma run_extends (parseByFormat : string -> string -> M unit)
  (gen : PD.t -> Result Viz.t) (files more : list string) format st :
  (forall content, grows (parseByFormat content format)) ->
  let run files := (reset ;;
                    forEach (fun content => parseByFormat content format) files ;;
                    d <- (fun st => (Ok (parsedData st), st)) ;;
                    lift (gen d))%parser in
  extends (parsedData (snd (run files st)))
          (parsedData (snd (run (files ++ more)%list st))).
Proof.
  intros Hg. cbv zeta beta. rewrite !run_data, forEach_app. unfold bind.
  destruct (forEach _ files _) as [[[]|e] st1]; simpl.
  - apply (grows_forEach (fun content => parseByFormat content format) more).
    intros content. apply Hg.
  - apply extends_refl.
Qed.

(** X9. Parsing only appends. [parseByFormat] of every adapter, whatever
    the content and the format and whether it returns or throws, leaves
    each list of [parsedData] as it was, with possibly more records at its
    end; so the data collected by [parseLogs] from a batch of files begin
    with the data it collects from any initial part of the batch: no later
    file removes, changes or reorders the records of an earlier one. *)
Theorem parsing_only_appends `{Host} (format : string) :
  (forall content,
     grows (SysmonLogParser.parseByFormat content format) /\
     grows (ElkLogParser.parseByFormat content format) /\
     grows (DefenderLogParser.parseByFormat content format) /\
     grows (WazuhLogParser.parseByFormat content format)) /\
  (forall a, In a adapters ->
     forall files more st,
       extends (data_after a files format st)
               (data_after a (files ++ more)%list format st)).
Proof.
  split.
  - intros content. split; [|split; [|split]].
    + apply sysmon_grows.
    + apply elk_grows.
    + apply defender_grows.
    + apply wazuh_grows.
  - intros a Hin files more st. unfold data_after. simpl in Hin.
    destruct Hin as [<-|[<-|[<-|[<-|[]]]]]; simpl; apply run_extends; intros.
    + apply sysmon_grows.
    + apply elk_grows.
    + apply defender_grows.
    + apply wazuh_grows.
Qed.

Lemma parsing_only_appends_witness :
  let first := Json.quoted "[{'EventID':3,'DestinationIp':'8.8.8.8','UtcTime':'u1'}]" in
  let second := Json.quoted "[{'EventID':3,'DestinationIp':'10.0.0.1','UtcTime':'u2'}]" in
  map n_destinationIp
    (PD.networkConnections (data_after (@sysmon demo_host) [first] "sysmon" fresh))
  = [VStr "8.8.8.8"] /\
  extends (data_after (@sysmon demo_host) [first] "sysmon" fresh)
          (data_after (@sysmon demo_host) [first; second] "sysmon" fresh).
Proof.
  intros first second. split; [vm_compute; reflexivity|].
  apply (proj2 (@parsing_only_appends demo_host "sysmon") sysmon
           (or_introl eq_refl) [first] [second] fresh).
Defined.

(** ** What the bundle is made of *)

(** X10. The bundle is made of the connections, the file activities and
    the DNS queries, and for Defender and Wazuh of the threats: the
    process events, the registry changes and, for Sysmon and ELK, the
    threats of [parsedData] are never read by
    [generateVisualizationData]. *)
Theorem processes_never_reach_the_bundle (d d' : PD.t) :
  same_reported d d' ->
  SysmonLogParser.generateVisualizationData d
  = SysmonLogParser.generateVisualizationData d' /\
  ElkLogParser.generateVisualizationData d
  = ElkLogParser.generateVisualizationData d' /\
  (PD.threats d = PD.threats d' ->
   DefenderLogParser.generateVisualizationData d
   = DefenderLogParser.generateVisualizationData d' /\
   WazuhLogParser.generateVisualizationData d
   = WazuhLogParser.generateVisualizationData d').
Proof.
  intros (Hn & Hf & Hq).
  unfold SysmonLogParser.generateVisualizationData,
    ElkLogParser.generateVisualizationData,
    DefenderLogParser.generateVisualizationData,
    WazuhLogParser.generateVisualizationData.
  rewrite Hn, Hf, Hq. split; [reflexivity|]. split; [reflexivity|].
  intros Ht. rewrite Ht. split; reflexivity.
Qed.

Lemma processes_never_reach_the_bundle_witness :
  let d := data_after (@defender demo_host)
             [Json.quoted "[{'EventType':'ProcessCreated','TimeGenerated':'u','InitiatingProcessFileName':'a.exe'},{'EventType':'RegistryValueSet','TimeGenerated':'u','RegistryKey':'HKLM'}]"]
             "defender" fresh in
  (length (PD.processes d) = 1 /\ length (PD.registryChanges d) = 1)%nat /\
  DefenderLogParser.generateVisualizationData d
  = DefenderLogParser.generateVisualizationData PD.empty.
Proof.
  intros d. split; [vm_compute; split; reflexivity|].
  apply (proj2 (proj2 (processes_never_reach_the_bundle d PD.empty
                         ltac:(vm_compute; repeat split)))).
  vm_compute. reflexivity.
Defined.

(** ** The labels of the records *)

Lemma eq_str_spec v s : JS.eq_str v s = true <-> v = VStr s.
Proof.
  destruct v; simpl; try (split; [discriminate | intros D; discriminate D]).
  rewrite String.eqb_eq. split; [now intros -> | intros D; now injection D].
Qed.

Section SysmonLabels.
Context `{Host}.
Let I := all_records sysmon_labels.

Ltac kfield := eapply keeps_bind; [apply keeps_field | intros ? ?].
Ltac kany :=
  eapply keeps_bind;
    [apply keeps_any; unfold SysmonLogParser.imageName, orNow; reads_tac
    | intros ? _].

Lemma sysmon_label_process event :
  keeps I (SysmonLogParser.processProcessCreation event) any.
Proof.
  unfold SysmonLogParser.processProcessCreation. do 8 kany.
  apply keeps_push_process. exact Logic.I.
Qed.

Lemma sysmon_label_network event :
  keeps I (SysmonLogParser.processNetworkConnection event) any.
Proof.
  unfold SysmonLogParser.processNetworkConnection. do 11 kany.
  apply keeps_push_network. exact Logic.I.
Qed.

Lemma sysmon_label_dns event :
  keeps I (SysmonLogParser.processDnsQuery event) any.
Proof.
  unfold SysmonLogParser.processDnsQuery. do 8 kany.
  apply keeps_push_dns. exact Logic.I.
Qed.

(** [processFileActivity] is only called on the three file events, so its
    [default] label is never used. *)
Lemma sysmon_label_file event EventID :
  JS.get event "EventID" = Ok EventID ->
  JS.eq_num EventID 11 || JS.eq_num EventID 23 || JS.eq_num EventID 15 = true ->
  keeps I (SysmonLogParser.processFileActivity event) any.
Proof.
  intros Hg Hid. unfold SysmonLogParser.processFileActivity.
  kfield. cbv beta in *.
  assert (a = EventID) by congruence. subst a.
  apply (keeps_bind _ _ _
           (fun action => action = "File Created" \/ action = "File Deleted"
                          \/ action = "File Stream Created") any).
  - destruct (JS.eq_num EventID 11); [apply keeps_ret; auto|].
    destruct (JS.eq_num EventID 23); [apply keeps_ret; auto|].
    destruct (JS.eq_num EventID 15); [apply keeps_ret; auto|].
    discriminate Hid.
  - intros action Ha. do 7 kany.
    apply keeps_push_fileActivity. split; [|reflexivity]. simpl.
    destruct Ha as [-> | [-> | ->]]; auto.
Qed.

Lemma sysmon_label_parseByFormat content format :
  keeps I (SysmonLogParser.parseByFormat content format) any.
Proof.
  unfold SysmonLogParser.parseByFormat, SysmonLogParser.parseSysmonLogs.
  destruct (String.eqb format "sysmon"); [|now apply keeps_ret].
  apply (keeps_try _ _ any).
  eapply keeps_bind; [apply keeps_any; reads_tac | intros events _].
  destruct events; try (now apply keeps_ret).
  apply keeps_forEach. intros event.
  unfold SysmonLogParser.processSysmonEvent. kfield. cbv beta in *.
  destruct (JS.eq_num a 1); [apply sysmon_label_process|].
  destruct (JS.eq_num a 3); [apply sysmon_label_network|].
  destruct (JS.eq_num a 11 || JS.eq_num a 23 || JS.eq_num a 15) eqn:T;
    [now apply (sysmon_label_file event a)|].
  destruct (JS.eq_num a 22); [apply sysmon_label_dns | now apply keeps_ret].
Qed.
End SysmonLabels.

Section ElkLabels.
Context `{Host}.
Let I := all_records elk_labels.

Ltac kfield := eapply keeps_bind; [apply keeps_field | intros ? ?].
Ltac kany :=
  eapply keeps_bind;
    [apply keeps_any;
     unfold ElkLogParser.either, ElkLogParser.imageOf, ElkLogParser.pidOf,
       ElkLogParser.userOf, ElkLogParser.nameOf, orNow; reads_tac
    | intros ? _].
Ltac kif :=
  match goal with
  | |- keeps _ (if ?b then _ else _) _ =>
      destruct b; [|now apply keeps_ret]
  end.

Lemma elk_label_file event timestamp :
  keeps I (ElkLogParser.fileCheck event timestamp) any.
Proof.
  unfold ElkLogParser.fileCheck. kany. kif. kany. kany. kfield.
  apply (keeps_bind _ _ _ (fun action => JS.truthy action = true) any).
  - destruct (JS.eq_num a2 11); [now apply keeps_ret|].
    destruct (JS.eq_num a2 23); [now apply keeps_ret|].
    kfield. cbv beta in *.
    destruct (JS.truthy (JS.optget a3 "action")) eqn:T;
      [|now apply keeps_ret].
    kfield. cbv beta in *.
    apply keeps_reads; [apply reads_lift|].
    intros st action E. simpl in E.
    assert (a4 = a3) by congruence. subst a4.
    apply get_optget in E. now subst action.
  - intros action Ha. kany. kany.
    apply keeps_push_fileActivity. now split.
Qed.

Lemma elk_label_processLog log :
  keeps I (ElkLogParser.processLog log) any.
Proof.
  unfold ElkLogParser.processLog, ElkLogParser.processGenericEvent.
  kany. kany.
  eapply keeps_bind with (R1 := any); [|intros _ _].
  { unfold ElkLogParser.processCheck. kany. kany. kif. do 4 kany.
    apply keeps_push_process. exact Logic.I. }
  eapply keeps_bind with (R1 := any); [|intros _ _].
  { unfold ElkLogParser.networkCheck. kany. kany. kif. do 7 kany.
    apply keeps_push_network. exact Logic.I. }
  eapply keeps_bind; [apply elk_label_file | intros _ _].
  unfold ElkLogParser.dnsCheck. kany. kif. do 5 kany.
  apply keeps_push_dns. exact Logic.I.
Qed.

Lemma elk_label_parseByFormat content format :
  keeps I (ElkLogParser.parseByFormat content format) any.
Proof.
  unfold ElkLogParser.parseByFormat, ElkLogParser.parseELKLogs.
  destruct (String.eqb format "elk"); [|now apply keeps_ret].
  destruct (JSON_parse content) as [v|].
  - destruct v; apply keeps_forEach, elk_label_processLog.
  - destruct (ElkLogParser.parseLines _); [|now apply keeps_ret].
    apply keeps_forEach, elk_label_processLog.
Qed.
End ElkLabels.

Section DefenderLabels.
Context `{Host}.
Let I := all_records defender_labels.

Ltac kfield := eapply keeps_bind; [apply keeps_field | intros ? ?].
Ltac kany :=
  eapply keeps_bind;
    [apply keeps_any; unfold DefenderLogParser.pathOf, orNow; reads_tac
    | intros ? _].

Lemma named_or_default user name :
  named (JS.or user (VStr "N/A")) (JS.or name (VStr "N/A")).
Proof. split; apply or_truthy; reflexivity. Qed.

Lemma defender_label_event event :
  keeps I (DefenderLogParser.processDefenderEvent event) any.
Proof.
  unfold DefenderLogParser.processDefenderEvent.
  kany. kany. kany. kany. kfield. cbv beta zeta in *.
  destruct (JS.eq_str a3 "ProcessCreated").
  { do 4 kany. apply keeps_push_process. apply named_or_default. }
  destruct (JS.eq_str a3 "NetworkConnection").
  { do 7 kany. apply keeps_push_network. apply named_or_default. }
  destruct (JS.eq_str a3 "FileCreated" || JS.eq_str a3 "FileDeleted") eqn:T.
  { kany. kfield. kfield. kany. kany. cbv beta in *.
    assert (a5 = a3) by congruence. assert (a6 = a3) by congruence. subst.
    apply keeps_push_fileActivity. split; [|apply named_or_default].
    unfold defender_file_label. simpl.
    destruct (JS.eq_str a3 "FileCreated") eqn:T1.
    - left. apply eq_str_spec in T1. auto.
    - right. simpl in T. apply eq_str_spec in T. auto. }
  destruct (JS.eq_str a3 "DnsQuery").
  { do 4 kany. apply keeps_push_dns. apply named_or_default. }
  destruct (JS.eq_str a3 "Detection").
  { kfield. kany. kany. kany. kfield. cbv beta in *.
    apply keeps_push_threat. repeat split. simpl. congruence. }
  destruct (JS.eq_str a3 "RegistryValueSet").
  { do 5 kany. apply keeps_push_registry. apply named_or_default. }
  now apply keeps_ret.
Qed.

Lemma defender_label_parseByFormat content format :
  keeps I (DefenderLogParser.parseByFormat content format) any.
Proof.
  unfold DefenderLogParser.parseByFormat, DefenderLogParser.parseDefenderLogs.
  destruct (String.eqb format "defender"); [|now apply keeps_ret].
  apply (keeps_try _ _ any).
  eapply keeps_bind; [apply keeps_any; reads_tac | intros events _].
  destruct events; try (now apply keeps_ret).
  apply keeps_forEach. apply defender_label_event.
Qed.
End DefenderLabels.

Lemma mapWazuhLevel_range `{Host} level s :
  WazuhLogParser.mapWazuhLevel level = Ok s ->
  severity_label (VStr s).
Proof.
  unfold WazuhLogParser.mapWazuhLevel, severity_label.
  destruct (negb (JS.truthy level)).
  { intros E. injection E as <-. auto. }
  destruct (WazuhLogParser.ge level 12) as [[|]|]; simpl;
    [intros E; injection E as <-; auto | | discriminate].
  destruct (WazuhLogParser.ge level 7) as [[|]|]; simpl;
    [intros E; injection E as <-; auto | | discriminate].
  destruct (WazuhLogParser.ge level 3) as [[|]|]; simpl;
    [intros E; injection E as <-; auto 6
    | intros E; injection E as <-; auto 6 | discriminate].
Qed.

Section WazuhLabels.
Context `{Host}.
Let I := all_records wazuh_labels.

Ltac kfield := eapply keeps_bind; [apply keeps_field | intros ? ?].
Ltac kany :=
  eapply keeps_bind;
    [apply keeps_any; unfold WazuhLogParser.auditEvent, orNow; reads_tac
    | intros ? _].

Lemma wazuh_label_threat alert timestamp rule data id description :
  JS.get rule "description" = Ok description ->
  keeps I
    (if JS.truthy id && JS.truthy description then
       threatName <- field rule "description" ;;
       ruleId <- field rule "id" ;;
       level <- field rule "level" ;;
       severity <- lift (WazuhLogParser.mapWazuhLevel level) ;;
       full_log <- field alert "full_log" ;;
       description' <- orM full_log (field rule "description") ;;
       ev <- WazuhLogParser.auditEvent data ;;
       processName <-
         orM (JS.optget (JS.optget ev "process") "name")
             (command <- field data "command" ;;
              ret (JS.or command (VStr "N/A"))) ;;
       push_threat
         {| t_timestamp := timestamp; t_threatName := threatName;
            t_rule := ruleId; t_severity := VStr severity;
            t_filePath := VUndefined; t_description := description';
            t_type := VStr "wazuh_alert"; t_processName := processName |}
     else ret tt)%parser any.
Proof.
  intros Gd.
  destruct (JS.truthy id && JS.truthy description) eqn:T;
    [|now apply keeps_ret].
  apply andb_true_iff in T. destruct T as [_ T].
  kany. kany. kany.
  apply (keeps_bind _ _ _ (fun s => severity_label (VStr s)) any).
  { apply keeps_reads; [apply reads_lift|].
    intros st s E. simpl in E. now apply mapWazuhLevel_range in E. }
  intros severity Hs. kany.
  apply (keeps_bind _ _ _ (fun v => JS.truthy v = true) any).
  { unfold orM. destruct (JS.truthy a2) eqn:T2; [now apply keeps_ret|].
    apply keeps_reads; [apply reads_field|].
    intros st v E. apply field_result in E. congruence. }
  intros description' Hd. kany.
  apply (keeps_bind _ _ _ (fun v => JS.truthy v = true) any).
  { unfold orM.
    destruct (JS.truthy (JS.optget (JS.optget a3 "process") "name")) eqn:T3;
      [now apply keeps_ret|].
    kany. apply keeps_ret. apply or_truthy. reflexivity. }
  intros processName Hn.
  apply keeps_push_threat. repeat split; assumption.
Qed.

Lemma wazuh_label_alert alert :
  keeps I (WazuhLogParser.processAlert alert) any.
Proof.
  unfold WazuhLogParser.processAlert.
  kany. kany. kany. kany. kany. kfield. cbv beta zeta in *.
  eapply keeps_bind; [apply wazuh_label_threat; eassumption | intros _ _].
  kany. kany.
  match goal with
  | |- keeps _ (if ?b then _ else _) _ =>
      destruct b; [|now apply keeps_ret]
  end.
  kany. kany. kany. kfield. kfield. cbv beta in *.
  apply (keeps_bind _ _ _
           (fun act => exists s, JS.ToString a11 = Ok s /\
                                 act = "wazuh-fim-" ++ s) any).
  { apply keeps_reads; [apply reads_lift|].
    intros st act E. simpl in E.
    destruct (JS.ToString a11) as [s|]; simpl in E; [|discriminate].
    injection E as <-. exists s. now rewrite append_empty_r. }
  intros act (s & Hs & ->). kany. kany.
  apply keeps_push_fileActivity. exists s. simpl. split; [|reflexivity].
  congruence.
Qed.

Lemma wazuh_label_parseByFormat content format :
  keeps I (WazuhLogParser.parseByFormat content format) any.
Proof.
  unfold WazuhLogParser.parseByFormat, WazuhLogParser.parseWazuhLogs.
  destruct (String.eqb format "wazuh"); [|now apply keeps_ret].
  apply (keeps_try _ _ any).
  eapply keeps_bind; [apply keeps_any; reads_tac | intros events _].
  destruct events; try (now apply keeps_ret).
  apply keeps_forEach. apply wazuh_label_alert.
Qed.
End WazuhLabels.

Lemma sysmon_labelled `{Host} files format st :
  all_records sysmon_labels (data_after sysmon files format st).
Proof. apply run_keeps_shape. intros. apply sysmon_label_parseByFormat. Qed.

Lemma elk_labelled `{Host} files format st :
  all_records elk_labels (data_after elk files format st).
Proof. apply run_keeps_shape. intros. apply elk_label_parseByFormat. Qed.

Lemma defender_labelled `{Host} files format st :
  all_records defender_labels (data_after defender files format st).
Proof. apply run_keeps_shape. intros. apply defender_label_parseByFormat. Qed.

Lemma wazuh_labelled `{Host} files format st :
  all_records wazuh_labels (data_after wazuh files format st).
Proof. apply run_keeps_shape. intros. apply wazuh_label_parseByFormat. Qed.

(** X11. The action and the activity type of the file activities. After
    any run, every file activity of the Sysmon adapter has one of the
    actions 'File Created', 'File Deleted' and 'File Stream Created' and
    the same activity type (the label 'EventID n' of [processFileActivity]
    is never used); every one of the ELK adapter has a truthy action and
    the same activity type; every one of the Defender adapter is 'File
    Created' with type 'FileCreated' or 'File Deleted' with type
    'FileDeleted'; every one of the Wazuh adapter has as activity type
    'wazuh-fim-' followed by its action as a string. *)
Theorem file_activities_carry_their_labels `{Host}
  (files : list string) (format : string) (st : State) :
  Forall sysmon_file_label (PD.fileActivities (data_after sysmon files format st)) /\
  Forall elk_file_label (PD.fileActivities (data_after elk files format st)) /\
  Forall defender_file_label
    (PD.fileActivities (data_after defender files format st)) /\
  Forall wazuh_file_label (PD.fileActivities (data_after wazuh files format st)).
Proof.
  destruct (sysmon_labelled files format st) as (_ & _ & Hs & _).
  destruct (elk_labelled files format st) as (_ & _ & He & _).
  destruct (defender_labelled files format st) as (_ & _ & Hd & _).
  destruct (wazuh_labelled files format st) as (_ & _ & Hw & _).
  repeat split; try assumption.
  eapply Forall_impl; [|exact Hd]. simpl. tauto.
Qed.

(** X12. The threats. After any run of the Defender adapter every threat
    has the type 'defender_detection', its threat name as description and
    no rule; after any run of the Wazuh adapter every threat has the type
    'wazuh_alert', one of the severities 'low', 'medium', 'high' and
    'informational', a truthy description, a truthy process name and no
    file path. *)
Theorem threats_carry_their_labels `{Host}
  (files : list string) (format : string) (st : State) :
  Forall defender_threat_label (PD.threats (data_after defender files format st)) /\
  Forall wazuh_threat_label (PD.threats (data_after wazuh files format st)).
Proof.
  destruct (defender_labelled files format st) as (_ & _ & _ & _ & Hd & _).
  destruct (wazuh_labelled files format st) as (_ & _ & _ & _ & Hw & _).
  split; assumption.
Qed.

(** X13. After any run of the Defender adapter, every process, connection,
    file activity, DNS query and registry change has a truthy user and a
    truthy process name: an event without [UserName] or
    [InitiatingProcessFileName] gets 'N/A'. *)
Theorem defender_records_name_user_and_process `{Host}
  (files : list string) (format : string) (st : State) :
  let d := data_after defender files format st in
  Forall (fun r => named (p_user r) (p_processName r)) (PD.processes d) /\
  Forall (fun r => named (n_user r) (n_processName r)) (PD.networkConnections d) /\
  Forall (fun r => named (f_user r) (f_processName r)) (PD.fileActivities d) /\
  Forall (fun r => named (d_user r) (d_processName r)) (PD.dnsQueries d) /\
  Forall (fun r => named (r_user r) (r_processName r)) (PD.registryChanges d).
Proof.
  intros d.
  destruct (defender_labelled files format st)
    as (H1 & H2 & H3 & H4 & _ & H6 & _).
  repeat split; try assumption.
  eapply Forall_impl; [|exact H3]. simpl. tauto.
Qed.

(** ** A [null] among the events *)

Lemma forEach_cut {A} (f : A -> M unit) (bad : A) (l1 l2 : list A) e :
  (forall st, f bad st = (Throw e, st)) ->
  forall st, snd (forEach f (l1 ++ bad :: l2) st) = snd (forEach f l1 st).
Proof.
  intros Hb st. rewrite forEach_app. unfold bind.
  destruct (forEach f l1 st) as [[[]|e1] st1]; [|reflexivity].
  simpl. unfold bind. now rewrite (Hb st1).
Qed.

(** X14. A [null] in the array of a Sysmon, Defender or Wazuh file cuts the
    file short: reading its fields throws, the [catch] of the parsing
    function ends the file there, and the file is parsed as if the array
    stopped before the [null]: the events before it are kept, those after
    it are lost, and nothing is reported to the caller. *)
Theorem null_event_cuts_the_file_short `{Host}
  (content content' : string) (before after : list Value)
  (format : string) (st : State) :
  JSON_parse content = Some (VArr (before ++ VNull :: after)) ->
  JSON_parse content' = Some (VArr before) ->
  SysmonLogParser.parseByFormat content format st
  = SysmonLogParser.parseByFormat content' format st /\
  DefenderLogParser.parseByFormat content format st
  = DefenderLogParser.parseByFormat content' format st /\
  WazuhLogParser.parseByFormat content format st
  = WazuhLogParser.parseByFormat content' format st.
Proof.
  intros Hc Hc'.
  unfold SysmonLogParser.parseByFormat, SysmonLogParser.parseSysmonLogs,
    DefenderLogParser.parseByFormat, DefenderLogParser.parseDefenderLogs,
    WazuhLogParser.parseByFormat, WazuhLogParser.parseWazuhLogs.
  unfold try_catch, bind at 1 2 3 4 5 6, lift, JSON_parse_or_throw.
  rewrite Hc, Hc'. cbv iota beta.
  split; [|split].
  - destruct (String.eqb format "sysmon"); [|reflexivity].
    now rewrite (forEach_cut _ VNull before after TypeError).
  - destruct (String.eqb format "defender"); [|reflexivity].
    now rewrite (forEach_cut _ VNull before after TypeError).
  - destruct (String.eqb format "wazuh"); [|reflexivity].
    now rewrite (forEach_cut _ VNull before after TypeError).
Qed.

Lemma null_event_witness :
  let content :=
    Json.quoted "[{'EventID':22,'QueryName':'a.example','UtcTime':'u'},null,{'EventID':22,'QueryName':'b.example','UtcTime':'u'}]" in
  let content' :=
    Json.quoted "[{'EventID':22,'QueryName':'a.example','UtcTime':'u'}]" in
  map d_queryName
    (PD.dnsQueries
       (parsedData (snd (@SysmonLogParser.parseByFormat demo_host content' "sysmon" fresh))))
  = [VStr "a.example"] /\
  @SysmonLogParser.parseByFormat demo_host content "sysmon" fresh
  = @SysmonLogParser.parseByFormat demo_host content' "sysmon" fresh.
Proof.
  intros content content'. split; [vm_compute; reflexivity|].
  apply (@null_event_cuts_the_file_short demo_host content content'
           [VObj [("EventID", VNum 22); ("QueryName", VStr "a.example");
                  ("UtcTime", VStr "u")]]
           [VObj [("EventID", VNum 22); ("QueryName", VStr "b.example");
                  ("UtcTime", VStr "u")]]
           "sysmon" fresh); vm_compute; reflexivity.
Defined.

(** ** The order of the findings *)

















(** ** What one event adds *)

Lemma with_more_empty d : with_more d PD.empty = d.
Proof. destruct d. unfold with_more. simpl. now rewrite !app_nil_r. Qed.

Lemma with_more_assoc d m1 m2 :
  with_more (with_more d m1) m2 = with_more d (with_more m1 m2).
Proof. unfold with_more. simpl. now rewrite <- !app_assoc. Qed.

Lemma size_with_more d m : size (with_more d m) = (size d + size m)%nat.
Proof. unfold size, with_more. simpl. rewrite !length_app. lia. Qed.

Lemma adds_reads {A} (m : M A) (Q : PD.t -> Prop) :
  reads m -> Q PD.empty -> adds m Q.
Proof.
  intros Hm HQ st. exists PD.empty. now rewrite Hm, with_more_empty.
Qed.

Lemma adds_seq {A B} (m : M A) (f : A -> M B) (Q1 Q2 Q : PD.t -> Prop) :
  adds m Q1 -> (forall a, adds (f a) Q2) ->
  (forall m1, Q1 m1 -> Q m1) ->
  (forall m1 m2, Q1 m1 -> Q2 m2 -> Q (with_more m1 m2)) ->
  adds (bind m f) Q.
Proof.
  intros Hm Hf H1 H12 st. unfold bind.
  destruct (Hm st) as (m1 & E1 & HQ1).
  destruct (m st) as [[a|e] st1]; simpl in *.
  - destruct (Hf a st1) as (m2 & E2 & HQ2).
    exists (with_more m1 m2). rewrite E2, E1, with_more_assoc. auto.
  - exists m1. auto.
Qed.

Lemma adds_after_read {A B} (m : M A) (f : A -> M B) (Q : PD.t -> Prop) :
  reads m -> Q PD.empty -> (forall a, adds (f a) Q) -> adds (bind m f) Q.
Proof.
  intros Hm HQ Hf st. unfold bind. specialize (Hm st).
  destruct (m st) as [[a|e] st1]; simpl in *.
  - destruct (Hf a st1) as (m2 & E2 & HQ2). exists m2. now rewrite E2, Hm.
  - exists PD.empty. now rewrite Hm, with_more_empty.
Qed.

Lemma adds_weaken {A} (m : M A) (Q Q' : PD.t -> Prop) :
  adds m Q -> (forall more, Q more -> Q' more) -> adds m Q'.
Proof.
  intros Hm HQ st. destruct (Hm st) as (more & E & H1). exists more. auto.
Qed.

Lemma adds_try (m : M unit) Q : adds m Q -> adds (try_catch m) Q.
Proof. intros Hm st. apply Hm. Qed.

Lemma adds_push_process r (Q : PD.t -> Prop) :
  Q (PD.mk [r] [] [] [] [] [] [] []) -> adds (push_process r) Q.
Proof. intros HQ st. eexists. split; [|exact HQ]. simpl. unfold with_more. simpl. now rewrite !app_nil_r. Qed.

Lemma adds_push_network r (Q : PD.t -> Prop) :
  Q (PD.mk [] [r] [] [] [] [] [] []) -> adds (push_network r) Q.
Proof. intros HQ st. eexists. split; [|exact HQ]. simpl. unfold with_more, with_network. simpl. now rewrite !app_nil_r. Qed.

Lemma adds_push_fileActivity r (Q : PD.t -> Prop) :
  Q (PD.mk [] [] [r] [] [] [] [] []) -> adds (push_fileActivity r) Q.
Proof. intros HQ st. eexists. split; [|exact HQ]. simpl. unfold with_more. simpl. now rewrite !app_nil_r. Qed.

Lemma adds_push_registry r (Q : PD.t -> Prop) :
  Q (PD.mk [] [] [] [] [r] [] [] []) -> adds (push_registry r) Q.
Proof. intros HQ st. eexists. split; [|exact HQ]. simpl. unfold with_more. simpl. now rewrite !app_nil_r. Qed.

Lemma adds_push_threat r (Q : PD.t -> Prop) :
  Q (PD.mk [] [] [] [] [] [] [r] []) -> adds (push_threat r) Q.
Proof. intros HQ st. eexists. split; [|exact HQ]. simpl. unfold with_more. simpl. now rewrite !app_nil_r. Qed.

Lemma adds_push_dns r (Q : PD.t -> Prop) :
  Q (PD.mk [] [] [] [] [] [] [] [r]) -> adds (push_dns r) Q.
Proof. intros HQ st. eexists. split; [|exact HQ]. simpl. unfold with_more. simpl. now rewrite !app_nil_r. Qed.

Lemma adds_forEach {A} (f : A -> M unit) (l : list A) (k : nat) :
  (forall a, adds (f a) (at_most k)) ->
  adds (forEach f l) (at_most (k * length l)).
Proof.
  intros Hf. induction l as [|a l IH]; simpl.
  - apply adds_reads; [apply reads_ret|].
    rewrite Nat.mul_0_r. unfold at_most, size. simpl. lia.
  - rewrite Nat.mul_succ_r.
    apply (adds_seq _ _ (at_most k) (at_most (k * length l))).
    + apply Hf.
    + intros _. exact IH.
    + unfold at_most. intros. lia.
    + unfold at_most. intros m1 m2 H1 H2. rewrite size_with_more. lia.
Qed.

Ltac reads_all :=
  unfold SysmonLogParser.imageName, ElkLogParser.imageOf, ElkLogParser.nameOf,
    ElkLogParser.pidOf, ElkLogParser.userOf, ElkLogParser.either,
    DefenderLogParser.pathOf, WazuhLogParser.auditEvent;
  solve [reads_tac].

(** Straight-line code that reads and then pushes at most once. *)
Ltac adds_tac side :=
  repeat first
    [ apply adds_reads; [reads_all | side]
    | match goal with
      | |- adds (push_process _) _ => apply adds_push_process; side
      | |- adds (push_network _) _ => apply adds_push_network; side
      | |- adds (push_fileActivity _) _ => apply adds_push_fileActivity; side
      | |- adds (push_dns _) _ => apply adds_push_dns; side
      | |- adds (push_threat _) _ => apply adds_push_threat; side
      | |- adds (push_registry _) _ => apply adds_push_registry; side
      | |- adds (bind _ _) _ =>
          apply adds_after_read; [reads_all | side | intros]
      | |- adds (if ?b then _ else _) _ => destruct b
      end ].

Ltac count_side := unfold at_most, size; simpl; lia.

Lemma sysmon_event_adds `{Host} event :
  adds (SysmonLogParser.processSysmonEvent event) (at_most 1).
Proof.
  unfold SysmonLogParser.processSysmonEvent,
    SysmonLogParser.processProcessCreation,
    SysmonLogParser.processNetworkConnection,
    SysmonLogParser.processFileActivity, SysmonLogParser.processDnsQuery.
  adds_tac count_side.
Qed.

Lemma defender_event_adds `{Host} event :
  adds (DefenderLogParser.processDefenderEvent event) (at_most 1).
Proof.
  unfold DefenderLogParser.processDefenderEvent.
  adds_tac count_side.
Qed.

Lemma within_empty ts b : within ts b PD.empty.
Proof.
  split; [repeat split; constructor|]. simpl. repeat split; apply Nat.le_0_l.
Qed.

Lemma within_more ts b c m1 m2 :
  within ts b m1 -> within ts c m2 -> within ts (plus b c) (with_more m1 m2).
Proof.
  intros [(A1 & A2 & A3 & A4 & A5 & A6 & A7 & A8) (L1 & L2 & L3 & L4 & L5 & L6)]
         [(B1 & B2 & B3 & B4 & B5 & B6 & B7 & B8) (K1 & K2 & K3 & K4 & K5 & K6)].
  split.
  - repeat split; simpl; try (apply Forall_app; split; assumption).
    + now rewrite A7, B7.
    + now rewrite A8, B8.
  - simpl. rewrite !length_app. repeat split; lia.
Qed.

Lemma within_le ts b c m :
  within ts b m ->
  (b_process b <= b_process c /\ b_network b <= b_network c /\
   b_file b <= b_file c /\ b_dns b <= b_dns c /\
   b_threat b <= b_threat c /\ b_registry b <= b_registry c)%nat ->
  within ts c m.
Proof.
  intros [HA (L1 & L2 & L3 & L4 & L5 & L6)] (K1 & K2 & K3 & K4 & K5 & K6).
  split; [exact HA|]. repeat split; lia.
Qed.

Lemma within_size ts b m :
  within ts b m ->
  (size m <= b_process b + b_network b + b_file b + b_dns b
             + b_threat b + b_registry b)%nat.
Proof.
  intros [(_ & _ & _ & _ & _ & _ & A7 & A8) (L1 & L2 & L3 & L4 & L5 & L6)].
  unfold size. rewrite A7, A8. simpl. lia.
Qed.

Ltac within_side :=
  first
    [ apply within_empty
    | split;
      [ repeat split; simpl; repeat constructor
      | simpl; repeat split; lia ] ].

Section OneEvent.
Context `{Host}.

Lemma adds_then {A B} (m : M A) (f : A -> M B) ts b c :
  adds m (within ts b) -> (forall a, adds (f a) (within ts c)) ->
  adds (bind m f) (within ts (plus b c)).
Proof.
  intros Hm Hf. apply (adds_seq _ _ (within ts b) (within ts c)); auto.
  - intros m1 H1. apply (within_le ts b); [exact H1|]. simpl. repeat split; lia.
  - intros m1 m2. apply within_more.
Qed.

Lemma elk_processCheck_adds event ts :
  adds (ElkLogParser.processCheck event ts) (within ts only_process).
Proof. unfold ElkLogParser.processCheck. adds_tac within_side. Qed.

Lemma elk_networkCheck_adds event ts :
  adds (ElkLogParser.networkCheck event ts) (within ts only_network).
Proof. unfold ElkLogParser.networkCheck. adds_tac within_side. Qed.

Lemma elk_fileCheck_adds event ts :
  adds (ElkLogParser.fileCheck event ts) (within ts only_file).
Proof. unfold ElkLogParser.fileCheck. adds_tac within_side. Qed.

Lemma elk_dnsCheck_adds event ts :
  adds (ElkLogParser.dnsCheck event ts) (within ts only_dns).
Proof. unfold ElkLogParser.dnsCheck. adds_tac within_side. Qed.

Lemma one_event_empty b : one_event b PD.empty.
Proof. exists VUndefined. apply within_empty. Qed.

Lemma elk_processLog_adds log :
  adds (ElkLogParser.processLog log) (one_event elk_budget).
Proof.
  unfold ElkLogParser.processLog.
  apply adds_after_read; [reads_all | apply one_event_empty | intros _source].
  unfold ElkLogParser.processGenericEvent.
  apply adds_after_read;
    [unfold orNow; reads_all | apply one_event_empty | intros ts].
  apply (adds_weaken _ (within ts elk_budget)); [|intros more Hm; now exists ts].
  change elk_budget
    with (plus only_process (plus only_network (plus only_file only_dns))).
  apply adds_then; [apply elk_processCheck_adds | intros _].
  apply adds_then; [apply elk_networkCheck_adds | intros _].
  apply adds_then; [apply elk_fileCheck_adds | intros _].
  apply elk_dnsCheck_adds.
Qed.

Lemma wazuh_processAlert_adds alert :
  adds (WazuhLogParser.processAlert alert) (one_event wazuh_budget).
Proof.
  unfold WazuhLogParser.processAlert.
  apply adds_after_read; [reads_all | apply one_event_empty | intros ts0].
  apply adds_after_read;
    [unfold orNow; reads_all | apply one_event_empty | intros ts].
  apply (adds_weaken _ (within ts wazuh_budget)); [|intros more Hm; now exists ts].
  do 4 (apply adds_after_read; [reads_all | apply within_empty | intros]).
  cbv zeta.
  change wazuh_budget with (plus only_threat only_file).
  apply adds_then; [|intros _]; adds_tac within_side.
Qed.
End OneEvent.

Lemma one_event_at_most b n more :
  (b_process b + b_network b + b_file b + b_dns b + b_threat b + b_registry b
   <= n)%nat ->
  one_event b more -> at_most n more.
Proof.
  intros Hn (ts & Hw). apply within_size in Hw. unfold at_most. lia.
Qed.

Lemma at_most_empty n : at_most n PD.empty.
Proof. unfold at_most, size. simpl. lia. Qed.

Lemma adds_bind_lift {A B} (v : A) (f : A -> M B) Q :
  adds (f v) Q -> adds (bind (lift (Ok v)) f) Q.
Proof. intros Hf st. exact (Hf st). Qed.

(** X16. How many records an event gives. A Sysmon event and a Defender
    event add at most one record to [parsedData], an ELK log entry at most
    four, a Wazuh alert at most two, whether their processing returns or
    throws; so a file whose content is a JSON array of n elements adds at
    most n, 4n, n and 2n records. *)
Theorem records_per_event `{Host} :
  (forall event, adds (SysmonLogParser.processSysmonEvent event) (at_most 1)) /\
  (forall log, adds (ElkLogParser.processLog log) (at_most 4)) /\
  (forall event, adds (DefenderLogParser.processDefenderEvent event) (at_most 1)) /\
  (forall alert, adds (WazuhLogParser.processAlert alert) (at_most 2)) /\
  (forall content format events,
     JSON_parse content = Some (VArr events) ->
     adds (SysmonLogParser.parseByFormat content format)
          (at_most (1 * length events)) /\
     adds (ElkLogParser.parseByFormat content format)
          (at_most (4 * length events)) /\
     adds (DefenderLogParser.parseByFormat content format)
          (at_most (1 * length events)) /\
     adds (WazuhLogParser.parseByFormat content format)
          (at_most (2 * length events))).
Proof.
  assert (Hs := sysmon_event_adds).
  assert (Hd := defender_event_adds).
  assert (He : forall log, adds (ElkLogParser.processLog log) (at_most 4)).
  { intros log. apply (adds_weaken _ _ _ (elk_processLog_adds log)).
    intros more. apply one_event_at_most. simpl. lia. }
  assert (Hw : forall alert, adds (WazuhLogParser.processAlert alert) (at_most 2)).
  { intros alert. apply (adds_weaken _ _ _ (wazuh_processAlert_adds alert)).
    intros more. apply one_event_at_most. simpl. lia. }
  repeat (split; [assumption|]).
  intros content format events Hp.
  assert (Hret : forall n, adds (ret tt) (at_most n)).
  { intros n. apply adds_reads; [apply reads_ret | apply at_most_empty]. }
  split; [|split; [|split]].
  - unfold SysmonLogParser.parseByFormat, SysmonLogParser.parseSysmonLogs.
    destruct (String.eqb format "sysmon"); [|apply Hret].
    apply adds_try. unfold JSON_parse_or_throw. rewrite Hp.
    apply (adds_bind_lift (VArr events)). now apply adds_forEach.
  - unfold ElkLogParser.parseByFormat, ElkLogParser.parseELKLogs.
    destruct (String.eqb format "elk"); [|apply Hret].
    rewrite Hp. now apply adds_forEach.
  - unfold DefenderLogParser.parseByFormat, DefenderLogParser.parseDefenderLogs.
    destruct (String.eqb format "defender"); [|apply Hret].
    apply adds_try. unfold JSON_parse_or_throw. rewrite Hp.
    apply (adds_bind_lift (VArr events)). now apply adds_forEach.
  - unfold WazuhLogParser.parseByFormat, WazuhLogParser.parseWazuhLogs.
    destruct (String.eqb format "wazuh"); [|apply Hret].
    apply adds_try. unfold JSON_parse_or_throw. rewrite Hp.
    apply (adds_bind_lift (VArr events)). now apply adds_forEach.
Qed.

Lemma records_per_event_witness :
  let content :=
    Json.quoted "[{'@timestamp':'u','Image':'/bin/sh','ProcessId':7,'DestinationIp':'8.8.8.8','TargetFilename':'/tmp/x','QueryName':'a.example'}]" in
  size (parsedData (snd (@ElkLogParser.parseByFormat demo_host content "elk" fresh)))
  = 4%nat /\
  adds (@ElkLogParser.parseByFormat demo_host content "elk") (at_most (4 * 1)).
Proof.
  intros content. split; [vm_compute; reflexivity|].
  apply (proj2 (proj2 (proj2 (proj2 (@records_per_event demo_host))))
           content "elk"
           [VObj [("@timestamp", VStr "u"); ("Image", VStr "/bin/sh");
                  ("ProcessId", VNum 7); ("DestinationIp", VStr "8.8.8.8");
                  ("TargetFilename", VStr "/tmp/x");
                  ("QueryName", VStr "a.example")]]).
  vm_compute. reflexivity.
Defined.

(** X17. The records of one ELK log entry (at most one process, one
    connection, one file activity, one DNS query, and nothing else) all
    carry one timestamp, and so do the records of one Wazuh alert (at most
    one threat and one file activity, and nothing else). *)
Theorem records_of_one_entry_share_a_timestamp `{Host} :
  (forall log, adds (ElkLogParser.processLog log) (one_event elk_budget)) /\
  (forall alert,
     adds (WazuhLogParser.processAlert alert) (one_event wazuh_budget)).
Proof.
  split; [exact elk_processLog_adds | exact wazuh_processAlert_adds].
Qed.

(** ** Events that are not filed *)

Lemma get_defined v k :
  v <> VNull -> v <> VUndefined -> JS.get v k = Ok (JS.optget v k).
Proof. destruct v; simpl; intros H1 H2; congruence. Qed.

Lemma eq_num_false v n : v <> VNum n -> JS.eq_num v n = false.
Proof.
  intros Hv. destruct (JS.eq_num v n) eqn:E; [|reflexivity].
  now apply eq_num_spec in E.
Qed.

Lemma eq_str_false v s : v <> VStr s -> JS.eq_str v s = false.
Proof.
  intros Hv. destruct (JS.eq_str v s) eqn:E; [|reflexivity].
  now apply eq_str_spec in E.
Qed.

(** X18. An event that is not [null] and whose [EventID] is none of the
    numbers 1, 3, 11, 23, 15 and 22 (the string '3', say, or no code at
    all) is ignored by the Sysmon parser: the state is as before. An event
    whose [EventType] is none of the seven types of the Defender parser is
    ignored by it: its processing returns and the data are as before. *)
Theorem unknown_events_are_ignored (event : Value) (st : State) :
  event <> VNull -> event <> VUndefined ->
  (~ In (JS.optget event "EventID") sysmon_codes ->
   SysmonLogParser.processSysmonEvent event st = (Ok tt, st)) /\
  (~ In (JS.optget event "EventType") defender_types ->
   fst (DefenderLogParser.processDefenderEvent event st) = Ok tt /\
   parsedData (snd (DefenderLogParser.processDefenderEvent event st))
   = parsedData st).
Proof.
  intros N1 N2. split; intros Hn.
  - unfold SysmonLogParser.processSysmonEvent, bind, field, lift.
    rewrite (get_defined event "EventID" N1 N2).
    simpl in Hn.
    rewrite !eq_num_false by (intros E; rewrite E in Hn; tauto).
    reflexivity.
  - unfold DefenderLogParser.processDefenderEvent, bind, field, lift.
    rewrite !(get_defined event _ N1 N2).
    simpl in Hn.
    rewrite !eq_str_false by (intros E; rewrite E in Hn; tauto).
    unfold orNow, orM, ret, now.
    destruct (JS.truthy (JS.optget event "TimeGenerated")); simpl; auto.
Qed.

Lemma unknown_events_witness :
  SysmonLogParser.processSysmonEvent
    (VObj [("EventID", VStr "3"); ("DestinationIp", VStr "8.8.8.8")]) fresh
  = (Ok tt, fresh).
Proof.
  apply (proj1 (unknown_events_are_ignored
                  (VObj [("EventID", VStr "3"); ("DestinationIp", VStr "8.8.8.8")])
                  fresh ltac:(discriminate) ltac:(discriminate))).
  simpl. intros [E|[E|[E|[E|[E|[E|[]]]]]]]; discriminate E.
Defined.

(** ** Runs that do not read the clock *)

Lemma state_eta st : st = at_time (parsedData st) (clock st).
Proof. now destruct st. Qed.

Lemma timeless_ret {A} (a : A) : timeless (ret a).
Proof. intros d c1 c2. auto. Qed.

Lemma timeless_lift {A} (r : Result A) : timeless (lift r).
Proof. intros d c1 c2. auto. Qed.

Lemma timeless_field e k : timeless (field e k).
Proof. intros d c1 c2. auto. Qed.

Lemma timeless_modify f : timeless (modify f).
Proof. intros d c1 c2. auto. Qed.

Lemma timeless_bind {A B} (m : M A) (f : A -> M B) :
  timeless m ->
  (forall a, (exists st, fst (m st) = Ok a) -> timeless (f a)) ->
  timeless (bind m f).
Proof.
  intros Hm Hf d c1 c2. unfold bind.
  generalize (Hm d c1 c2), (Hm d c2 c1),
    (fun a Ea => Hf a (ex_intro _ (at_time d c1) Ea)).
  destruct (m (at_time d c1)) as [[a|e] s1];
    destruct (m (at_time d c2)) as [[a'|e'] s2]; simpl;
    intros (E1 & E2 & E3) (_ & _ & E4) Hf'; try discriminate E1.
  - injection E1 as <-.
    rewrite (state_eta s1), (state_eta s2), E3, E4, <- E2.
    apply (Hf' a eq_refl).
  - injection E1 as <-. auto.
Qed.

Lemma timeless_then {A B} (m : M A) (f : A -> M B) :
  timeless m -> (forall a, timeless (f a)) -> timeless (bind m f).
Proof. intros Hm Hf. apply timeless_bind; auto. Qed.

Lemma timeless_bind_field {B} e k (f : Value -> M B) :
  (forall v, JS.get e k = Ok v -> timeless (f v)) ->
  timeless (bind (field e k) f).
Proof.
  intros Hf. apply timeless_bind; [apply timeless_field|].
  intros v (st & E). apply Hf. exact E.
Qed.

Lemma timeless_bind_lift {A B} (v : A) (f : A -> M B) :
  timeless (f v) -> timeless (bind (lift (Ok v)) f).
Proof. intros Hf d c1 c2. exact (Hf d c1 c2). Qed.

Lemma timeless_try (m : M unit) : timeless m -> timeless (try_catch m).
Proof.
  intros Hm d c1 c2. destruct (Hm d c1 c2) as (_ & E2 & E3).
  unfold try_catch. simpl. auto.
Qed.

Lemma timeless_forEach {A} (f : A -> M unit) (l : list A) :
  Forall (fun a => timeless (f a)) l -> timeless (forEach f l).
Proof.
  induction 1 as [|a l Ha _ IH]; simpl.
  - apply timeless_ret.
  - apply timeless_then; [exact Ha | intros _; exact IH].
Qed.

Lemma timeless_orM v rest : timeless rest -> timeless (orM v rest).
Proof.
  intros Hr. unfold orM. destruct (JS.truthy v); [apply timeless_ret | exact Hr].
Qed.

Lemma timeless_orNow v : JS.truthy v = true -> timeless (orNow v).
Proof. intros T. unfold orNow, orM. rewrite T. apply timeless_ret. Qed.

Lemma has_field event k v : has event k -> JS.get event k = Ok v -> JS.truthy v = true.
Proof. intros Ht Hg. apply get_optget in Hg. now subst v. Qed.

Ltac timeless_tac :=
  unfold SysmonLogParser.imageName, ElkLogParser.imageOf, ElkLogParser.nameOf,
    ElkLogParser.pidOf, ElkLogParser.userOf, ElkLogParser.either,
    DefenderLogParser.pathOf, WazuhLogParser.auditEvent,
    push_process, push_network, push_fileActivity, push_dns, push_threat,
    push_registry;
  repeat first
    [ apply timeless_ret | apply timeless_lift | apply timeless_field
    | apply timeless_modify
    | match goal with
      | Ht : has ?e ?k, Hg : JS.get ?e ?k = Ok ?v |- timeless (orNow ?v) =>
          apply timeless_orNow, (has_field e k v Ht Hg)
      | |- timeless (orM _ _) => apply timeless_orM
      | |- timeless (bind (field _ _) _) =>
          apply timeless_bind_field; intros ? ?
      | |- timeless (bind _ _) => apply timeless_then; [|intros ?]
      | |- timeless (if ?b then _ else _) => destruct b
      end ].

Lemma sysmon_event_timeless event :
  has event "UtcTime" -> timeless (SysmonLogParser.processSysmonEvent event).
Proof.
  intros Ht.
  unfold SysmonLogParser.processSysmonEvent,
    SysmonLogParser.processProcessCreation,
    SysmonLogParser.processNetworkConnection,
    SysmonLogParser.processFileActivity, SysmonLogParser.processDnsQuery.
  timeless_tac.
Qed.

Lemma defender_event_timeless event :
  has event "TimeGenerated" ->
  timeless (DefenderLogParser.processDefenderEvent event).
Proof.
  intros Ht. unfold DefenderLogParser.processDefenderEvent. timeless_tac.
Qed.

Lemma wazuh_alert_timeless `{Host} alert :
  has alert "timestamp" -> timeless (WazuhLogParser.processAlert alert).
Proof.
  intros Ht. unfold WazuhLogParser.processAlert. timeless_tac.
Qed.

Lemma elk_log_timeless `{Host} log :
  has (source_of log) "@timestamp" \/ has (source_of log) "UtcTime" ->
  timeless (ElkLogParser.processLog log).
Proof.
  intros Ht. unfold ElkLogParser.processLog.
  apply timeless_bind_field; intros src Hsrc.
  apply get_optget in Hsrc. subst src. fold (source_of log).
  unfold ElkLogParser.processGenericEvent.
  apply timeless_then.
  - apply timeless_bind_field; intros ts Hts.
    unfold orM. destruct (JS.truthy ts) eqn:T; [apply timeless_ret|].
    apply timeless_bind_field; intros u Hu.
    apply timeless_orNow. destruct Ht as [Ht|Ht].
    + rewrite (has_field _ _ _ Ht Hts) in T. discriminate T.
    + exact (has_field _ _ _ Ht Hu).
  - intros ts.
    unfold ElkLogParser.processCheck, ElkLogParser.networkCheck,
      ElkLogParser.fileCheck, ElkLogParser.dnsCheck.
    timeless_tac.
Qed.

Lemma array_timeless `{Host} (f : Value -> M unit) (P : Value -> Prop) content :
  (forall event, P event -> timeless (f event)) ->
  Forall P (array_of content) ->
  timeless
    (try_catch
       (events <- lift (JSON_parse_or_throw content) ;;
        match events with
        | VArr es => forEach f es
        | _ => ret tt
        end)%parser).
Proof.
  intros Hf Ht. apply timeless_try.
  unfold array_of in Ht. unfold JSON_parse_or_throw.
  destruct (JSON_parse content) as [v|].
  - apply timeless_bind_lift.
    destruct v; try apply timeless_ret.
    apply timeless_forEach. eapply Forall_impl; [|exact Ht]. exact Hf.
  - apply timeless_bind; [apply timeless_lift|].
    intros a (st & E). discriminate E.
Qed.

Lemma sysmon_file_timeless `{Host} content format :
  sysmon_timed content ->
  timeless (SysmonLogParser.parseByFormat content format).
Proof.
  intros Ht. unfold SysmonLogParser.parseByFormat.
  destruct (String.eqb format "sysmon"); [|apply timeless_ret].
  exact (array_timeless _ _ content sysmon_event_timeless Ht).
Qed.

Lemma defender_file_timeless `{Host} content format :
  defender_timed content ->
  timeless (DefenderLogParser.parseByFormat content format).
Proof.
  intros Ht. unfold DefenderLogParser.parseByFormat.
  destruct (String.eqb format "defender"); [|apply timeless_ret].
  exact (array_timeless _ _ content defender_event_timeless Ht).
Qed.

Lemma wazuh_file_timeless `{Host} content format :
  wazuh_timed content ->
  timeless (WazuhLogParser.parseByFormat content format).
Proof.
  intros Ht. unfold WazuhLogParser.parseByFormat.
  destruct (String.eqb format "wazuh"); [|apply timeless_ret].
  exact (array_timeless _ _ content wazuh_alert_timeless Ht).
Qed.

Lemma elk_file_timeless `{Host} content format :
  elk_timed content ->
  timeless (ElkLogParser.parseByFormat content format).
Proof.
  unfold elk_timed, entries_of, lines_of, ElkLogParser.parseByFormat,
    ElkLogParser.parseELKLogs.
  intros Ht.
  destruct (String.eqb format "elk"); [|apply timeless_ret].
  assert (K : forall es,
             Forall (fun log => has (source_of log) "@timestamp" \/
                                has (source_of log) "UtcTime") es ->
             timeless (forEach ElkLogParser.processLog es)).
  { intros es Hes. apply timeless_forEach.
    eapply Forall_impl; [|exact Hes]. intros log. apply elk_log_timeless. }
  destruct (JSON_parse content) as [v|].
  - destruct v; apply K; exact Ht.
  - destruct (ElkLogParser.parseLines _); [apply K; exact Ht | apply timeless_ret].
Qed.

Lemma run_timeless (parseByFormat : string -> string -> M unit)
  (gen : PD.t -> Result Viz.t) files format st1 st2 :
  Forall (fun content => timeless (parseByFormat content format)) files ->
  let run := (reset ;;
              forEach (fun content => parseByFormat content format) files ;;
              d <- (fun st => (Ok (parsedData st), st)) ;;
              lift (gen d))%parser in
  fst (run st1) = fst (run st2).
Proof.
  intros HF. cbv zeta.
  rewrite !(bind_Ok _ _ _ _ _ (reset_run _)).
  assert (K : timeless
                (forEach (fun content => parseByFormat content format) files ;;
                 d <- (fun st => (Ok (parsedData st), st)) ;;
                 lift (gen d))%parser).
  { apply timeless_then; [apply timeless_forEach; exact HF | intros _].
    apply timeless_then; [intros d c1 c2; auto | intros d].
    apply timeless_lift. }
  exact (proj1 (K PD.empty (clock st1) (clock st2))).
Qed.

(** X19. Logs that carry their own time are parsed alike at any time. If
    every event of every file has the time field its parser reads
    ([UtcTime] for Sysmon, [TimeGenerated] for Defender, [timestamp] for
    Wazuh, [@timestamp] or [UtcTime] for ELK, truthy in each case), the
    parser never reads the clock, and [parseLogs] has the same outcome
    from any two states, whatever their clocks and the data of earlier
    runs. *)
Theorem timestamped_logs_do_not_read_the_clock `{Host}
  (files : list string) (format : string) (st1 st2 : State) :
  (Forall sysmon_timed files ->
   fst (parseLogs sysmon files format st1)
   = fst (parseLogs sysmon files format st2)) /\
  (Forall elk_timed files ->
   fst (parseLogs elk files format st1) = fst (parseLogs elk files format st2)) /\
  (Forall defender_timed files ->
   fst (parseLogs defender files format st1)
   = fst (parseLogs defender files format st2)) /\
  (Forall wazuh_timed files ->
   fst (parseLogs wazuh files format st1)
   = fst (parseLogs wazuh files format st2)).
Proof.
  split; [|split; [|split]]; intros Ht; simpl; apply run_timeless;
    (eapply Forall_impl; [|exact Ht]); intros content.
  - apply sysmon_file_timeless.
  - apply elk_file_timeless.
  - apply defender_file_timeless.
  - apply wazuh_file_timeless.
Qed.

Lemma timestamped_logs_witness :
  let content :=
    Json.quoted "[{'EventID':3,'DestinationIp':'8.8.8.8','DestinationPort':53,'UtcTime':'2024-01-01 00:00:00.000'}]" in
  let later := {| parsedData := PD.empty; clock := fun _ => "later" |} in
  fst (parseLogs (@sysmon demo_host) [content] "sysmon" fresh)
  = fst (parseLogs (@sysmon demo_host) [content] "sysmon" later).
Proof.
  intros content later.
  apply (proj1 (@timestamped_logs_do_not_read_the_clock demo_host
                  [content] "sysmon" fresh later)).
  constructor; [|constructor].
  unfold sysmon_timed.
  assert (E : @array_of demo_host content
              = [VObj [("EventID", VNum 3); ("DestinationIp", VStr "8.8.8.8");
                       ("DestinationPort", VNum 53);
                       ("UtcTime", VStr "2024-01-01 00:00:00.000")]])
    by (vm_compute; reflexivity).
  rewrite E. constructor; [reflexivity | constructor].
Defined.
